(** * Temporal reference data: notification queue, change sets, queries,
      aggregates and the document validator

    A shallow embedding of the SQL routines of the migrations
    [005.create-fby-notification-mechanism.sql] and
    [006.create-rdf-change-set-relations.sql], together with the parts of the
    framework that the test suites exercise (change log, aggregates, the YAML
    document validator).

    Conventions used throughout:
    - a table is the list of its rows; the order of the list stands for the
      order of a scan, which PostgreSQL does not promise to keep from one
      statement to the next;
    - a nullable column is an [option], SQL [NULL] being [None];
    - [INTEGER] and [TIMESTAMP WITH TIME ZONE] values are integers ([Z]), and
      an [INTEGER] sum that leaves the 32 bits of the type raises;
      [now()] is an argument of every routine that reads the clock;
    - a statement that violates a constraint raises, and the table is left as
      it was. *)

From Stdlib Require Import ZArith Lia Strings.Byte Strings.Ascii.
From Stdlib Require OrderedTypeEx.
From stdpp Require Import gmap strings list fin_maps sorting pretty.

Open Scope Z_scope.

(** ** Errors raised by the database *)

Inductive pg_error : Type :=
  | unique_violation (constraint : string)
  | not_null_violation (column : string)
  | foreign_key_violation (constraint : string)
  (* 22003, "integer out of range" *)
  | numeric_value_out_of_range.

Inductive outcome (A : Type) : Type :=
  | Commit (a : A)
  | Raise (e : pg_error).
Arguments Commit {A} a.
Arguments Raise {A} e.

Definition outcome_bind {A B : Type} (o : outcome A) (k : A → outcome B) : outcome B :=
  match o with
  | Commit a => k a
  | Raise e => Raise e
  end.

(** SQL arithmetic and comparison on nullable integers: a [NULL] operand makes
    the sum [NULL] and the comparison unknown, which a [WHERE] clause rejects.
    [sql_succ] is the sum as a number. An [INTEGER] has 32 bits: where the sum
    is above [int4_max] the expression [a + 1] has no value, PostgreSQL raises
    "integer out of range" and the statement that evaluates it raises with
    it; [out_of_range] tells when. *)
Definition int4_max : Z := 2147483647.

(** The values of the type [INTEGER]. *)
Definition integer (v : Z) : Prop := -2147483648 ≤ v ≤ int4_max.

#[global] Instance integer_dec v : Decision (integer v).
Proof. unfold integer. apply _. Defined.

Definition sql_succ (a : option Z) : option Z := (λ v, v + 1) <$> a.

Definition out_of_range (v : option Z) : bool :=
  match v with
  | Some v => bool_decide (int4_max < v)
  | None => false
  end.

Definition sql_lt (a : option Z) (b : Z) : bool :=
  match a with
  | Some v => bool_decide (v < b)
  | None => false
  end.

(** ** Migration 005: the notification mechanism *)

Module Notification.

(** [CREATE TYPE fby_notification_status AS ENUM ('PENDING', 'OK')] *)
Inductive fby_notification_status : Type := PENDING | OK.

#[global] Instance fby_notification_status_eq_dec : EqDecision fby_notification_status.
Proof. solve_decision. Defined.

(** A row of [fby_notification]. *)
Record notification : Type := {
  id : Z;
  hook_id : Z;
  projection_id : Z;
  scheduled_for : Z;
  attempts : option Z;
  status : fby_notification_status;
  last_attempted : option Z;
  last_error : option string
}.

#[global] Instance notification_eq_dec : EqDecision notification.
Proof. solve_decision. Defined.

(** Modelled from the spec: the tables [fby_projection], [fby_entity],
    [fby_projection_entity] and [fby_hook] are created by migrations that are
    not among the sources; their columns are those of the data model (section
    3) that [fby_notify] and the foreign keys of [fby_notification] read. *)
Module projection.
Record t : Type := { id : Z; name : string; version : Z }.
End projection.

Module entity.
Record t : Type := { id : Z; name : string; version : Z }.
End entity.

Module projection_entity.
Record t : Type := { projection_id : Z; entity_id : Z }.
End projection_entity.

Module hook.
Record t : Type := { id : Z; name : string; event : string; projection_id : option Z }.
End hook.

#[global] Instance projection_eq_dec : EqDecision projection.t.
Proof. solve_decision. Defined.

#[global] Instance entity_eq_dec : EqDecision entity.t.
Proof. solve_decision. Defined.

#[global] Instance projection_entity_eq_dec : EqDecision projection_entity.t.
Proof. solve_decision. Defined.

#[global] Instance hook_eq_dec : EqDecision hook.t.
Proof. solve_decision. Defined.

Record database : Type := {
  fby_projection : list projection.t;
  fby_entity : list entity.t;
  fby_projection_entity : list projection_entity.t;
  fby_hook : list hook.t;
  fby_notification : list notification;
  (* the value the next [nextval('fby_notification_id_seq')] returns *)
  fby_notification_id_seq : Z
}.

Definition with_notifications (db : database) (rows : list notification) : database :=
  {| fby_projection := fby_projection db;
     fby_entity := fby_entity db;
     fby_projection_entity := fby_projection_entity db;
     fby_hook := fby_hook db;
     fby_notification := rows;
     fby_notification_id_seq := fby_notification_id_seq db |}.

Definition advance_sequence (db : database) : database :=
  {| fby_projection := fby_projection db;
     fby_entity := fby_entity db;
     fby_projection_entity := fby_projection_entity db;
     fby_hook := fby_hook db;
     fby_notification := fby_notification db;
     fby_notification_id_seq := fby_notification_id_seq db + 1 |}.

(** *** The constraints of [fby_notification] *)

(** The columns of [fby_notification_hook_id_projection_id_status_uniq]. *)
Definition uniq_key (n : notification) : Z * Z * fby_notification_status :=
  (hook_id n, projection_id n, status n).

Definition pkey_ok (rows : list notification) : bool :=
  bool_decide (NoDup (id <$> rows)).

Definition uniq_ok (rows : list notification) : bool :=
  bool_decide (NoDup (uniq_key <$> rows)).

Definition hook_fkey_ok (db : database) (rows : list notification) : bool :=
  forallb (λ n, bool_decide (hook_id n ∈ hook.id <$> fby_hook db)) rows.

Definition projection_fkey_ok (db : database) (rows : list notification) : bool :=
  forallb (λ n, bool_decide (projection_id n ∈ projection.id <$> fby_projection db)) rows.

(** Replace the notification table, as a statement does: the new rows are
    kept when every constraint of the table holds, and the statement raises
    otherwise. *)
Definition write_notifications (db : database) (rows : list notification) : outcome database :=
  if negb (pkey_ok rows) then
    Raise (unique_violation "fby_notification_pkey")
  else if negb (uniq_ok rows) then
    Raise (unique_violation "fby_notification_hook_id_projection_id_status_uniq")
  else if negb (hook_fkey_ok db rows) then
    Raise (foreign_key_violation "fby_notification_hook_id_fkey")
  else if negb (projection_fkey_ok db rows) then
    Raise (foreign_key_violation "fby_notification_projection_id_fkey")
  else Commit (with_notifications db rows).

(** *** [fby_schedule_notification] *)

(** The row proposed for insertion: [id], [scheduled_for], [attempts] and
    [status] take their column defaults. *)
Definition proposed (now p_hook_id p_projection_id new_id : Z) : notification :=
  {| id := new_id;
     hook_id := p_hook_id;
     projection_id := p_projection_id;
     scheduled_for := now;
     attempts := Some 0;
     status := PENDING;
     last_attempted := None;
     last_error := None |}.

(** [ON CONFLICT ... DO UPDATE SET id = EXCLUDED.id, scheduled_for =
    EXCLUDED.scheduled_for, attempts = 0, last_attempted = NULL,
    last_error = NULL] *)
Definition on_conflict_update (excluded n : notification) : notification :=
  {| id := id excluded;
     hook_id := hook_id n;
     projection_id := projection_id n;
     scheduled_for := scheduled_for excluded;
     attempts := Some 0;
     status := status n;
     last_attempted := None;
     last_error := None |}.

Definition conflicts (excluded n : notification) : bool :=
  bool_decide (uniq_key n = uniq_key excluded).

Definition schedule_rows (excluded : notification) (rows : list notification) : list notification :=
  if existsb (conflicts excluded) rows
  then (λ n, if conflicts excluded n then on_conflict_update excluded n else n) <$> rows
  else rows ++ [excluded].

Definition fby_schedule_notification (now p_hook_id p_projection_id : Z) (db : database)
  : outcome database :=
  let excluded := proposed now p_hook_id p_projection_id (fby_notification_id_seq db) in
  let db := advance_sequence db in
  write_notifications db (schedule_rows excluded (fby_notification db)).

(** *** [fby_notify] *)

(** [SELECT DISTINCT p.id FROM fby_entity e INNER JOIN fby_projection_entity pe
    ON pe.entity_id = e.id INNER JOIN fby_projection p ON p.id =
    pe.projection_id WHERE e.name = p_name AND e.version = p_version] *)
Definition dependent_projections (p_name : string) (p_version : Z) (db : database) : list Z :=
  remove_dups
    (e ← fby_entity db;
     pe ← fby_projection_entity db;
     p ← fby_projection db;
     if bool_decide (projection_entity.entity_id pe = entity.id e)
        && bool_decide (projection.id p = projection_entity.projection_id pe)
        && bool_decide (entity.name e = p_name)
        && bool_decide (entity.version e = p_version)
     then [projection.id p] else []).

(** [FROM fby_hook h WHERE h.projection_id = projection.id OR h.projection_id
    IS NULL] *)
Definition matching_hooks (projection : Z) (db : database) : list Z :=
  hook.id <$>
    filter (λ h, hook.projection_id h = Some projection ∨ hook.projection_id h = None)
           (fby_hook db).

Fixpoint schedule_all (now : Z) (targets : list (Z * Z)) (db : database) : outcome database :=
  match targets with
  | [] => Commit db
  | (h, p) :: rest =>
      outcome_bind (fby_schedule_notification now h p db) (schedule_all now rest)
  end.

Definition notify_targets (p_name : string) (p_version : Z) (db : database) : list (Z * Z) :=
  p ← dependent_projections p_name p_version db;
  (λ h, (h, p)) <$> matching_hooks p db.

Definition fby_notify (now : Z) (p_name : string) (p_version : Z) (db : database)
  : outcome database :=
  schedule_all now (notify_targets p_name p_version db) db.

(** *** [fby_get_next_notification] *)

(** The row type of [RETURNS TABLE (id INTEGER, hook_id INTEGER, attempts
    INTEGER)]. *)
Record next_notification : Type := {
  next_id : Z;
  next_hook_id : Z;
  next_attempts : option Z
}.

(** [WHERE n.status = 'PENDING' AND n.scheduled_for <= now() AND n.attempts <
    p_max_attempts] *)
Definition due (now p_max_attempts : Z) (n : notification) : bool :=
  bool_decide (status n = PENDING)
  && bool_decide (scheduled_for n ≤ now)
  && sql_lt (attempts n) p_max_attempts.

(** [FOR UPDATE SKIP LOCKED LIMIT 1]: [locked] tells which rows other
    transactions hold a lock on; the first row of the scan that is due and
    not locked is returned, with [n.attempts + 1 AS attempts]. There is no
    [ORDER BY]: which row comes first when several are due is up to the scan.
    The sum is in range for the row returned, whose attempts are below
    [p_max_attempts], an [INTEGER]. *)
Definition fby_get_next_notification (now p_max_attempts : Z) (locked : Z → bool)
    (db : database) : option next_notification :=
  (λ n, {| next_id := id n;
           next_hook_id := hook_id n;
           next_attempts := sql_succ (attempts n) |})
    <$> find (λ n, due now p_max_attempts n && negb (locked (id n))) (fby_notification db).

(** *** [fby_pass_notification] *)

(** [SELECT hook_id FROM fby_notification n WHERE n.id = p_id INTO v_hook_id] *)
Definition select_hook_id (p_id : Z) (rows : list notification) : option Z :=
  hook_id <$> find (λ n, bool_decide (id n = p_id)) rows.

(** [DELETE FROM fby_notification n WHERE n.hook_id = v_hook_id AND n.status =
    'OK'] *)
Definition delete_ok (v_hook_id : option Z) (rows : list notification) : list notification :=
  filter (λ n, ¬ (Some (hook_id n) = v_hook_id ∧ status n = OK)) rows.

(** [SET attempts = n.attempts + 1, status = 'OK', last_attempted = now(),
    last_error = NULL] *)
Definition passed (now : Z) (n : notification) : notification :=
  {| id := id n;
     hook_id := hook_id n;
     projection_id := projection_id n;
     scheduled_for := scheduled_for n;
     attempts := sql_succ (attempts n);
     status := OK;
     last_attempted := Some now;
     last_error := None |}.

Definition update_where_id (p_id : Z) (f : notification → notification)
    (rows : list notification) : list notification :=
  (λ n, if bool_decide (id n = p_id) then f n else n) <$> rows.

Definition pass_rows (now p_id : Z) (rows : list notification) : list notification :=
  let v_hook_id := select_hook_id p_id rows in
  update_where_id p_id (passed now) (delete_ok v_hook_id rows).

(** The [UPDATE] evaluates [n.attempts + 1] for the row of [p_id] that the
    [DELETE] has left, and raises when the sum is out of range; the rows are
    written otherwise. A call with a [NULL] [p_id] behaves as one with an id
    that no row has. *)
Definition fby_pass_notification (now p_id : Z) (db : database) : outcome database :=
  let rows := fby_notification db in
  if existsb (λ n, bool_decide (id n = p_id) && out_of_range (sql_succ (attempts n)))
             (delete_ok (select_hook_id p_id rows) rows)
  then Raise numeric_value_out_of_range
  else write_notifications db (pass_rows now p_id rows).

(** *** [fby_fail_notification] *)

(** [SET attempts = n.attempts + 1, scheduled_for = p_scheduled_for,
    last_attempted = now(), last_error = p_error] *)
Definition failed (now p_scheduled_for : Z) (p_error : option string) (n : notification)
  : notification :=
  {| id := id n;
     hook_id := hook_id n;
     projection_id := projection_id n;
     scheduled_for := p_scheduled_for;
     attempts := sql_succ (attempts n);
     status := status n;
     last_attempted := Some now;
     last_error := p_error |}.

Definition fail_rows (now p_id p_scheduled_for : Z) (p_error : option string)
    (rows : list notification) : list notification :=
  update_where_id p_id (failed now p_scheduled_for p_error) rows.

(** [p_scheduled_for] and [p_error] may be [NULL]. For a row of [p_id] the
    [UPDATE] first evaluates [n.attempts + 1], which raises when the sum is
    out of range, and then checks the row against [scheduled_for ... NOT
    NULL]; with no such row nothing is evaluated and nothing is checked. *)
Definition fby_fail_notification (now p_id : Z) (p_scheduled_for : option Z)
    (p_error : option string) (db : database) : outcome database :=
  let rows := fby_notification db in
  if existsb (λ n, bool_decide (id n = p_id) && out_of_range (sql_succ (attempts n))) rows
  then Raise numeric_value_out_of_range
  else
    match p_scheduled_for with
    | Some scheduled => write_notifications db (fail_rows now p_id scheduled p_error rows)
    | None =>
        if existsb (λ n, bool_decide (id n = p_id)) rows
        then Raise (not_null_violation "scheduled_for")
        else write_notifications db rows
    end.

(** *** States and runs of the queue *)

(** What every statement leaves true of the table: the declared constraints,
    and a sequence that is ahead of every [id] handed out so far. *)
Definition consistent (db : database) : Prop :=
  NoDup (id <$> fby_notification db)
  ∧ NoDup (uniq_key <$> fby_notification db)
  ∧ Forall (λ n, hook_id n ∈ hook.id <$> fby_hook db) (fby_notification db)
  ∧ Forall (λ n, projection_id n ∈ projection.id <$> fby_projection db) (fby_notification db)
  ∧ Forall (λ n, id n < fby_notification_id_seq db) (fby_notification db).

#[global] Instance consistent_dec (db : database) : Decision (consistent db).
Proof. unfold consistent. apply _. Defined.

(** The number of notifications of hook [H] and projection [P] in status [s]. *)
Definition count_rows (H P : Z) (s : fby_notification_status) (rows : list notification) : nat :=
  length (filter (λ n, uniq_key n = (H, P, s)) rows).

Definition at_most_one_per_status (db : database) : Prop :=
  ∀ H P s, (count_rows H P s (fby_notification db) ≤ 1)%nat.

(** The calls that write to [fby_notification]. *)
Inductive command : Type :=
  | schedule_notification (now p_hook_id p_projection_id : Z)
  | notify (now : Z) (p_name : string) (p_version : Z)
  | pass_notification (now p_id : Z)
  | fail_notification (now p_id : Z) (p_scheduled_for : option Z) (p_error : option string).

Definition exec (c : command) (db : database) : outcome database :=
  match c with
  | schedule_notification now h p => fby_schedule_notification now h p db
  | notify now name version => fby_notify now name version db
  | pass_notification now p_id => fby_pass_notification now p_id db
  | fail_notification now p_id sched err => fby_fail_notification now p_id sched err db
  end.

Fixpoint run (cs : list command) (db : database) : outcome database :=
  match cs with
  | [] => Commit db
  | c :: cs => outcome_bind (exec c db) (run cs)
  end.

(** The row with a given [id]. *)
Definition lookup_id (p_id : Z) (db : database) : option notification :=
  find (λ n, bool_decide (id n = p_id)) (fby_notification db).

End Notification.

(** *** Scenarios on a small queue *)

Module NotificationScenario.
Import Notification.

(** One projection, one hook bound to it and one hook for any projection. *)
Definition empty_queue : database :=
  {| fby_projection := [ {| projection.id := 1; projection.name := "VAT Rates";
                            projection.version := 1 |} ];
     fby_entity := [ {| entity.id := 1; entity.name := "VAT Rate"; entity.version := 1 |} ];
     fby_projection_entity :=
       [ {| projection_entity.projection_id := 1; projection_entity.entity_id := 1 |} ];
     fby_hook := [ {| hook.id := 1; hook.name := "change"; hook.event := "VAT Rates Change";
                      hook.projection_id := Some 1 |};
                   {| hook.id := 2; hook.name := "any"; hook.event := "Any Change";
                      hook.projection_id := None |} ];
     fby_notification := [];
     fby_notification_id_seq := 1 |}.

Definition row (i h p sched : Z) (a : option Z) (s : fby_notification_status)
    (la : option Z) (le : option string) : notification :=
  {| id := i; hook_id := h; projection_id := p; scheduled_for := sched; attempts := a;
     status := s; last_attempted := la; last_error := le |}.

Definition with_rows (rows : list notification) (next : Z) : database :=
  {| fby_projection := fby_projection empty_queue;
     fby_entity := fby_entity empty_queue;
     fby_projection_entity := fby_projection_entity empty_queue;
     fby_hook := fby_hook empty_queue;
     fby_notification := rows;
     fby_notification_id_seq := next |}.

(** Two data frames are posted before the dispatcher runs, the first
    delivery fails and the second one succeeds. *)
Definition busy_day : list command :=
  [ notify 100 "VAT Rate" 1;
    notify 101 "VAT Rate" 1;
    fail_notification 102 3 (Some 110) (Some "subscriber threw");
    pass_notification 111 3 ].

Definition busy_day_end : database :=
  with_rows [ row 3 1 1 110 (Some 2) OK (Some 111) None;
              row 4 2 1 101 (Some 0) PENDING None None ] 5.

(** A queue whose only row has failed twice. *)
Definition failed_twice : database :=
  with_rows [ row 1 1 1 50 (Some 2) PENDING (Some 40) (Some "subscriber threw") ] 2.

(** A queue whose only row was inserted with [NULL] attempts, which the
    column allows. *)
Definition uncounted : database :=
  with_rows [ row 1 1 1 50 None PENDING None None ] 2.

(** A queue whose only row has reached the largest [INTEGER]. *)
Definition exhausted : database :=
  with_rows [ row 1 1 1 50 (Some 2147483647) PENDING (Some 40) (Some "subscriber threw") ] 2.

(** A queue whose only row has been delivered. *)
Definition delivered : database :=
  with_rows [ row 1 1 1 50 (Some 1) OK (Some 50) None ] 2.

End NotificationScenario.

(** ** Migration 006: change sets *)

Module ChangeSet.

(** A row of [rdf_change_set]. *)
Record change_set : Type := {
  id : Z;
  effective : Z;
  notes : option string;
  last_modified : Z;
  entity_tag : string
}.

#[global] Instance change_set_eq_dec : EqDecision change_set.
Proof. solve_decision. Defined.

(** The tuple [NEW] of an [INSERT], before the trigger has run and before the
    [NOT NULL] constraints are checked. A column the statement does not name
    is [NULL]; for [new_id], [None] is the statement that does not name the
    column, which then takes its [SERIAL] default, and [Some i] the statement
    that gives the [INTEGER] [i]. A statement that gives [NULL] for the id
    is not among those embedded, and the ids are taken from [Z]: where a
    property depends on it, [integer] says that an id is of the type. *)
Record new_change_set : Type := {
  new_id : option Z;
  new_effective : option Z;
  new_notes : option string;
  new_last_modified : option Z;
  new_entity_tag : option string
}.

Record table : Type := {
  rdf_change_set : list change_set;
  (* the value the next [nextval('rdf_change_set_id_seq')] returns *)
  rdf_change_set_id_seq : Z
}.

(** pgcrypto's [gen_random_bytes(count)]: [count] bytes drawn from the
    generator, which is the argument [entropy]. *)
Definition gen_random_bytes (count : nat) (entropy : nat → byte) : list byte :=
  entropy <$> seq 0 count.

Definition hex_digit (n : N) : ascii :=
  if (n <? 10)%N then ascii_of_N (48 + n) else ascii_of_N (87 + n).

(** [encode(bytes, 'hex')]: two lower-case hexadecimal digits per byte. *)
Definition encode_hex (bytes : list byte) : string :=
  foldr (λ b acc, String (hex_digit (Byte.to_N b / 16))
                    (String (hex_digit (Byte.to_N b mod 16)) acc))
        EmptyString bytes.

(** The trigger function: [NEW.last_modified := now(); NEW.entity_tag :=
    encode(gen_random_bytes(10), 'hex'); RETURN NEW]. *)
Definition rdf_on_new_change_set (now : Z) (entropy : nat → byte) (NEW : new_change_set)
  : new_change_set :=
  {| new_id := new_id NEW;
     new_effective := new_effective NEW;
     new_notes := new_notes NEW;
     new_last_modified := Some now;
     new_entity_tag := Some (encode_hex (gen_random_bytes 10 entropy)) |}.

(** [INSERT INTO rdf_change_set]: the [SERIAL] default, then the [BEFORE
    INSERT] trigger, then the [NOT NULL] constraints and the primary key. *)
Definition insert_change_set (now : Z) (entropy : nat → byte) (values : new_change_set)
    (tbl : table) : outcome table :=
  let '(row_id, next) :=
    match new_id values with
    | Some i => (i, rdf_change_set_id_seq tbl)
    | None => (rdf_change_set_id_seq tbl, rdf_change_set_id_seq tbl + 1)
    end in
  let NEW := rdf_on_new_change_set now entropy values in
  match new_effective NEW, new_last_modified NEW, new_entity_tag NEW with
  | None, _, _ => Raise (not_null_violation "effective")
  | _, None, _ => Raise (not_null_violation "last_modified")
  | _, _, None => Raise (not_null_violation "entity_tag")
  | Some e, Some m, Some t =>
      if bool_decide (row_id ∈ id <$> rdf_change_set tbl)
      then Raise (unique_violation "rdf_change_set_pkey")
      else Commit {| rdf_change_set :=
                       rdf_change_set tbl
                       ++ [ {| id := row_id; effective := e; notes := new_notes NEW;
                               last_modified := m; entity_tag := t |} ];
                     rdf_change_set_id_seq := next |}
  end.

(** A series of inserts, each at its own time and with its own random bytes. *)
Fixpoint insert_all (inserts : list (Z * (nat → byte) * new_change_set)) (tbl : table)
  : outcome table :=
  match inserts with
  | [] => Commit tbl
  | (now, entropy, values) :: rest =>
      outcome_bind (insert_change_set now entropy values tbl) (insert_all rest)
  end.

(** The change set as the framework hands it to its callers. *)
Record ChangeSet : Type := {
  cs_id : Z;
  cs_effective : Z;
  cs_notes : option string;
  lastModified : Z;
  entityTag : string
}.

Definition toChangeSet (row : change_set) : ChangeSet :=
  {| cs_id := id row;
     cs_effective := effective row;
     cs_notes := notes row;
     lastModified := last_modified row;
     entityTag := entity_tag row |}.

(** Modelled from the spec: [getChangeSet] belongs to the framework's index
    module, which is not among the sources; by section 4.4 it returns the
    change set with the given id, or none. *)
Definition getChangeSet (p_id : Z) (tbl : table) : option ChangeSet :=
  toChangeSet <$> find (λ row, bool_decide (id row = p_id)) (rdf_change_set tbl).

(** The pattern [^[0-9a-f]{20}$]. *)
Definition lower_hex (c : ascii) : bool :=
  let n := N_of_ascii c in
  ((48 <=? n) && (n <=? 57) || (97 <=? n) && (n <=? 102))%N.

Fixpoint all_lower_hex (s : string) : bool :=
  match s with
  | EmptyString => true
  | String c s => lower_hex c && all_lower_hex s
  end.

Definition matches_entity_tag (s : string) : bool :=
  bool_decide (String.length s = 20%nat) && all_lower_hex s.

(** Every stored entity tag matches the pattern. *)
Definition tags_match (tbl : table) : Prop :=
  Forall (λ row, matches_entity_tag (entity_tag row) = true) (rdf_change_set tbl).

(** *** A scenario: the insert of the schema test *)

Definition no_change_sets : table :=
  {| rdf_change_set := []; rdf_change_set_id_seq := 1 |}.

(** [INSERT INTO rdf_change_set (id, effective, notes) VALUES (1,
    '2020-04-05T00:00:00.000Z', 'Countries')], the date being 1586044800
    seconds after the epoch. *)
Definition countries : new_change_set :=
  {| new_id := Some 1; new_effective := Some 1586044800; new_notes := Some "Countries";
     new_last_modified := None; new_entity_tag := None |}.

Definition some_bytes (i : nat) : byte :=
  match i with
  | O => x00 | 1%nat => x9f | 2%nat => xa0 | 3%nat => xff | 4%nat => x3c
  | _ => x7e
  end.

(** Ten bytes that differ from [some_bytes] in the last one only. *)
Definition other_bytes (i : nat) : byte :=
  match i with
  | 9%nat => x7f
  | _ => some_bytes i
  end.

Definition countries_inserted : table :=
  {| rdf_change_set :=
       [ {| id := 1; effective := 1586044800; notes := Some "Countries";
            last_modified := 1700000000; entity_tag := "009fa0ff3c7e7e7e7e7e" |} ];
     rdf_change_set_id_seq := 1 |}.

End ChangeSet.

(** ** The query API: projections and change logs *)

Module Query.
Import ChangeSet.

(** [action] of a data frame. *)
Inductive action : Type := POST | DELETE.

#[global] Instance action_eq_dec : EqDecision action.
Proof. solve_decision. Defined.

(** Modelled from the spec: the tables of projections, entities, their
    dependencies and data frames are created by migrations that are not among
    the sources; the columns are those of section 3 and of the [INSERT]
    statements of the API test suite. *)
Module data_frame.
Record t : Type := { id : Z; change_set_id : Z; entity_id : Z; action : action }.
End data_frame.

#[global] Instance data_frame_eq_dec : EqDecision data_frame.t.
Proof. solve_decision. Defined.

Record store : Type := {
  rdf_projection : list Notification.projection.t;
  rdf_entity : list Notification.entity.t;
  rdf_projection_entity : list Notification.projection_entity.t;
  rdf_change_set : list change_set;
  rdf_data_frame : list data_frame.t
}.

(** The order on (name, version): names compared as byte strings. *)
Definition name_version_le (p q : Notification.projection.t) : Prop :=
  String.ltb (Notification.projection.name p) (Notification.projection.name q) = true
  ∨ (Notification.projection.name p = Notification.projection.name q
     ∧ Notification.projection.version p ≤ Notification.projection.version q).

#[global] Instance name_version_le_dec p q : Decision (name_version_le p q).
Proof. unfold name_version_le. apply _. Defined.

(** Modelled from the spec: [getProjections] belongs to the framework's index
    module, which is not among the sources. By section 4.4 it returns the
    list of all projections ordered by (name, version). The test 'should list
    projections' of the API suite, written against the [rdf] interface,
    expects the three rows of its table in the order of their ids, which is
    not this order; the definition follows the words of the spec. *)
Definition getProjections (s : store) : list Notification.projection.t :=
  merge_sort name_version_le (rdf_projection s).

(** The data frames of the entities a projection depends on, joined with
    their change sets: one row per frame. *)
Definition change_log_rows (p_projection_id : Z) (s : store) : list change_set :=
  pe ← rdf_projection_entity s;
  f ← rdf_data_frame s;
  c ← rdf_change_set s;
  if bool_decide (Notification.projection_entity.projection_id pe = p_projection_id)
     && bool_decide (data_frame.entity_id f = Notification.projection_entity.entity_id pe)
     && bool_decide (id c = data_frame.change_set_id f)
  then [c] else [].

(** Keep the first row of every change-set id. *)
Fixpoint distinct_on_id (seen : list Z) (rows : list change_set) : list change_set :=
  match rows with
  | [] => []
  | c :: rows =>
      if bool_decide (id c ∈ seen) then distinct_on_id seen rows
      else c :: distinct_on_id (id c :: seen) rows
  end.

(** [ORDER BY effective ASC, id ASC] *)
Definition effective_id_le (c1 c2 : change_set) : Prop :=
  effective c1 < effective c2 ∨ (effective c1 = effective c2 ∧ id c1 ≤ id c2).

#[global] Instance effective_id_le_dec c1 c2 : Decision (effective_id_le c1 c2).
Proof. unfold effective_id_le. apply _. Defined.

(** Modelled from the spec: [getChangeLog] belongs to the framework's index
    module, which is not among the sources. By section 4.4 it returns all
    change sets that contain at least one data frame for any entity the
    projection depends on, in (effective ASC, id ASC) order, de-duplicated by
    change-set id. *)
Definition getChangeLog (projection : Notification.projection.t) (s : store) : list ChangeSet :=
  toChangeSet <$>
    merge_sort effective_id_le
      (distinct_on_id [] (change_log_rows (Notification.projection.id projection) s)).

(** The order of two consecutive entries of a change log. *)
Definition before (c1 c2 : ChangeSet) : Prop :=
  cs_effective c1 < cs_effective c2
  ∨ (cs_effective c1 = cs_effective c2 ∧ cs_id c1 < cs_id c2).

(** A change set has a data frame for an entity the projection depends on. *)
Definition has_frame_for (p_projection_id : Z) (s : store) (c : change_set) : Prop :=
  ∃ pe f, pe ∈ rdf_projection_entity s ∧ f ∈ rdf_data_frame s
    ∧ Notification.projection_entity.projection_id pe = p_projection_id
    ∧ data_frame.entity_id f = Notification.projection_entity.entity_id pe
    ∧ data_frame.change_set_id f = id c.

(** *** The tables of the API test suite *)

Definition projection_row (i : Z) (n : string) (v : Z) : Notification.projection.t :=
  {| Notification.projection.id := i; Notification.projection.name := n;
     Notification.projection.version := v |}.

Definition entity_row (i : Z) (n : string) (v : Z) : Notification.entity.t :=
  {| Notification.entity.id := i; Notification.entity.name := n;
     Notification.entity.version := v |}.

Definition depends (p e : Z) : Notification.projection_entity.t :=
  {| Notification.projection_entity.projection_id := p;
     Notification.projection_entity.entity_id := e |}.

Definition change_set_row (i eff : Z) (n : string) : change_set :=
  {| id := i; effective := eff; notes := Some n; last_modified := 1700000000;
     entity_tag := "009fa0ff3c7e7e7e7e7e" |}.

Definition frame (i c e : Z) (a : action) : data_frame.t :=
  {| data_frame.id := i; data_frame.change_set_id := c; data_frame.entity_id := e;
     data_frame.action := a |}.

(** 'should list projections' *)
Definition listed_projections : store :=
  {| rdf_projection := [ projection_row 1 "VAT Rates" 1; projection_row 2 "VAT Rates" 2;
                         projection_row 3 "CGT Rates" 1 ];
     rdf_entity := []; rdf_projection_entity := []; rdf_change_set := [];
     rdf_data_frame := [] |}.

(** 'should list change sets for the given projection'; 2020-04-05 and
    2021-04-05 are 1586044800 and 1617580800 seconds after the epoch. *)
Definition listed_change_sets : store :=
  {| rdf_projection := [ projection_row 1 "VAT Rates" 1; projection_row 2 "CGT Rates" 1 ];
     rdf_entity := [ entity_row 1 "Country" 1; entity_row 2 "VAT Rate" 1;
                     entity_row 3 "CGT Rate" 1 ];
     rdf_projection_entity := [ depends 1 1; depends 1 2; depends 2 1; depends 2 3 ];
     rdf_change_set := [ change_set_row 1 1586044800 "Countries";
                         change_set_row 2 1586044800 "2020 VAT Rates";
                         change_set_row 3 1586044800 "2020 CGT Rates";
                         change_set_row 4 1617580800 "2021 VAT Rates";
                         change_set_row 5 1617580800 "2021 CGT Rates" ];
     rdf_data_frame := [ frame 1 1 1 POST; frame 2 2 2 POST; frame 3 3 3 POST;
                         frame 4 4 2 POST; frame 5 5 3 POST ] |}.

(** 'should dedupe change sets' *)
Definition one_change_set_many_frames : store :=
  {| rdf_projection := [ projection_row 1 "VAT Rates" 1 ];
     rdf_entity := [ entity_row 1 "Country" 1; entity_row 2 "VAT Rate" 1 ];
     rdf_projection_entity := [ depends 1 1; depends 1 2 ];
     rdf_change_set := [ change_set_row 1 1586044800 "Everything" ];
     rdf_data_frame := [ frame 1 1 1 POST; frame 2 1 2 POST; frame 3 1 2 POST ] |}.

End Query.

(** ** Entity aggregates *)

Module Aggregate.
Import ChangeSet Query.

(** An entity of a [define entities] instruction: its row in the entity
    table, its fields (name and column type) and its identifier fields. *)
Record entity_definition : Type := {
  entity_id : Z;
  entity_name : string;
  entity_version : Z;
  fields : list (string * string);
  identified_by : list string
}.

(** A row of the side table of an entity: the data frame it belongs to and
    the values of its columns, a [NULL] column being absent. *)
Record side_row (value : Type) : Type := {
  rdf_frame_id : Z;
  columns : gmap string value
}.
Arguments rdf_frame_id {value} _.
Arguments columns {value} _.

(** A data frame of the history of an entity, with the change set it belongs
    to and its payload split into identifier tuple and other fields. *)
Record entry (value : Type) : Type := {
  entry_effective : Z;
  entry_change_set : Z;
  entry_frame : Z;
  entry_action : action;
  identifier : list (option value);
  payload : gmap string value
}.
Arguments entry_effective {value} _.
Arguments entry_change_set {value} _.
Arguments entry_frame {value} _.
Arguments entry_action {value} _.
Arguments identifier {value} _.
Arguments payload {value} _.

Section aggregate.
Context {value : Type} `{Countable value}.

Definition identifier_of (E : entity_definition) (r : side_row value) : list (option value) :=
  (λ f, columns r !! f) <$> identified_by E.

Definition non_identifier_fields (E : entity_definition) (r : side_row value)
  : gmap string value :=
  filter (λ kv, kv.1 ∉ identified_by E) (columns r).

(** Frames are ordered by the (effective, id) of their change set, and by
    their own id within a change set. *)
Definition entry_le (e1 e2 : entry value) : Prop :=
  entry_effective e1 < entry_effective e2
  ∨ (entry_effective e1 = entry_effective e2
     ∧ (entry_change_set e1 < entry_change_set e2
        ∨ (entry_change_set e1 = entry_change_set e2 ∧ entry_frame e1 ≤ entry_frame e2))).

#[global] Instance entry_le_dec e1 e2 : Decision (entry_le e1 e2).
Proof. unfold entry_le. apply _. Defined.

(** The frames of entity [E] in the change sets up to [C], unordered. *)
Definition frames_upto (E : entity_definition) (side : list (side_row value))
    (C : change_set) (s : store) : list (entry value) :=
  c ← rdf_change_set s;
  f ← rdf_data_frame s;
  r ← side;
  if bool_decide (data_frame.change_set_id f = id c)
     && bool_decide (data_frame.entity_id f = entity_id E)
     && bool_decide (rdf_frame_id r = data_frame.id f)
     && bool_decide (effective_id_le c C)
  then [ {| entry_effective := effective c;
            entry_change_set := id c;
            entry_frame := data_frame.id f;
            entry_action := data_frame.action f;
            identifier := identifier_of E r;
            payload := non_identifier_fields E r |} ]
  else [].

(** Modelled from the spec: the frames the aggregate of [p_change_set_id] is
    computed from (section 4.1), those of the change sets up to the given one
    in (effective, id) order; a change set that does not exist has no
    history. *)
Definition history (E : entity_definition) (side : list (side_row value))
    (p_change_set_id : Z) (s : store) : list (entry value) :=
  match find (λ c, bool_decide (id c = p_change_set_id)) (rdf_change_set s) with
  | Some C => merge_sort entry_le (frames_upto E side C s)
  | None => []
  end.

Definition last_frame (k : list (option value)) (h : list (entry value))
  : option (entry value) :=
  last (filter (λ e, identifier e = k) h).

(** Modelled from the spec: the functions [get_<entity>_v<version>_aggregate]
    are generated by the document compiler, which is not among the sources.
    This is the algorithm of section 4.1: for each identifier tuple, pick the
    last frame in the order of the history; if its action is DELETE, omit the
    tuple; otherwise emit its non-identifier fields. *)
Definition get_aggregate (E : entity_definition) (side : list (side_row value))
    (p_change_set_id : Z) (s : store) : list (list (option value) * gmap string value) :=
  let h := history E side p_change_set_id s in
  omap (λ k, e ← last_frame k h;
             match entry_action e with
             | POST => Some (k, payload e)
             | DELETE => None
             end)
       (remove_dups (identifier <$> h)).

(** Modelled from the spec: the fold of section 8, which replays the history
    in order, keyed by the identifier tuple, POST storing the non-identifier
    fields and DELETE removing the tuple. *)
Definition replay (m : gmap (list (option value)) (gmap string value)) (e : entry value)
  : gmap (list (option value)) (gmap string value) :=
  match entry_action e with
  | POST => <[identifier e := payload e]> m
  | DELETE => delete (identifier e) m
  end.

Definition fold_history (E : entity_definition) (side : list (side_row value))
    (p_change_set_id : Z) (s : store) : gmap (list (option value)) (gmap string value) :=
  foldl replay ∅ (history E side p_change_set_id s).

End aggregate.

(** *** The VAT rates of the aggregate tests *)

Definition vat_rate_v1 : entity_definition :=
  {| entity_id := 1; entity_name := "VAT Rate"; entity_version := 1;
     fields := [("type", "TEXT"); ("rate", "NUMERIC")];
     identified_by := ["type"] |}.

Definition vat (frame : Z) (type : string) (rate : option string) : side_row string :=
  {| rdf_frame_id := frame;
     columns := match rate with
                | Some r => {[ "type" := type; "rate" := r ]}
                | None => {[ "type" := type ]}
                end |}.

(** 'should exclude aggregates where the most recent frame was a delete';
    2020-04-05, 2021-04-05 and 2022-04-05 are 1586044800, 1617580800 and
    1649116800 seconds after the epoch. *)
Definition vat_rates : store :=
  {| rdf_projection := [];
     rdf_entity := [ entity_row 1 "VAT Rate" 1 ];
     rdf_projection_entity := [];
     rdf_change_set := [ change_set_row 1 1586044800 "2020 VAT Rates";
                         change_set_row 2 1617580800 "2021 VAT Rates";
                         change_set_row 3 1649116800 "2022 VAT Rates" ];
     rdf_data_frame := [ frame 1 1 1 POST; frame 2 1 1 POST; frame 3 1 1 POST;
                         frame 4 2 1 POST; frame 5 2 1 POST; frame 6 2 1 POST;
                         frame 7 3 1 POST; frame 8 3 1 POST; frame 9 3 1 DELETE ] |}.

Definition vat_rate_rows : list (side_row string) :=
  [ vat 1 "standard" (Some "0.10"); vat 2 "reduced" (Some "0.05"); vat 3 "zero" (Some "0");
    vat 4 "standard" (Some "0.125"); vat 5 "reduced" (Some "0.7"); vat 6 "zero" (Some "0");
    vat 7 "standard" (Some "0.15"); vat 8 "reduced" (Some "0.10"); vat 9 "zero" None ].

(** The rows of a result, each as (identifier tuple, other fields). *)
Definition rate_of (type rate : string) : list (option string) * list (string * string) :=
  ([Some type], [("rate", rate)]).

Definition readable (rows : list (list (option string) * gmap string string))
  : list (list (option string) * list (string * string)) :=
  (λ kv, (kv.1, map_to_list kv.2)) <$> rows.

End Aggregate.

(** ** The document validator *)

Module Dsl.

(** A parsed YAML value; a scalar is kept as its text. *)
#[local] Unset Elimination Schemes.
Inductive yaml : Type :=
  | Null
  | Scalar (text : string)
  | Seq (items : list yaml)
  | Map (entries : list (string * yaml)).
#[local] Set Elimination Schemes.

(** The four instructions of a document (section 4.3). *)
Inductive instruction : Type :=
  | define_entities
  | add_projections
  | add_change_set
  | add_hooks.

(** A document: its instructions, each with the list of its items. *)
Definition document : Type := list (instruction * list yaml).

(** The name of an instruction in error messages: its key with the spaces
    replaced by underscores. *)
Definition instruction_name (i : instruction) : string :=
  match i with
  | define_entities => "define_entities"
  | add_projections => "add_projections"
  | add_change_set => "add_change_set"
  | add_hooks => "add_hooks"
  end.

(** Keys are compared with their spaces replaced by underscores: [identified
    by] and [identified_by] are the same property. *)
Fixpoint underscored (s : string) : string :=
  match s with
  | EmptyString => EmptyString
  | String c s => String (if Ascii.eqb c " " then "_"%char else c) (underscored s)
  end.

Fixpoint property_of (key : string) (entries : list (string * yaml)) : option yaml :=
  match entries with
  | [] => None
  | (k, v) :: entries =>
      if bool_decide (underscored k = key) then Some v else property_of key entries
  end.

(** The properties of a value; only a mapping has any. *)
Definition entries_of (v : yaml) : list (string * yaml) :=
  match v with
  | Map entries => entries
  | _ => []
  end.

(** The structural grammar of the items of an instruction. *)
Inductive schema : Type :=
  | anything
  | one_of (allowed : list string)
  | array_of (items : schema)
  | object_with (required : list (string * string)) (dependent : list (string * string))
                (props : properties)
with properties : Type :=
  | no_more
  | property (key : string) (s : schema) (rest : properties).

Scheme schema_properties_ind := Induction for schema Sort Prop
  with properties_schema_ind := Induction for properties Sort Prop.

(** A required property, with the text that names it in the message. *)
Definition quoted (key : string) : string * string :=
  (key, "'" +:+ key +:+ "'").

Definition must_have (pointer shown : string) : string :=
  pointer +:+ " must have required property " +:+ shown.

Definition must_be_array (pointer : string) : string :=
  pointer +:+ " must be an array".

Fixpoint comma_separated (l : list string) : string :=
  match l with
  | [] => EmptyString
  | [x] => x
  | x :: l => x +:+ ", " +:+ comma_separated l
  end.

Definition must_be_one_of (pointer : string) (allowed : list string) : string :=
  pointer +:+ " must be equal to one of the allowed values: " +:+ comma_separated allowed.

Definition missing_required (pointer : string) (entries : list (string * yaml))
    (required : list (string * string)) : list string :=
  r ← required;
  if property_of r.1 entries is Some _ then [] else [must_have pointer r.2].

(** [(k, k')]: when property [k] is given, property [k'] is required. *)
Definition missing_dependent (pointer : string) (entries : list (string * yaml))
    (dependent : list (string * string)) : list string :=
  d ← dependent;
  match property_of d.1 entries, property_of d.2 entries with
  | Some _, None => [must_have pointer (quoted d.2).2]
  | _, _ => []
  end.

Definition child (pointer key : string) : string := pointer +:+ "/" +:+ key.

Fixpoint each_item (check : string → yaml → list string) (pointer : string) (i : nat)
    (items : list yaml) : list string :=
  match items with
  | [] => []
  | v :: items => check (child pointer (pretty i)) v ++ each_item check pointer (S i) items
  end.

(** Modelled from the spec: the validator of the document compiler is not
    among the sources. By section 4.3 a document is validated structurally
    before any SQL is emitted, for required properties, for arrays and for
    enumerated values. These are the messages of the violations of a schema by
    a value, in document order. *)
Fixpoint validate (s : schema) (pointer : string) (v : yaml) : list string :=
  match s with
  | anything => []
  | one_of allowed =>
      match v with
      | Scalar text =>
          if bool_decide (text ∈ allowed) then [] else [must_be_one_of pointer allowed]
      | _ => [must_be_one_of pointer allowed]
      end
  | array_of items =>
      match v with
      | Seq vs => each_item (validate items) pointer 0 vs
      | _ => [must_be_array pointer]
      end
  | object_with required dependent props =>
      missing_required pointer (entries_of v) required
      ++ missing_dependent pointer (entries_of v) dependent
      ++ validate_properties props pointer (entries_of v)
  end
with validate_properties (props : properties) (pointer : string)
    (entries : list (string * yaml)) : list string :=
  match props with
  | no_more => []
  | property key s rest =>
      match property_of key entries with
      | Some v => validate s (child pointer key) v
      | None => []
      end
      ++ validate_properties rest pointer entries
  end.

(** Modelled from the spec: the schema of the document compiler is not among
    the sources. The grammar is that of section 4.3: the properties of the
    items of each instruction, the arrays among them and the values of
    [action]; the wording of the messages is the one the DSL test suite
    matches. *)
Definition entity_schema : schema :=
  object_with
    [ quoted "name"; quoted "version"; quoted "fields";
      ("identified_by", "'identified by' or 'identified_by'") ]
    []
    (property "fields"
       (array_of (object_with [quoted "name"; quoted "type"] [] no_more))
       (property "identified_by" (array_of anything) no_more)).

Definition projection_schema : schema :=
  object_with
    [ quoted "name"; quoted "version"; quoted "dependencies" ]
    []
    (property "dependencies"
       (array_of (object_with [quoted "entity"; quoted "version"] [] no_more))
       no_more).

Definition frame_schema : schema :=
  object_with
    [ quoted "entity"; quoted "version"; quoted "action"; quoted "data" ]
    []
    (property "action" (one_of ["POST"; "DELETE"])
       (property "data" (array_of anything) no_more)).

Definition change_set_schema : schema :=
  object_with
    [ quoted "effective"; quoted "frames" ]
    []
    (property "frames" (array_of frame_schema) no_more).

Definition hook_schema : schema :=
  object_with
    [ quoted "event" ]
    [ ("version", "projection"); ("projection", "version") ]
    no_more.

Definition schema_of (i : instruction) : schema :=
  match i with
  | define_entities => entity_schema
  | add_projections => projection_schema
  | add_change_set => change_set_schema
  | add_hooks => hook_schema
  end.

Definition validate_instruction (step : instruction * list yaml) : list string :=
  each_item (validate (schema_of step.1)) ("/" +:+ instruction_name step.1) 0 step.2.

Definition validate_document (doc : document) : list string :=
  doc ≫= validate_instruction.

(** The form [/<instruction>/<index>[/path] must ...] of a message. *)
Definition well_formed (message : string) : Prop :=
  ∃ (i : instruction) (index : nat) (path rest : string),
    message = "/" +:+ instruction_name i +:+ "/" +:+ pretty index +:+ path
              +:+ " must " +:+ rest
    ∧ (path = EmptyString ∨ ∃ p, path = "/" +:+ p).

(** *** Applying a document *)

Inductive applied : Type :=
  | Migrated
  | ValidationError (messages : list string)
  | DatabaseError (e : pg_error).

Section apply.
(** Modelled from the spec: the SQL a valid document compiles to and the
    database that executes it are not among the sources; they are the
    parameters [emit] and [execute]. By section 4.3 the document is validated
    before any SQL is emitted, and the file applies in one transaction. *)
Context {statement database : Type}.
Context (emit : instruction → yaml → list statement).
Context (execute : statement → database → outcome database).

Definition emit_document (doc : document) : list statement :=
  step ← doc; item ← step.2; emit step.1 item.

Definition compile (doc : document) : list string + list statement :=
  match validate_document doc with
  | [] => inr (emit_document doc)
  | messages => inl messages
  end.

Fixpoint execute_all (statements : list statement) (db : database) : outcome database :=
  match statements with
  | [] => Commit db
  | st :: statements => outcome_bind (execute st db) (execute_all statements)
  end.

(** The outcome of the migration and the database it leaves. *)
Definition apply_document (doc : document) (db : database) : applied * database :=
  match compile doc with
  | inl messages => (ValidationError messages, db)
  | inr statements =>
      match execute_all statements db with
      | Commit db' => (Migrated, db')
      | Raise e => (DatabaseError e, db)
      end
  end.

End apply.

(** The properties a schema describes. *)
Inductive has_property : properties → string → schema → Prop :=
  | property_here key s rest : has_property (property key s rest) key s
  | property_later key' s' rest key s :
      has_property rest key s → has_property (property key' s' rest) key s.

(** A violation of a schema by a value, with its message: a required
    property that is missing, a value that is not an array where the schema
    has one, a value that is not among the allowed ones, or a violation
    further down in an item or a property. *)
Inductive violation : schema → string → yaml → string → Prop :=
  | required_missing required dependent props pointer v key shown :
      (key, shown) ∈ required →
      property_of key (entries_of v) = None →
      violation (object_with required dependent props) pointer v (must_have pointer shown)
  | dependent_missing required dependent props pointer v key key' :
      (key, key') ∈ dependent →
      is_Some (property_of key (entries_of v)) →
      property_of key' (entries_of v) = None →
      violation (object_with required dependent props) pointer v
        (must_have pointer (quoted key').2)
  | not_an_array items pointer v :
      (∀ vs, v ≠ Seq vs) →
      violation (array_of items) pointer v (must_be_array pointer)
  | not_allowed allowed pointer v :
      (∀ text, v = Scalar text → text ∉ allowed) →
      violation (one_of allowed) pointer v (must_be_one_of pointer allowed)
  | in_item items pointer vs i v message :
      vs !! i = Some v →
      violation items (child pointer (pretty i)) v message →
      violation (array_of items) pointer (Seq vs) message
  | in_property required dependent props pointer v key s x message :
      has_property props key s →
      property_of key (entries_of v) = Some x →
      violation s (child pointer key) x message →
      violation (object_with required dependent props) pointer v message.

(** The pointer of item [index] of an instruction. *)
Definition item_pointer (i : instruction) (index : nat) : string :=
  child ("/" +:+ instruction_name i) (pretty index).

(** *** The documents of the DSL test suite *)

Definition field (key text : string) : string * yaml := (key, Scalar text).

Definition standard_rate : yaml :=
  Seq [ Map [ field "type" "standard"; field "rate" "0.10" ] ].

Definition vat_rate_dependency : yaml :=
  Seq [ Map [ field "entity" "VAT Rate"; field "version" "1" ] ].

Definition type_field : yaml :=
  Seq [ Map [ field "name" "type"; field "type" "TEXT" ] ].

Definition one_change_set (entries : list (string * yaml)) : document :=
  [ (add_change_set, [ Map entries ]) ].

Definition one_frame (entries : list (string * yaml)) : document :=
  one_change_set [ field "effective" "2020-04-05T00:00:00.000Z";
                   ("frames", Seq [ Map entries ]) ].

(** The rejected documents of the suite, each with the message the test
    matches. *)
Definition rejected_change_sets : list (document * string) :=
  [ ([ (add_change_set,
        [ Map [ ("frames", Null) ];
          Map [ field "entity" "VAT Rate"; field "version" "1"; field "action" "POST";
                ("data", standard_rate) ] ]) ],
     "/add_change_set/0 must have required property 'effective'");
    (one_change_set [ field "effective" "2020-04-05T00:00:00.000Z" ],
     "/add_change_set/0 must have required property 'frames'");
    (one_change_set [ field "effective" "2020-04-05T00:00:00.000Z"; ("frames", Null) ],
     "/add_change_set/0/frames must be an array");
    (one_frame [ field "version" "1"; field "action" "POST"; ("data", standard_rate) ],
     "/add_change_set/0/frames/0 must have required property 'entity'");
    (one_frame [ field "entity" "VAT Rate"; field "action" "POST"; ("data", standard_rate) ],
     "/add_change_set/0/frames/0 must have required property 'version'");
    (one_frame [ field "entity" "VAT Rate"; field "version" "1"; ("data", standard_rate) ],
     "/add_change_set/0/frames/0 must have required property 'action'");
    (one_frame [ field "entity" "VAT Rate"; field "version" "1"; field "action" "MEH";
                 ("data", standard_rate) ],
     "/add_change_set/0/frames/0/action must be equal to one of the allowed values: POST, DELETE");
    (one_frame [ field "entity" "VAT Rate"; field "version" "1"; field "action" "POST" ],
     "/add_change_set/0/frames/0 must have required property 'data'");
    (one_frame [ field "entity" "VAT Rate"; field "version" "1"; field "action" "POST";
                 ("data", Null) ],
     "/add_change_set/0/frames/0/data must be an array") ].

Definition one_projection (entries : list (string * yaml)) : document :=
  [ (add_projections, [ Map entries ]) ].

Definition rejected_projections : list (document * string) :=
  [ (one_projection [ field "version" "1"; ("dependencies", vat_rate_dependency) ],
     "/add_projections/0 must have required property 'name'");
    (one_projection [ field "name" "VAT Rates"; ("dependencies", vat_rate_dependency) ],
     "/add_projections/0 must have required property 'version'");
    (one_projection [ field "name" "VAT Rates"; field "version" "1" ],
     "/add_projections/0 must have required property 'dependencies'");
    (one_projection [ field "name" "VAT Rates"; field "version" "1"; ("dependencies", Null) ],
     "/add_projections/0/dependencies must be an array");
    (one_projection [ field "name" "VAT Rates"; field "version" "1";
                      ("dependencies", Seq [ Map [ field "version" "1" ] ]) ],
     "/add_projections/0/dependencies/0 must have required property 'entity'");
    (one_projection [ field "name" "VAT Rates"; field "version" "1";
                      ("dependencies", Seq [ Map [ field "entity" "VAT Rate" ] ]) ],
     "/add_projections/0/dependencies/0 must have required property 'version'") ].

Definition one_entity (entries : list (string * yaml)) : document :=
  [ (define_entities, [ Map entries ]) ].

Definition identified_by_type : string * yaml :=
  ("identified by", Seq [ Scalar "type" ]).

Definition rejected_entities : list (document * string) :=
  [ (one_entity [ field "version" "1"; ("fields", type_field); identified_by_type ],
     "/define_entities/0 must have required property 'name'");
    (one_entity [ field "name" "VAT Rate"; ("fields", type_field); identified_by_type ],
     "/define_entities/0 must have required property 'version'");
    (one_entity [ field "name" "VAT Rate"; field "version" "1" ],
     "/define_entities/0 must have required property 'fields'");
    (one_entity [ field "name" "VAT Rate"; field "version" "1"; ("fields", Null);
                  identified_by_type ],
     "/define_entities/0/fields must be an array");
    (one_entity [ field "name" "VAT Rate"; field "version" "1";
                  ("fields", Seq [ Map [ field "type" "TEXT" ] ]); identified_by_type ],
     "/define_entities/0/fields/0 must have required property 'name'");
    (one_entity [ field "name" "VAT Rate"; field "version" "1";
                  ("fields", Seq [ Map [ field "name" "type" ] ]); identified_by_type ],
     "/define_entities/0/fields/0 must have required property 'type'");
    (one_entity [ field "name" "VAT Rate"; field "version" "1"; ("fields", type_field) ],
     "/define_entities/0 must have required property 'identified by' or 'identified_by'");
    (one_entity [ field "name" "VAT Rate"; field "version" "1"; ("fields", type_field);
                  ("identified by", Null) ],
     "/define_entities/0/identified_by must be an array") ].

Definition one_hook (entries : list (string * yaml)) : document :=
  [ (add_hooks, [ Map entries ]) ].

Definition rejected_hooks : list (document * string) :=
  [ (one_hook [ field "version" "1"; field "event" "VAT Rates Change" ],
     "/add_hooks/0 must have required property 'projection'");
    (one_hook [ field "projection" "VAT Rates"; field "event" "VAT Rates Change" ],
     "/add_hooks/0 must have required property 'version'");
    (one_hook [ field "projection" "VAT Rate"; field "version" "1" ],
     "/add_hooks/0 must have required property 'event'") ].

(** 'should add hooks': a document the suite applies. *)
Definition vat_rates_with_hooks : document :=
  [ (define_entities,
      [ Map [ field "name" "VAT Rate"; field "version" "1";
              ("fields", Seq [ Map [ field "name" "type"; field "type" "TEXT" ];
                               Map [ field "name" "rate"; field "type" "NUMERIC" ] ]);
              identified_by_type ] ]);
    (add_projections,
      [ Map [ field "name" "VAT Rates"; field "version" "1";
              ("dependencies", vat_rate_dependency) ] ]);
    (add_hooks,
      [ Map [ field "projection" "VAT Rates"; field "version" "1";
              field "event" "VAT Rates Change" ];
        Map [ field "event" "Any Change" ] ]) ].

(** A change set with one POST and one DELETE frame. *)
Definition vat_rates_change_set : document :=
  one_change_set
    [ field "notes" "2022 VAT Rates"; field "effective" "2022-04-05T00:00:00.000Z";
      ("frames",
        Seq [ Map [ field "entity" "VAT Rate"; field "version" "1"; field "action" "POST";
                    ("data", standard_rate) ];
              Map [ field "entity" "VAT Rate"; field "version" "1";
                    field "action" "DELETE";
                    ("data", Seq [ Map [ field "type" "zero" ] ]) ] ]) ].

(** The message a rejected document of the suite must show is among the
    messages of its validation. *)
Definition shows (test : document * string) : bool :=
  bool_decide (test.2 ∈ validate_document test.1).

End Dsl.

(** ** Deleting hooks and projections *)

Module Cascade.
Import Notification.

(** [DELETE FROM fby_hook WHERE ...]. The notifications of a deleted hook go
    with it: [hook_id INTEGER REFERENCES fby_hook (id) ON DELETE CASCADE]. *)
Definition delete_hooks (doomed : hook.t → bool) (db : database) : database :=
  let deleted := hook.id <$> filter (λ h, doomed h = true) (fby_hook db) in
  {| fby_projection := fby_projection db;
     fby_entity := fby_entity db;
     fby_projection_entity := fby_projection_entity db;
     fby_hook := filter (λ h, doomed h ≠ true) (fby_hook db);
     fby_notification := filter (λ n, hook_id n ∉ deleted) (fby_notification db);
     fby_notification_id_seq := fby_notification_id_seq db |}.

(** A hook bound to one of the given projections. *)
Definition bound_to (projections : list Z) (h : hook.t) : Prop :=
  match hook.projection_id h with
  | Some p => p ∈ projections
  | None => False
  end.

#[global] Instance bound_to_dec projections h : Decision (bound_to projections h).
Proof. unfold bound_to. destruct (hook.projection_id h); apply _. Defined.

(** [DELETE FROM fby_projection WHERE ...]. The notifications of a deleted
    projection go with it: [projection_id INTEGER REFERENCES fby_projection
    (id) ON DELETE CASCADE]. Modelled from the spec: the foreign keys of
    [fby_hook] and [fby_projection_entity] are declared by migrations that
    are not among the sources; by section 3 deleting a projection cascades to
    its hooks and dereferences its dependencies, and the notifications of
    those hooks go with them. *)
Definition delete_projections (doomed : projection.t → bool) (db : database) : database :=
  let deleted := projection.id <$> filter (λ p, doomed p = true) (fby_projection db) in
  let deleted_hooks := hook.id <$> filter (bound_to deleted) (fby_hook db) in
  {| fby_projection := filter (λ p, doomed p ≠ true) (fby_projection db);
     fby_entity := fby_entity db;
     fby_projection_entity :=
       filter (λ pe, projection_entity.projection_id pe ∉ deleted) (fby_projection_entity db);
     fby_hook := filter (λ h, ¬ bound_to deleted h) (fby_hook db);
     fby_notification :=
       filter (λ n, (projection_id n ∉ deleted) ∧ (hook_id n ∉ deleted_hooks))
              (fby_notification db);
     fby_notification_id_seq := fby_notification_id_seq db |}.



End Cascade.

(** ** The park routes of the example application *)

Module Park.

(** A row of [SELECT code, name, season_type, season_start, season_end FROM
    get_park_v1($1)]. *)
Record row : Type := {
  code : string;
  name : string;
  season_type : string;
  season_start : string;
  season_end : string
}.

(** [{ type, start, end }] *)
Record season : Type := {
  type : string;
  start : string;
  end_ : string
}.

(** [{ code, name, seasons }] *)
Record park : Type := {
  park_code : string;
  park_name : string;
  seasons : list season
}.

#[global] Instance season_eq_dec : EqDecision season.
Proof. solve_decision. Defined.

#[global] Instance park_eq_dec : EqDecision park.
Proof. solve_decision. Defined.

(** A [Map<string, park>]: its entries in insertion order, one per key. *)
Definition dictionary : Type := list (string * park).

(** [dictionary.get(code)] *)
Fixpoint get (key : string) (d : dictionary) : option park :=
  match d with
  | [] => None
  | (k, v) :: d => if bool_decide (k = key) then Some v else get key d
  end.

(** [dictionary.set(code, park)]: the entry of a key that is present takes
    the value where it stands, a new key goes to the end. *)
Fixpoint set (key : string) (v : park) (d : dictionary) : dictionary :=
  match d with
  | [] => [(key, v)]
  | (k, v') :: d => if bool_decide (k = key) then (k, v) :: d else (k, v') :: set key v d
  end.

Definition season_of (r : row) : season :=
  {| type := season_type r; start := season_start r; end_ := season_end r |}.

(** [park.seasons.push({ type, start, end })] *)
Definition push (s : season) (p : park) : park :=
  {| park_code := park_code p; park_name := park_name p; seasons := seasons p ++ [s] |}.

(** [toParkDictionary]: [dictionary.get(code) || { code, name, seasons: [] }],
    the push of the season and [dictionary.set(code, park)]. *)
Definition toParkDictionary (d : dictionary) (r : row) : dictionary :=
  let park :=
    match get (code r) d with
    | Some park => park
    | None => {| park_code := code r; park_name := name r; seasons := [] |}
    end in
  set (code r) (push (season_of r) park) d.

(** [rows.reduce(toParkDictionary, new Map())] *)
Definition parkDictionary (rows : list row) : dictionary :=
  foldl toParkDictionary [] rows.

(** The codes of the rows, each at its first occurrence. *)
Fixpoint first_occurrences (seen : list string) (codes : list string) : list string :=
  match codes with
  | [] => []
  | c :: codes =>
      if bool_decide (c ∈ seen) then first_occurrences seen codes
      else c :: first_occurrences (c :: seen) codes
  end.

Inductive reply (B : Type) : Type :=
  | Redirect (status : Z) (location : string)
  | Send (headers : list (string * string)) (body : B)
  | Throw (status : Z) (message : string).
Arguments Redirect {B} status location.
Arguments Send {B} headers body.
Arguments Throw {B} status message.

Section routes.
(** What the routes are given: the values of a query string and the numbers
    of JavaScript, with [Number(...)] from the ones to the others and the
    string a template literal makes of a number ([toString]); the framework
    ([filby.getChangeSet], [filby.getCurrentChangeSet]), the projection they
    serve, the database function [get_park_v1], the upper-casing of SQL
    ([upper]) and of JavaScript ([toUpperCase]), and
    [Date.prototype.toUTCString]. The id of a change set that the framework
    returns is an [INTEGER] of the database, which a template literal prints
    in decimal. *)
Context {query number : Type}.
Context (Number : query → number).
Context (toString : number → string).
Context (getChangeSet : number → option ChangeSet.ChangeSet).
Context (getCurrentChangeSet : option ChangeSet.ChangeSet).
Context (projection : Notification.projection.t).
Context (get_park_v1 : Z → list row).
Context (upper toUpperCase : string → string).
Context (toUTCString : Z → string).

(** [getResponseHeaders] *)
Definition getResponseHeaders (changeSet : ChangeSet.ChangeSet) : list (string * string) :=
  [ ("Last-Modified", toUTCString (ChangeSet.lastModified changeSet));
    ("ETag", ChangeSet.entityTag changeSet);
    ("Cache-Control", "max-age=31536000, immutable");
    ("Connection", "close") ].

(** [redirectToCurrentChangeSet]; [path] is [uri.parse(request.url).path]. *)
Definition redirectToCurrentChangeSet {B : Type} (path : string) : reply B :=
  match getCurrentChangeSet with
  | None =>
      Throw 404 ("No current change set for projection: "
                 +:+ Notification.projection.name projection +:+ " "
                 +:+ pretty (Notification.projection.version projection))
  | Some changeSet =>
      Redirect 307 (path +:+ "?changeSetId=" +:+ pretty (ChangeSet.cs_id changeSet))
  end.

(** [getParks]: [Array.from(parkDictionary.values())] *)
Definition getParks (changeSet : ChangeSet.ChangeSet) : list park :=
  (parkDictionary (get_park_v1 (ChangeSet.cs_id changeSet))).*2.

(** [getPark]: the rows [WHERE code = upper($2)], and
    [parkDictionary.get(code)]. *)
Definition getPark (changeSet : ChangeSet.ChangeSet) (code' : string) : option park :=
  get code'
    (parkDictionary
       (filter (λ r, code r = upper code') (get_park_v1 (ChangeSet.cs_id changeSet)))).

(** [GET /]; [changeSetId] is [request.query.changeSetId], [None] when it
    is [undefined]. *)
Definition get_parks (path : string) (changeSetId : option query) : reply (list park) :=
  match changeSetId with
  | None => redirectToCurrentChangeSet path
  | Some changeSetId =>
      let changeSetId := Number changeSetId in
      match getChangeSet changeSetId with
      | None => Throw 400 ("Invalid changeSetId: " +:+ toString changeSetId)
      | Some changeSet => Send (getResponseHeaders changeSet) (getParks changeSet)
      end
  end.

(** [GET /code/:code]; [code'] is [request.params.code]. *)
Definition get_park (path : string) (changeSetId : option query) (code' : string)
  : reply park :=
  match changeSetId with
  | None => redirectToCurrentChangeSet path
  | Some changeSetId =>
      let code' := toUpperCase code' in
      let changeSetId := Number changeSetId in
      match getChangeSet changeSetId with
      | None => Throw 400 ("Invalid changeSetId: " +:+ toString changeSetId)
      | Some changeSet =>
          match getPark changeSet code' with
          | None => Throw 404 ("Park not found: " +:+ code')
          | Some park => Send (getResponseHeaders changeSet) park
          end
      end
  end.

End routes.

End Park.

(** *** More scenarios *)

Module QueueScenario.
Import Notification NotificationScenario.

(** The row of [failed_twice], and the queue after it has failed again. *)
Definition twice : notification :=
  row 1 1 1 50 (Some 2) PENDING (Some 40) (Some "subscriber threw").

Definition failed_thrice : database :=
  with_rows [ row 1 1 1 70 (Some 3) PENDING (Some 60) (Some "subscriber threw") ] 2.

(** A hook with an earlier success and a notification waiting. *)
Definition second_delivery : database :=
  with_rows [ row 1 1 1 50 (Some 1) OK (Some 50) None;
              row 2 1 1 60 (Some 0) PENDING None None ] 3.

(** A queue at time 60, with at most 3 attempts: the first row is due and
    locked by another worker, the second has used its attempts, the third
    is delivered, [waiting] is due, the last is scheduled for later. *)
Definition waiting : notification := row 5 4 1 58 (Some 2) PENDING (Some 57) None.

Definition contended_queue : database :=
  {| fby_projection := fby_projection empty_queue;
     fby_entity := fby_entity empty_queue;
     fby_projection_entity := fby_projection_entity empty_queue;
     fby_hook :=
       (λ i, {| hook.id := i; hook.name := "change"; hook.event := "VAT Rates Change";
                hook.projection_id := Some 1 |}) <$> [1; 2; 3; 4; 5];
     fby_notification :=
       [ row 1 1 1 50 (Some 0) PENDING None None;
         row 2 2 1 50 (Some 3) PENDING (Some 40) (Some "subscriber threw");
         row 3 3 1 55 (Some 1) OK (Some 45) None;
         waiting;
         row 6 5 1 90 (Some 0) PENDING None None ];
     fby_notification_id_seq := 7 |}.

Definition held_by_another_worker (i : Z) : bool := bool_decide (i = 1).

Definition is_any_hook (h : hook.t) : bool := bool_decide (hook.id h = 2).

Definition every_projection (p : projection.t) : bool := true.

End QueueScenario.

Module ChangeSetScenario.
Import ChangeSet.

(** [INSERT INTO rdf_change_set (effective, notes) VALUES (...)], the id
    being left to the sequence. *)
Definition by_sequence (eff : Z) (n : string) : new_change_set :=
  {| new_id := None; new_effective := Some eff; new_notes := Some n;
     new_last_modified := None; new_entity_tag := None |}.

(** [INSERT INTO rdf_change_set (id, notes) VALUES (1, 'Countries')] *)
Definition without_effective : new_change_set :=
  {| new_id := Some 1; new_effective := None; new_notes := Some "Countries";
     new_last_modified := None; new_entity_tag := None |}.

Definition two_inserts : list (Z * (nat → byte) * new_change_set) :=
  [ (1700000000, some_bytes, by_sequence 1586044800 "2020 VAT Rates");
    (1700000001, some_bytes, by_sequence 1617580800 "2021 VAT Rates") ].

End ChangeSetScenario.

Module ParkScenario.
Import Park.

Definition park_row (c n t s e : string) : row :=
  {| code := c; name := n; season_type := t; season_start := s; season_end := e |}.

Definition two_parks : list row :=
  [ park_row "DC" "Devon Cliffs" "Owners" "2023-03-01" "2023-11-30";
    park_row "GA" "Greenacres" "Owners" "2023-03-01" "2023-11-15";
    park_row "DC" "Devon Cliffs" "Guests" "2023-03-15" "2023-11-15" ].

Definition devon_cliffs : park :=
  {| park_code := "DC"; park_name := "Devon Cliffs";
     seasons := [ {| type := "Owners"; start := "2023-03-01"; end_ := "2023-11-30" |};
                  {| type := "Guests"; start := "2023-03-15"; end_ := "2023-11-15" |} ] |}.

Definition first_change_set : ChangeSet.ChangeSet :=
  {| ChangeSet.cs_id := 1; ChangeSet.cs_effective := 1586044800;
     ChangeSet.cs_notes := Some "Parks"; ChangeSet.lastModified := 1700000000;
     ChangeSet.entityTag := "009fa0ff3c7e7e7e7e7e" |}.

(** [Number(...)] of an integer below 2^1024 in size: the nearest double,
    ties to even. *)
Definition to_double (z : Z) : Z :=
  let a := Z.abs z in
  let e := Z.log2 a - 52 in
  if e <=? 0 then z
  else
    let q := a / 2 ^ e in
    let r := a mod 2 ^ e in
    let half := 2 ^ (e - 1) in
    let q' := if (half <? r) || ((r =? half) && Z.odd q) then q + 1 else q in
    Z.sgn z * (q' * 2 ^ e).

(** The decimal numeral that a template literal makes of a number below
    10^21 in size whose shortest numeral is its exact one, as for every
    integer up to 2^53. *)
Definition decimal (z : Z) : string := pretty z.

Definition only_first (i : Z) : option ChangeSet.ChangeSet :=
  if bool_decide (i = 1) then Some first_change_set else None.

Definition parks_of (i : Z) : list row :=
  if bool_decide (i = 1) then two_parks else [].

(** Upper-casing of the letters a to z. *)
Fixpoint ascii_upper (s : string) : string :=
  match s with
  | EmptyString => EmptyString
  | String c s =>
      let n := N_of_ascii c in
      String (if ((97 <=? n) && (n <=? 122))%N then ascii_of_N (n - 32) else c)
             (ascii_upper s)
  end.

Definition parks_projection : Notification.projection.t :=
  {| Notification.projection.id := 1; Notification.projection.name := "Parks";
     Notification.projection.version := 1 |}.

End ParkScenario.

(** * Properties of the notification mechanism *)

Section notification_facts.
Import Notification.

(** ** Lists with at most one row per key *)

Lemma filter_none {A : Type} (P : A → Prop) `{∀ x, Decision (P x)} (l : list A) :
  (∀ x, x ∈ l → ¬ P x) → filter P l = [].
Proof.
  induction l as [|x l IH]; intros Hl; [done|].
  rewrite filter_cons_False by (apply Hl; left).
  apply IH. intros y Hy. apply Hl. by right.
Qed.

Lemma filter_key_NoDup {A K : Type} `{EqDecision K} (f : A → K) (k : K) (l : list A) :
  NoDup (f <$> l) → (length (filter (λ x, f x = k) l) ≤ 1)%nat.
Proof.
  induction l as [|x l IH]; simpl; intros Hnd; [lia|].
  apply NoDup_cons in Hnd as [Hx Hnd].
  rewrite filter_cons. case_decide as Hk; simpl; [|auto].
  assert (filter (λ y, f y = k) l = []) as ->; [|simpl; lia].
  apply filter_none. intros y Hy Hfy.
  apply Hx, list_elem_of_fmap. exists y. split; [congruence|done].
Qed.

Lemma NoDup_filter_key {A K : Type} `{EqDecision K} (f : A → K) (l : list A) :
  (∀ k, (length (filter (λ x, f x = k) l) ≤ 1)%nat) → NoDup (f <$> l).
Proof.
  induction l as [|x l IH]; simpl; intros Hc; [constructor|].
  constructor.
  - intros [y [Hfy Hy]]%list_elem_of_fmap.
    specialize (Hc (f x)). rewrite filter_cons in Hc.
    case_decide; [|done]. simpl in Hc.
    assert (y ∈ filter (λ z, f z = f x) l) as Hin by (apply list_elem_of_filter; auto).
    destruct (filter (λ z, f z = f x) l); [by apply elem_of_nil in Hin|simpl in Hc; lia].
  - apply IH. intros k. specialize (Hc k). rewrite filter_cons in Hc.
    case_decide; simpl in Hc; lia.
Qed.

Lemma at_most_one_NoDup db :
  at_most_one_per_status db ↔ NoDup (uniq_key <$> fby_notification db).
Proof.
  split.
  - intros Hone. apply NoDup_filter_key. intros [[H P] s]. apply Hone.
  - intros Hnd H P s. by apply filter_key_NoDup.
Qed.

(** ** What a committed statement guarantees *)

Lemma forallb_Forall_decide {A : Type} (P : A → Prop) `{∀ x, Decision (P x)} (l : list A) :
  forallb (λ x, bool_decide (P x)) l = true ↔ Forall P l.
Proof.
  rewrite forallb_forall, Forall_forall. split; intros Hl x Hx.
  - apply (bool_decide_eq_true_1 (P x)), Hl. by apply list_elem_of_In.
  - apply bool_decide_eq_true_2, Hl. by apply list_elem_of_In.
Qed.

Lemma write_notifications_Commit db rows db' :
  write_notifications db rows = Commit db' ↔
    db' = with_notifications db rows
    ∧ NoDup (id <$> rows)
    ∧ NoDup (uniq_key <$> rows)
    ∧ Forall (λ n, hook_id n ∈ hook.id <$> fby_hook db) rows
    ∧ Forall (λ n, projection_id n ∈ projection.id <$> fby_projection db) rows.
Proof.
  unfold write_notifications, pkey_ok, uniq_ok, hook_fkey_ok, projection_fkey_ok.
  pose proof (forallb_Forall_decide (λ n, hook_id n ∈ hook.id <$> fby_hook db) rows) as HH.
  pose proof (forallb_Forall_decide
    (λ n, projection_id n ∈ projection.id <$> fby_projection db) rows) as HP.
  cbv beta in HH, HP.
  destruct (bool_decide (NoDup (id <$> rows))) eqn:Hid; simpl.
  2: { apply bool_decide_eq_false in Hid. split; [done|]. by intros (_ & ? & _). }
  apply bool_decide_eq_true in Hid.
  destruct (bool_decide (NoDup (uniq_key <$> rows))) eqn:Hk; simpl.
  2: { apply bool_decide_eq_false in Hk. split; [done|]. by intros (_ & _ & ? & _). }
  apply bool_decide_eq_true in Hk.
  destruct (forallb (λ n, bool_decide (hook_id n ∈ _)) rows) eqn:Hh; simpl.
  2: { split; [done|]. intros (_ & _ & _ & HF & _). by apply HH in HF. }
  destruct (forallb (λ n, bool_decide (projection_id n ∈ _)) rows) eqn:Hp; simpl.
  2: { split; [done|]. intros (_ & _ & _ & _ & HF). by apply HP in HF. }
  split; [|by intros [-> _]].
  intros [= <-]. repeat split; [done|done|by apply HH|by apply HP].
Qed.

Lemma write_notifications_consistent db rows :
  NoDup (id <$> rows) →
  NoDup (uniq_key <$> rows) →
  Forall (λ n, hook_id n ∈ hook.id <$> fby_hook db) rows →
  Forall (λ n, projection_id n ∈ projection.id <$> fby_projection db) rows →
  write_notifications db rows = Commit (with_notifications db rows).
Proof. intros. by apply write_notifications_Commit. Qed.

(** ** Rows are identified by their [id] *)

Lemma NoDup_fmap_inj_on {A K : Type} (f : A → K) (l : list A) (x y : A) :
  NoDup (f <$> l) → x ∈ l → y ∈ l → f x = f y → x = y.
Proof.
  induction l as [|z l IH]; simpl; intros Hnd Hx Hy Hf; [by apply elem_of_nil in Hx|].
  apply NoDup_cons in Hnd as [Hz Hnd].
  apply elem_of_cons in Hx as [->|Hx]; apply elem_of_cons in Hy as [->|Hy]; auto.
  - destruct Hz. rewrite Hf. by apply list_elem_of_fmap_2.
  - destruct Hz. rewrite <- Hf. by apply list_elem_of_fmap_2.
Qed.

Lemma find_id_Some (p_id : Z) (rows : list notification) (n : notification) :
  find (λ m, bool_decide (id m = p_id)) rows = Some n → n ∈ rows ∧ id n = p_id.
Proof.
  intros [Hin Hid]%find_some. split; [by apply list_elem_of_In|].
  by apply bool_decide_eq_true in Hid.
Qed.

Lemma find_id_None (p_id : Z) (rows : list notification) :
  find (λ m, bool_decide (id m = p_id)) rows = None → ∀ n, n ∈ rows → id n ≠ p_id.
Proof.
  intros Hnone n Hin Hid.
  pose proof (find_none _ _ Hnone n (proj1 (list_elem_of_In _ _) Hin)) as Hf.
  simpl in Hf. by apply bool_decide_eq_false in Hf.
Qed.

Lemma find_id_unique (p_id : Z) (rows : list notification) (n : notification) :
  NoDup (id <$> rows) → n ∈ rows → id n = p_id →
  find (λ m, bool_decide (id m = p_id)) rows = Some n.
Proof.
  intros Hnd Hin Hid.
  destruct (find _ rows) as [m|] eqn:Hf.
  - apply find_id_Some in Hf as [Hm Hmid]. f_equal.
    apply (NoDup_fmap_inj_on id rows); congruence.
  - by destruct (find_id_None _ _ Hf n Hin).
Qed.

(** ** [UPDATE ... WHERE n.id = p_id] *)

Lemma update_where_id_absent (p_id : Z) (f : notification → notification)
    (rows : list notification) :
  (∀ n, n ∈ rows → id n ≠ p_id) → update_where_id p_id f rows = rows.
Proof.
  intros Habs. unfold update_where_id.
  induction rows as [|n rows IH]; [done|]. rewrite fmap_cons. f_equal.
  - rewrite bool_decide_eq_false_2; [done|]. apply Habs. left.
  - apply IH. intros m Hm. apply Habs. by right.
Qed.

Lemma update_where_id_ids (p_id : Z) (f : notification → notification)
    (rows : list notification) :
  (∀ n, id (f n) = id n) → id <$> update_where_id p_id f rows = id <$> rows.
Proof.
  intros Hf. unfold update_where_id. rewrite <- list_fmap_compose.
  apply list_fmap_ext. intros _ n _. simpl. by case_bool_decide.
Qed.

Lemma update_where_id_fmap_same {B : Type} (g : notification → B) (p_id : Z)
    (f : notification → notification) (rows : list notification) :
  (∀ n, g (f n) = g n) → g <$> update_where_id p_id f rows = g <$> rows.
Proof.
  intros Hf. unfold update_where_id. rewrite <- list_fmap_compose.
  apply list_fmap_ext. intros _ n _. simpl. by case_bool_decide.
Qed.

Lemma update_where_id_elem (p_id : Z) (f : notification → notification)
    (rows : list notification) (m : notification) :
  m ∈ update_where_id p_id f rows ↔
    (m ∈ rows ∧ id m ≠ p_id) ∨ (∃ n, n ∈ rows ∧ id n = p_id ∧ m = f n).
Proof.
  unfold update_where_id. rewrite list_elem_of_fmap. split.
  - intros (n & -> & Hn). case_bool_decide; [right|left]; eauto.
  - intros [[Hm Hid]|(n & Hn & Hid & ->)].
    + exists m. by rewrite bool_decide_eq_false_2.
    + exists n. by rewrite bool_decide_eq_true_2.
Qed.

Lemma update_where_id_find (p_id : Z) (f : notification → notification)
    (rows : list notification) :
  (∀ n, id (f n) = id n) →
  find (λ m, bool_decide (id m = p_id)) (update_where_id p_id f rows)
  = f <$> find (λ m, bool_decide (id m = p_id)) rows.
Proof.
  intros Hf. unfold update_where_id.
  induction rows as [|n rows IH]; [done|]. rewrite fmap_cons. simpl.
  destruct (decide (id n = p_id)) as [Hn|Hn].
  - rewrite (bool_decide_eq_true_2 (id n = p_id)) by done.
    by rewrite bool_decide_eq_true_2 by (by rewrite Hf).
  - rewrite !(bool_decide_eq_false_2 (id n = p_id)) by done. apply IH.
Qed.

(** Updating the row of one [id] keeps the unique key free of duplicates as
    long as the key the row moves to is not taken. *)
Lemma update_where_id_keys (p_id : Z) (f : notification → notification)
    (rows : list notification) :
  NoDup (id <$> rows) →
  NoDup (uniq_key <$> rows) →
  (∀ n, n ∈ rows → id n = p_id → uniq_key (f n) ∉ uniq_key <$> rows) →
  NoDup (uniq_key <$> update_where_id p_id f rows).
Proof.
  induction rows as [|n rows IH]; intros Hids Hkeys Hfree; [constructor|].
  rewrite fmap_cons in Hids. rewrite fmap_cons in Hkeys.
  apply NoDup_cons in Hids as [Hid Hids]. apply NoDup_cons in Hkeys as [Hkey Hkeys].
  destruct (decide (id n = p_id)) as [Hn|Hn].
  - assert (update_where_id p_id f rows = rows) as Hrest.
    { apply update_where_id_absent. intros m Hm Hmid. apply Hid.
      rewrite Hn, <- Hmid. by apply list_elem_of_fmap_2. }
    unfold update_where_id in *. rewrite fmap_cons, Hrest.
    rewrite bool_decide_eq_true_2 by done. rewrite fmap_cons. constructor; [|done].
    intros Hin. apply (Hfree n); [left|done|]. rewrite fmap_cons. by right.
  - assert (NoDup (uniq_key <$> update_where_id p_id f rows)) as IH'.
    { apply IH; [done..|]. intros m Hm Hmid Hin.
      apply (Hfree m); [by right|done|]. rewrite fmap_cons. by right. }
    unfold update_where_id in *. rewrite fmap_cons.
    rewrite bool_decide_eq_false_2 by done. rewrite fmap_cons. constructor; [|done].
    intros (m & Hkm & Hm)%list_elem_of_fmap.
    apply (update_where_id_elem p_id f rows m) in Hm as [[Hm _]|(m' & Hm' & Hid' & ->)].
    + apply Hkey. rewrite Hkm. by apply list_elem_of_fmap_2.
    + apply (Hfree m'); [by right|done|]. rewrite fmap_cons, <- Hkm. left.
Qed.

Lemma NoDup_fmap_filter {A K : Type} (f : A → K) (P : A → Prop) `{∀ x, Decision (P x)}
    (l : list A) :
  NoDup (f <$> l) → NoDup (f <$> filter P l).
Proof.
  induction l as [|x l IH]; [done|]. rewrite fmap_cons. intros [Hx Hl]%NoDup_cons.
  rewrite filter_cons. case_decide; [|auto]. rewrite fmap_cons. constructor; [|auto].
  intros (y & Hfy & [_ Hy]%list_elem_of_filter)%list_elem_of_fmap.
  apply Hx. rewrite Hfy. by apply list_elem_of_fmap_2.
Qed.

Lemma consistent_with_notifications db rows :
  NoDup (id <$> rows) →
  NoDup (uniq_key <$> rows) →
  Forall (λ n, hook_id n ∈ hook.id <$> fby_hook db) rows →
  Forall (λ n, projection_id n ∈ projection.id <$> fby_projection db) rows →
  Forall (λ n, id n < fby_notification_id_seq db) rows →
  consistent (with_notifications db rows).
Proof. intros. by repeat split. Qed.

Lemma update_where_id_Forall (P : notification → Prop) (p_id : Z)
    (f : notification → notification) (rows : list notification) :
  (∀ n, P n → P (f n)) → Forall P rows → Forall P (update_where_id p_id f rows).
Proof.
  intros Hf Hall. apply Forall_forall. intros m Hm. rewrite Forall_forall in Hall.
  apply update_where_id_elem in Hm as [[Hm _]|(n & Hn & _ & ->)]; auto.
Qed.

(** ** [fby_fail_notification] keeps the table consistent *)

Lemma fail_rows_consistent now p_id p_scheduled_for p_error db :
  consistent db →
  consistent (with_notifications db
    (fail_rows now p_id p_scheduled_for p_error (fby_notification db))).
Proof.
  intros (Hids & Hkeys & Hh & Hp & Hseq). unfold fail_rows.
  apply consistent_with_notifications.
  - by rewrite update_where_id_ids.
  - by rewrite (update_where_id_fmap_same uniq_key).
  - by apply update_where_id_Forall.
  - by apply update_where_id_Forall.
  - by apply update_where_id_Forall.
Qed.

Lemma consistent_write db rows :
  consistent (with_notifications db rows) →
  write_notifications db rows = Commit (with_notifications db rows).
Proof. intros (? & ? & ? & ? & _). by apply write_notifications_consistent. Qed.

Lemma existsb_false {A : Type} (f : A → bool) (l : list A) :
  existsb f l = false ↔ ∀ x, x ∈ l → f x = false.
Proof.
  induction l as [|y l IH]; simpl.
  - split; [by intros _ x ?%elem_of_nil|done].
  - rewrite orb_false_iff, IH. split.
    + intros [Hy Hl] x [->|Hx]%elem_of_cons; auto.
    + intros Hall. split; [apply Hall; left|]. intros x Hx. apply Hall. by right.
Qed.

(** The sum [n.attempts + 1] is in range for the rows of [p_id]. *)
Lemma in_range_rows (p_id : Z) (rows : list notification) :
  existsb (λ n, bool_decide (id n = p_id) && out_of_range (sql_succ (attempts n))) rows
  = false ↔
    ∀ n, n ∈ rows → id n = p_id → ∀ a, attempts n = Some a → a < int4_max.
Proof.
  rewrite existsb_false. unfold int4_max. split.
  - intros Hall n Hn Hid a Ha. specialize (Hall n Hn).
    rewrite bool_decide_eq_true_2 in Hall by done. rewrite Ha in Hall. simpl in Hall.
    apply bool_decide_eq_false in Hall. unfold int4_max in Hall. lia.
  - intros Hall n Hn. case_bool_decide as Hid; [|done]. simpl.
    destruct (attempts n) as [a|] eqn:Ha; [|done]. simpl.
    apply bool_decide_eq_false_2. specialize (Hall n Hn Hid a Ha).
    unfold int4_max. lia.
Qed.

Lemma out_of_range_rows (p_id : Z) (rows : list notification) n a :
  n ∈ rows → id n = p_id → attempts n = Some a → int4_max ≤ a →
  existsb (λ n, bool_decide (id n = p_id) && out_of_range (sql_succ (attempts n))) rows
  = true.
Proof.
  intros Hn Hid Ha Hmax. apply existsb_exists. exists n.
  split; [by apply list_elem_of_In|].
  rewrite bool_decide_eq_true_2 by done. rewrite Ha. simpl.
  apply bool_decide_eq_true_2. lia.
Qed.

Lemma fail_notification_commits now p_id p_scheduled_for p_error db :
  consistent db →
  (∀ n, n ∈ fby_notification db → id n = p_id → ∀ a, attempts n = Some a → a < int4_max) →
  fby_fail_notification now p_id (Some p_scheduled_for) p_error db
  = Commit (with_notifications db
      (fail_rows now p_id p_scheduled_for p_error (fby_notification db))).
Proof.
  intros Hc Hrange. unfold fby_fail_notification.
  rewrite (proj2 (in_range_rows p_id _) Hrange).
  by apply consistent_write, fail_rows_consistent.
Qed.

(** What a committed [fby_fail_notification] has written. *)
Lemma fail_notification_Commit now p_id p_scheduled_for p_error db db' :
  fby_fail_notification now p_id p_scheduled_for p_error db = Commit db' →
  write_notifications db
    (fail_rows now p_id (default 0 p_scheduled_for) p_error (fby_notification db))
  = Commit db'
  ∧ (∀ n, n ∈ fby_notification db → id n = p_id → ∀ a, attempts n = Some a → a < int4_max)
  ∧ (∀ n, n ∈ fby_notification db → id n = p_id → is_Some p_scheduled_for).
Proof.
  unfold fby_fail_notification.
  destruct (existsb _ (fby_notification db)) eqn:Hrange0; [done|].
  pose proof (proj1 (in_range_rows p_id _) Hrange0) as Hrange.
  destruct p_scheduled_for as [scheduled|]; simpl.
  - intros Hrun. split; [done|]. split; [done|]. by eexists.
  - destruct (existsb (λ n, bool_decide (id n = p_id)) (fby_notification db)) eqn:Hrow;
      [done|].
    assert (∀ n, n ∈ fby_notification db → id n ≠ p_id) as Habs.
    { intros n Hn Hid. rewrite existsb_false in Hrow. specialize (Hrow n Hn).
      by apply bool_decide_eq_false in Hrow. }
    intros Hrun. unfold fail_rows. rewrite update_where_id_absent by done.
    split; [done|]. split; [done|]. intros n Hn Hid. by destruct (Habs n Hn).
Qed.

(** ** [fby_pass_notification] keeps the table consistent *)

Lemma delete_ok_elem v_hook_id rows n :
  n ∈ delete_ok v_hook_id rows ↔
    n ∈ rows ∧ ¬ (Some (hook_id n) = v_hook_id ∧ status n = OK).
Proof. unfold delete_ok. rewrite list_elem_of_filter. tauto. Qed.

Lemma pass_rows_keys now p_id rows :
  NoDup (id <$> rows) →
  NoDup (uniq_key <$> rows) →
  NoDup (uniq_key <$> pass_rows now p_id rows).
Proof.
  intros Hids Hkeys. unfold pass_rows.
  apply update_where_id_keys; [by apply NoDup_fmap_filter..|].
  intros n [Hn Hkeep]%delete_ok_elem Hid (m & Hkm & [Hm Hmkeep]%delete_ok_elem)%list_elem_of_fmap.
  assert (select_hook_id p_id rows = Some (hook_id n)) as Hsel.
  { unfold select_hook_id. by rewrite (find_id_unique p_id rows n). }
  apply Hmkeep. rewrite Hsel. unfold uniq_key in Hkm. simpl in Hkm.
  by injection Hkm as -> _ ->.
Qed.

Lemma pass_rows_Forall (P : notification → Prop) now p_id rows :
  (∀ n, P n → P (passed now n)) → Forall P rows → Forall P (pass_rows now p_id rows).
Proof.
  intros Hf Hall. unfold pass_rows. apply update_where_id_Forall; [done|].
  apply Forall_forall. intros n [Hn _]%delete_ok_elem.
  rewrite Forall_forall in Hall. auto.
Qed.

Lemma pass_rows_consistent now p_id db :
  consistent db →
  consistent (with_notifications db (pass_rows now p_id (fby_notification db))).
Proof.
  intros (Hids & Hkeys & Hh & Hp & Hseq).
  apply consistent_with_notifications.
  - unfold pass_rows. rewrite update_where_id_ids by done. by apply NoDup_fmap_filter.
  - by apply pass_rows_keys.
  - by apply pass_rows_Forall.
  - by apply pass_rows_Forall.
  - by apply pass_rows_Forall.
Qed.

Lemma pass_notification_commits now p_id db :
  consistent db →
  (∀ n, n ∈ fby_notification db → id n = p_id → ∀ a, attempts n = Some a → a < int4_max) →
  fby_pass_notification now p_id db
  = Commit (with_notifications db (pass_rows now p_id (fby_notification db))).
Proof.
  intros Hc Hrange. unfold fby_pass_notification. cbv zeta.
  rewrite (proj2 (in_range_rows p_id _)).
  - by apply consistent_write, pass_rows_consistent.
  - intros n [Hn _]%delete_ok_elem. by apply Hrange.
Qed.

(** What a committed [fby_pass_notification] has written. *)
Lemma pass_notification_Commit now p_id db db' :
  fby_pass_notification now p_id db = Commit db' →
  write_notifications db (pass_rows now p_id (fby_notification db)) = Commit db'.
Proof.
  unfold fby_pass_notification. cbv zeta. by destruct (existsb _ _).
Qed.

(** ** [fby_schedule_notification] *)

Lemma existsb_conflicts excluded rows :
  existsb (conflicts excluded) rows = true ↔
    ∃ n, n ∈ rows ∧ uniq_key n = uniq_key excluded.
Proof.
  rewrite existsb_exists. unfold conflicts. split.
  - intros (n & Hn & Hk). exists n. split; [by apply list_elem_of_In|].
    by apply bool_decide_eq_true in Hk.
  - intros (n & Hn & Hk). exists n. split; [by apply list_elem_of_In|].
    by apply bool_decide_eq_true.
Qed.

Lemma on_conflict_update_proposed now h p new_id n :
  uniq_key n = (h, p, PENDING) →
  on_conflict_update (proposed now h p new_id) n = proposed now h p new_id.
Proof.
  destruct n as [i h' p' sf a st la le]. unfold uniq_key. simpl.
  by intros [= -> -> ->].
Qed.

(** The table after the statement: the proposed row is appended when its key
    is free, and takes the place of the row that holds its key otherwise. *)
Lemma schedule_rows_proposed now h p new_id rows :
  schedule_rows (proposed now h p new_id) rows =
    if decide (Exists (λ n, uniq_key n = (h, p, PENDING)) rows)
    then (λ n, if decide (uniq_key n = (h, p, PENDING))
               then proposed now h p new_id else n) <$> rows
    else rows ++ [proposed now h p new_id].
Proof.
  unfold schedule_rows.
  destruct (existsb _ rows) eqn:Hex.
  - apply existsb_conflicts in Hex. rewrite decide_True by (by apply Exists_exists).
    apply list_fmap_ext. intros _ n _. unfold conflicts.
    change (uniq_key (proposed now h p new_id)) with (h, p, PENDING).
    case_bool_decide.
    + rewrite decide_True by done. by apply on_conflict_update_proposed.
    + by rewrite decide_False.
  - rewrite decide_False; [done|]. intros Hex'%Exists_exists.
    apply (existsb_conflicts (proposed now h p new_id)) in Hex'. congruence.
Qed.



Lemma replace_key_keys (k : Z * Z * fby_notification_status) (e : notification)
    (rows : list notification) :
  uniq_key e = k →
  uniq_key <$> ((λ n, if decide (uniq_key n = k) then e else n) <$> rows)
  = uniq_key <$> rows.
Proof.
  intros He. rewrite <- list_fmap_compose. apply list_fmap_ext.
  intros _ n _. simpl. case_decide; congruence.
Qed.

Lemma replace_key_Forall (P : notification → Prop)
    (k : Z * Z * fby_notification_status) (e : notification)
    (rows : list notification) :
  P e → Forall P rows →
  Forall P ((λ n, if decide (uniq_key n = k) then e else n) <$> rows).
Proof.
  intros He Hall. apply Forall_fmap. eapply Forall_impl; [exact Hall|].
  intros n Hn. simpl. by case_decide.
Qed.








(** ** The unique constraint as an invariant of the queue *)

Lemma write_notifications_at_most_one db rows db' :
  write_notifications db rows = Commit db' → at_most_one_per_status db'.
Proof.
  intros (-> & _ & Hkeys & _)%write_notifications_Commit.
  by apply at_most_one_NoDup.
Qed.

Lemma schedule_all_at_most_one now targets db db' :
  at_most_one_per_status db →
  schedule_all now targets db = Commit db' →
  at_most_one_per_status db'.
Proof.
  revert db. induction targets as [|[h p] targets IH]; simpl; intros db Hone Hrun.
  - by injection Hrun as <-.
  - destruct (fby_schedule_notification now h p db) as [db1|e] eqn:Hstep; [|done].
    simpl in Hrun. apply (IH db1); [|done].
    by apply write_notifications_at_most_one in Hstep.
Qed.

Lemma exec_at_most_one c db db' :
  at_most_one_per_status db → exec c db = Commit db' → at_most_one_per_status db'.
Proof.
  intros Hone. destruct c; simpl.
  - apply write_notifications_at_most_one.
  - by apply schedule_all_at_most_one.
  - intros Hrun%pass_notification_Commit.
    by apply write_notifications_at_most_one in Hrun.
  - intros [Hrun _]%fail_notification_Commit.
    by apply write_notifications_at_most_one in Hrun.
Qed.

Lemma run_at_most_one cs db0 db :
  at_most_one_per_status db0 → run cs db0 = Commit db → at_most_one_per_status db.
Proof.
  revert db0. induction cs as [|c cs IH]; simpl; intros db0 Hone Hrun.
  - by injection Hrun as <-.
  - destruct (exec c db0) as [db1|e] eqn:Hstep; [|done]. simpl in Hrun.
    apply (IH db1); [|done]. by apply (exec_at_most_one c db0).
Qed.

Lemma schedule_rows_keys now h p new_id (rows : list notification) :
  NoDup (uniq_key <$> rows) →
  NoDup (uniq_key <$> schedule_rows (proposed now h p new_id) rows).
Proof.
  intros Hkeys. rewrite schedule_rows_proposed. case_decide as Hex.
  - by rewrite replace_key_keys.
  - rewrite fmap_app. apply NoDup_app. split_and!; [done| |apply NoDup_singleton].
    intros k (m & -> & Hm)%list_elem_of_fmap Hk%list_elem_of_singleton.
    apply Hex, Exists_exists. by exists m.
Qed.

(** C2: in every state of the queue that schedule, notify, pass and fail lead
    to from a state with at most one row per (hook, projection, status),
    each hook and projection have at most one PENDING and at most one OK
    notification; and the rows that schedule, pass and fail then write
    satisfy the unique constraint as well, so that the constraint never stops
    them. *)
Theorem notification_uniqueness_invariant (cs : list command) (db0 db : database) :
  at_most_one_per_status db0 →
  run cs db0 = Commit db →
  (∀ H P, (count_rows H P PENDING (fby_notification db) ≤ 1)%nat
        ∧ (count_rows H P OK (fby_notification db) ≤ 1)%nat)
  ∧ (∀ now h p new_id,
      NoDup (uniq_key <$> schedule_rows (proposed now h p new_id) (fby_notification db)))
  ∧ (∀ now p_id,
      NoDup (id <$> fby_notification db) →
      NoDup (uniq_key <$> pass_rows now p_id (fby_notification db)))
  ∧ (∀ now p_id p_scheduled_for p_error,
      NoDup (uniq_key <$> fail_rows now p_id p_scheduled_for p_error (fby_notification db))).
Proof.
  intros Hone Hrun.
  pose proof (run_at_most_one cs db0 db Hone Hrun) as Hone'.
  pose proof (proj1 (at_most_one_NoDup db) Hone') as Hkeys.
  split; [|split; [|split]].
  - intros H P. split; apply Hone'.
  - intros now h p new_id. by apply schedule_rows_keys.
  - intros now p_id Hids. by apply pass_rows_keys.
  - intros now p_id p_scheduled_for p_error. unfold fail_rows.
    by rewrite (update_where_id_fmap_same uniq_key).
Qed.

(** ** Consistency is kept along every run *)

Lemma schedule_notification_consistent now h p db db' :
  consistent db →
  fby_schedule_notification now h p db = Commit db' →
  consistent db'.
Proof.
  intros (Hids & Hkeys & Hh & Hp & Hseq).
  unfold fby_schedule_notification.
  intros (-> & Hids' & Hkeys' & Hh' & Hp')%write_notifications_Commit.
  apply consistent_with_notifications; [done..|]. simpl.
  assert (Forall (λ n, id n < fby_notification_id_seq db + 1) (fby_notification db)) as Hseq'.
  { eapply Forall_impl; [exact Hseq|]. simpl. intros. lia. }
  rewrite schedule_rows_proposed. case_decide.
  - apply replace_key_Forall; [simpl; lia|done].
  - apply Forall_app. split; [done|]. apply Forall_singleton. simpl. lia.
Qed.

Lemma schedule_all_consistent now targets db db' :
  consistent db → schedule_all now targets db = Commit db' → consistent db'.
Proof.
  revert db. induction targets as [|[h p] targets IH]; simpl; intros db Hc Hrun.
  - by injection Hrun as <-.
  - destruct (fby_schedule_notification now h p db) as [db1|e] eqn:Hstep; [|done].
    simpl in Hrun. apply (IH db1); [|done].
    by apply (schedule_notification_consistent now h p db).
Qed.

Lemma exec_consistent c db db' :
  consistent db → exec c db = Commit db' → consistent db'.
Proof.
  intros Hc. destruct c as [now h p|now name version|now p_id|now p_id sched err]; simpl.
  - by apply schedule_notification_consistent.
  - by apply schedule_all_consistent.
  - intros Hrun%pass_notification_Commit.
    rewrite consistent_write in Hrun by (by apply pass_rows_consistent).
    injection Hrun as <-. by apply pass_rows_consistent.
  - intros [Hrun _]%fail_notification_Commit.
    rewrite consistent_write in Hrun by (by apply fail_rows_consistent).
    injection Hrun as <-. by apply fail_rows_consistent.
Qed.

Lemma run_consistent cs db0 db :
  consistent db0 → run cs db0 = Commit db → consistent db.
Proof.
  revert db0. induction cs as [|c cs IH]; simpl; intros db0 Hc Hrun.
  - by injection Hrun as <-.
  - destruct (exec c db0) as [db1|e] eqn:Hstep; [|done]. simpl in Hrun.
    apply (IH db1); [|done]. by apply (exec_consistent c db0).
Qed.

(** The routines never store [NULL] in [attempts]. *)
Lemma write_notifications_rows db rows db' :
  write_notifications db rows = Commit db' → fby_notification db' = rows.
Proof. by intros (-> & _)%write_notifications_Commit. Qed.

Lemma schedule_notification_attempts now h p db db' :
  Forall (λ n, is_Some (attempts n)) (fby_notification db) →
  fby_schedule_notification now h p db = Commit db' →
  Forall (λ n, is_Some (attempts n)) (fby_notification db').
Proof.
  intros Hall Hrun. unfold fby_schedule_notification in Hrun.
  rewrite (write_notifications_rows _ _ _ Hrun). simpl.
  rewrite schedule_rows_proposed. case_decide.
  - by apply replace_key_Forall.
  - apply Forall_app. split; [done|]. by apply Forall_singleton.
Qed.

Lemma exec_attempts c db db' :
  Forall (λ n, is_Some (attempts n)) (fby_notification db) →
  exec c db = Commit db' →
  Forall (λ n, is_Some (attempts n)) (fby_notification db').
Proof.
  assert (∀ a : option Z, is_Some a → is_Some (sql_succ a)) as Hsucc
    by (by intros a [v ->]).
  intros Hall. destruct c as [now h p|now name version|now p_id|now p_id sched err]; simpl.
  - by apply schedule_notification_attempts.
  - unfold fby_notify. generalize (notify_targets name version db). intros targets.
    revert db Hall. induction targets as [|[h p] targets IH]; simpl; intros db Hall Hrun.
    + by injection Hrun as <-.
    + destruct (fby_schedule_notification now h p db) as [db1|e] eqn:Hstep; [|done].
      simpl in Hrun. apply (IH db1); [|done].
      by apply (schedule_notification_attempts now h p db).
  - intros Hrun%pass_notification_Commit. rewrite (write_notifications_rows _ _ _ Hrun).
    apply pass_rows_Forall; [|done]. intros n. simpl. apply Hsucc.
  - intros [Hrun _]%fail_notification_Commit.
    rewrite (write_notifications_rows _ _ _ Hrun).
    apply update_where_id_Forall; [|done]. intros n. simpl. apply Hsucc.
Qed.

Lemma run_attempts cs db0 db :
  Forall (λ n, is_Some (attempts n)) (fby_notification db0) →
  run cs db0 = Commit db →
  Forall (λ n, is_Some (attempts n)) (fby_notification db).
Proof.
  revert db0. induction cs as [|c cs IH]; simpl; intros db0 Hall Hrun.
  - by injection Hrun as <-.
  - destruct (exec c db0) as [db1|e] eqn:Hstep; [|done]. simpl in Hrun.
    apply (IH db1); [|done]. by apply (exec_attempts c db0).
Qed.

(** ** [fby_get_next_notification] *)

Lemma get_next_notification_Some now p_max_attempts locked db r :
  fby_get_next_notification now p_max_attempts locked db = Some r →
  ∃ n a, n ∈ fby_notification db
    ∧ r = {| next_id := id n; next_hook_id := hook_id n; next_attempts := Some (a + 1) |}
    ∧ status n = PENDING
    ∧ scheduled_for n ≤ now
    ∧ attempts n = Some a
    ∧ a < p_max_attempts
    ∧ locked (id n) = false.
Proof.
  unfold fby_get_next_notification. intros Hr.
  destruct (find _ (fby_notification db)) as [n|] eqn:Hfind; [|done].
  injection Hr as <-. apply find_some in Hfind as [Hin Hdue].
  apply list_elem_of_In in Hin. unfold due, sql_lt in Hdue.
  apply andb_prop in Hdue as [Hdue Hlock].
  apply andb_prop in Hdue as [Hdue Hatt]. apply andb_prop in Hdue as [Hst Hsched].
  destruct (attempts n) as [a|] eqn:Ha; [|done].
  exists n, a. rewrite Ha. simpl.
  apply bool_decide_eq_true in Hst, Hsched, Hatt.
  apply negb_true_iff in Hlock. done.
Qed.

(** C10: the attempts value that [fby_get_next_notification] returns for the
    PENDING row it selects is the stored attempts column plus one. *)
Theorem get_next_notification_attempts_ordinal now p_max_attempts locked db r :
  fby_get_next_notification now p_max_attempts locked db = Some r →
  ∃ n a, n ∈ fby_notification db
    ∧ id n = next_id r
    ∧ hook_id n = next_hook_id r
    ∧ status n = PENDING
    ∧ attempts n = Some a
    ∧ next_attempts r = Some (a + 1).
Proof.
  intros (n & a & Hn & -> & Hst & _ & Ha & _)%get_next_notification_Some.
  by exists n, a.
Qed.

Lemma get_next_notification_skips_poisoned now p_max_attempts locked db n a r :
  NoDup (id <$> fby_notification db) →
  n ∈ fby_notification db →
  attempts n = Some a →
  p_max_attempts ≤ a →
  fby_get_next_notification now p_max_attempts locked db = Some r →
  next_id r ≠ id n.
Proof.
  intros Hids Hn Ha Hmax (m & b & Hm & -> & _ & _ & Hb & Hlt & _)%get_next_notification_Some.
  simpl. intros Hid.
  assert (m = n) as -> by (by apply (NoDup_fmap_inj_on id (fby_notification db))).
  rewrite Ha in Hb. injection Hb as ->. lia.
Qed.

(** ** [fby_fail_notification] and the poison queue *)

Lemma lookup_id_only p_id db n m :
  NoDup (id <$> fby_notification db) →
  lookup_id p_id db = Some n →
  m ∈ fby_notification db → id m = p_id → m = n.
Proof.
  intros Hids [Hn Hid]%find_id_Some Hm Hmid.
  apply (NoDup_fmap_inj_on id (fby_notification db)); congruence.
Qed.

Lemma get_next_notification_skips_null now p_max_attempts locked db n r :
  NoDup (id <$> fby_notification db) →
  n ∈ fby_notification db →
  attempts n = None →
  fby_get_next_notification now p_max_attempts locked db = Some r →
  next_id r ≠ id n.
Proof.
  intros Hids Hn Ha (m & b & Hm & -> & _ & _ & Hb & _)%get_next_notification_Some.
  simpl. intros Hid.
  assert (m = n) as -> by (by apply (NoDup_fmap_inj_on id (fby_notification db))).
  congruence.
Qed.

(** C5 (as amended): failing a notification whose attempts are below the
    largest [INTEGER] adds one to them, stores the error text in
    [last_error], moves [scheduled_for] to the given time and leaves the
    status as it was; [NULL] attempts stay [NULL]; at the largest [INTEGER]
    the call raises "integer out of range", and with a [NULL] schedule the
    not-null violation of [scheduled_for]. [fby_get_next_notification]
    returns only PENDING rows that are due and whose attempts are below the
    maximum, so a row whose attempts have reached the maximum, or are
    [NULL], is never returned. *)
Theorem fail_notification_retries_until_poisoned (db : database) :
  consistent db →
  (∀ now p_id p_scheduled_for p_error n,
      lookup_id p_id db = Some n →
      (∀ a, attempts n = Some a → a < int4_max) →
      ∃ db' n',
        fby_fail_notification now p_id (Some p_scheduled_for) p_error db = Commit db'
        ∧ lookup_id p_id db' = Some n'
        ∧ (∀ a, attempts n = Some a → attempts n' = Some (a + 1))
        ∧ (attempts n = None → attempts n' = None)
        ∧ last_error n' = p_error
        ∧ scheduled_for n' = p_scheduled_for
        ∧ last_attempted n' = Some now
        ∧ status n' = status n
        ∧ (status n = PENDING → status n' = PENDING)
        ∧ (∀ a p_max_attempts now' locked r,
            attempts n = Some a → p_max_attempts ≤ a + 1 →
            fby_get_next_notification now' p_max_attempts locked db' = Some r →
            next_id r ≠ p_id)
        ∧ (attempts n = None →
            ∀ p_max_attempts now' locked r,
              fby_get_next_notification now' p_max_attempts locked db' = Some r →
              next_id r ≠ p_id))
  ∧ (∀ now p_id p_scheduled_for p_error n a,
      lookup_id p_id db = Some n → attempts n = Some a → int4_max ≤ a →
      fby_fail_notification now p_id p_scheduled_for p_error db
      = Raise numeric_value_out_of_range)
  ∧ (∀ now p_id p_error n,
      lookup_id p_id db = Some n →
      (∀ a, attempts n = Some a → a < int4_max) →
      fby_fail_notification now p_id None p_error db
      = Raise (not_null_violation "scheduled_for"))
  ∧ (∀ now p_max_attempts locked r,
      fby_get_next_notification now p_max_attempts locked db = Some r →
      ∃ n a, n ∈ fby_notification db ∧ id n = next_id r ∧ status n = PENDING
        ∧ scheduled_for n ≤ now ∧ attempts n = Some a ∧ a < p_max_attempts)
  ∧ (∀ now p_max_attempts locked n a r,
      n ∈ fby_notification db → attempts n = Some a → p_max_attempts ≤ a →
      fby_get_next_notification now p_max_attempts locked db = Some r →
      next_id r ≠ id n).
Proof.
  intros Hc. split_and!.
  - intros now p_id p_scheduled_for p_error n Hn Hrange.
    pose proof (fail_rows_consistent now p_id p_scheduled_for p_error db Hc) as Hc'.
    eexists. exists (failed now p_scheduled_for p_error n).
    split.
    { apply fail_notification_commits; [done|]. intros m Hm Hmid.
      by rewrite (lookup_id_only p_id db n m) by (done || by destruct Hc). }
    assert (lookup_id p_id (with_notifications db
      (fail_rows now p_id p_scheduled_for p_error (fby_notification db)))
      = Some (failed now p_scheduled_for p_error n)) as Hlook.
    { unfold lookup_id, fail_rows. simpl. rewrite update_where_id_find by done.
      unfold lookup_id in Hn. by rewrite Hn. }
    split; [done|]. split; [by intros a Ha; simpl; rewrite Ha|].
    split; [by intros Ha; simpl; rewrite Ha|].
    split; [done|]. split; [done|]. split; [done|]. split; [done|]. split; [done|].
    apply find_id_Some in Hlook as [Hin Hid]. split.
    + intros a p_max_attempts now' locked r Ha Hmax Hr. rewrite <- Hid.
      eapply (get_next_notification_skips_poisoned now' p_max_attempts locked);
        [by destruct Hc'|exact Hin| |exact Hmax|exact Hr].
      simpl. by rewrite Ha.
    + intros Ha p_max_attempts now' locked r Hr. rewrite <- Hid.
      eapply (get_next_notification_skips_null now' p_max_attempts locked);
        [by destruct Hc'|exact Hin| |exact Hr].
      simpl. by rewrite Ha.
  - intros now p_id p_scheduled_for p_error n a [Hn Hid]%find_id_Some Ha Hmax.
    unfold fby_fail_notification. cbv zeta.
    by rewrite (out_of_range_rows p_id _ n a).
  - intros now p_id p_error n Hn Hrange.
    unfold fby_fail_notification. cbv zeta.
    rewrite (proj2 (in_range_rows p_id _)).
    + apply find_id_Some in Hn as [Hn Hid].
      assert (existsb (λ m, bool_decide (id m = p_id)) (fby_notification db) = true)
        as ->; [|done].
      apply existsb_exists. exists n. split; [by apply list_elem_of_In|].
      by apply bool_decide_eq_true_2.
    + intros m Hm Hmid.
      by rewrite (lookup_id_only p_id db n m) by (done || by destruct Hc).
  - intros now p_max_attempts locked r
      (n & a & Hn & -> & ? & ? & ? & ? & _)%get_next_notification_Some.
    by exists n, a.
  - intros now p_max_attempts locked n a r Hn Ha Hmax Hr.
    apply (get_next_notification_skips_poisoned now p_max_attempts locked db n a r);
      [by destruct Hc|done..].
Qed.

(** ** [fby_pass_notification] *)

(** C9 (as amended): passing a PENDING notification whose attempts are below
    the largest [INTEGER] marks its row OK, adds one to its stored attempts,
    sets [last_attempted] to the current time and clears [last_error];
    [NULL] attempts stay [NULL]; at the largest [INTEGER] the call raises
    "integer out of range". *)
Theorem pass_notification_counts_the_delivery now p_id db n :
  consistent db →
  lookup_id p_id db = Some n →
  status n = PENDING →
  ((∀ a, attempts n = Some a → a < int4_max) →
    ∃ db' n', fby_pass_notification now p_id db = Commit db'
      ∧ lookup_id p_id db' = Some n'
      ∧ status n' = OK
      ∧ (∀ a, attempts n = Some a → attempts n' = Some (a + 1))
      ∧ (attempts n = None → attempts n' = None)
      ∧ last_attempted n' = Some now
      ∧ last_error n' = None
      ∧ hook_id n' = hook_id n
      ∧ projection_id n' = projection_id n)
  ∧ (∀ a, attempts n = Some a → int4_max ≤ a →
      fby_pass_notification now p_id db = Raise numeric_value_out_of_range).
Proof.
  intros Hc Hn Hst.
  assert (n ∈ delete_ok (select_hook_id p_id (fby_notification db)) (fby_notification db))
    as Hkept.
  { apply find_id_Some in Hn as [Hin Hid].
    apply delete_ok_elem. split; [done|]. intros [_ Hok]. congruence. }
  split.
  - intros Hrange. eexists. exists (passed now n).
    split.
    { apply pass_notification_commits; [done|]. intros m Hm Hmid.
      by rewrite (lookup_id_only p_id db n m) by (done || by destruct Hc). }
    split; [|split; [done|split; [by intros a Ha; simpl; rewrite Ha|]]].
    + unfold lookup_id in *. simpl. unfold pass_rows.
      rewrite update_where_id_find by done.
      apply find_id_Some in Hn as [Hin Hid].
      rewrite (find_id_unique p_id _ n); [done| |done|done].
      apply NoDup_fmap_filter. by destruct Hc.
    + split; [by intros Ha; simpl; rewrite Ha|done].
  - intros a Ha Hmax. unfold fby_pass_notification. cbv zeta.
    apply find_id_Some in Hn as [_ Hid].
    by rewrite (out_of_range_rows p_id _ n a).
Qed.

End notification_facts.

(** ** The scenarios *)

Section notification_scenarios.
Import Notification NotificationScenario.

Example busy_day_runs : run busy_day empty_queue = Commit busy_day_end.
Proof. vm_compute. reflexivity. Qed.

Lemma empty_queue_consistent : consistent empty_queue.
Proof. apply (bool_decide_unpack _). vm_compute. exact I. Qed.

Lemma failed_twice_consistent : consistent failed_twice.
Proof. apply (bool_decide_unpack _). vm_compute. exact I. Qed.

Lemma delivered_consistent : consistent delivered.
Proof. apply (bool_decide_unpack _). vm_compute. exact I. Qed.

Lemma notification_uniqueness_invariant_witness :
  at_most_one_per_status empty_queue
  ∧ run busy_day empty_queue = Commit busy_day_end
  ∧ ∀ H P, (count_rows H P PENDING (fby_notification busy_day_end) ≤ 1)%nat
         ∧ (count_rows H P OK (fby_notification busy_day_end) ≤ 1)%nat.
Proof.
  assert (at_most_one_per_status empty_queue) as Hone
    by (intros H P s; vm_compute; lia).
  assert (run busy_day empty_queue = Commit busy_day_end) as Hrun by (vm_compute; reflexivity).
  split; [exact Hone|]. split; [exact Hrun|].
  exact (proj1 (notification_uniqueness_invariant busy_day empty_queue busy_day_end
                  Hone Hrun)).
Defined.


Lemma uncounted_consistent : consistent uncounted.
Proof. apply (bool_decide_unpack _). vm_compute. exact I. Qed.

Lemma exhausted_consistent : consistent exhausted.
Proof. apply (bool_decide_unpack _). vm_compute. exact I. Qed.

Lemma fail_notification_retries_until_poisoned_witness :
  consistent failed_twice
  ∧ ∃ db' n',
      fby_fail_notification 60 1 (Some 70) (Some "subscriber threw") failed_twice
      = Commit db'
      ∧ lookup_id 1 db' = Some n'
      ∧ attempts n' = Some 3
      ∧ ∀ now locked r, fby_get_next_notification now 3 locked db' = Some r → next_id r ≠ 1.
Proof.
  assert (consistent failed_twice) as Hc by exact failed_twice_consistent.
  split; [exact Hc|].
  destruct (fail_notification_retries_until_poisoned failed_twice Hc) as (Hfail & _).
  assert (∀ a : Z, Some 2 = Some a → a < int4_max) as Hrange
    by (intros a [= <-]; vm_compute; reflexivity).
  destruct (Hfail 60 1 70 (Some "subscriber threw"%string)
              (row 1 1 1 50 (Some 2) PENDING (Some 40) (Some "subscriber threw"%string))
              eq_refl Hrange)
    as (db' & n' & Hrun & Hlook & Hatt & _ & _ & _ & _ & _ & _ & Hpoison & _).
  exists db', n'. split; [exact Hrun|]. split; [exact Hlook|].
  split; [exact (Hatt 2 eq_refl)|].
  intros now locked r. apply (Hpoison 2 3 now locked r eq_refl). lia.
Defined.

(** Failing a notification does not always add one to its attempts: a row
    inserted with [NULL] attempts, which the column allows, keeps them
    [NULL], and for a row that has reached the largest [INTEGER] the call
    raises and the row is left as it was. *)
Lemma fail_notification_does_not_always_count :
  consistent uncounted
  ∧ lookup_id 1 uncounted = Some (row 1 1 1 50 None PENDING None None)
  ∧ fby_fail_notification 60 1 (Some 70) (Some "subscriber threw") uncounted
    = Commit (with_rows [ row 1 1 1 70 None PENDING (Some 60) (Some "subscriber threw") ] 2)
  ∧ consistent exhausted
  ∧ lookup_id 1 exhausted
    = Some (row 1 1 1 50 (Some 2147483647) PENDING (Some 40) (Some "subscriber threw"))
  ∧ fby_fail_notification 60 1 (Some 70) (Some "subscriber threw") exhausted
    = Raise numeric_value_out_of_range.
Proof.
  split; [exact uncounted_consistent|]. split; [reflexivity|].
  split; [vm_compute; reflexivity|].
  split; [exact exhausted_consistent|]. split; [reflexivity|].
  vm_compute. reflexivity.
Qed.

Lemma pass_notification_counts_the_delivery_witness :
  consistent failed_twice
  ∧ lookup_id 1 failed_twice
    = Some (row 1 1 1 50 (Some 2) PENDING (Some 40) (Some "subscriber threw"%string))
  ∧ ∃ db' n', fby_pass_notification 60 1 failed_twice = Commit db'
      ∧ lookup_id 1 db' = Some n'
      ∧ status n' = OK
      ∧ attempts n' = Some 3.
Proof.
  assert (consistent failed_twice) as Hc by exact failed_twice_consistent.
  split; [exact Hc|]. split; [reflexivity|].
  assert (∀ a : Z, Some 2 = Some a → a < int4_max) as Hrange
    by (intros a [= <-]; vm_compute; reflexivity).
  destruct (pass_notification_counts_the_delivery 60 1 failed_twice
              (row 1 1 1 50 (Some 2) PENDING (Some 40) (Some "subscriber threw"%string))
              Hc eq_refl eq_refl)
    as [Hpass _].
  destruct (Hpass Hrange) as (db' & n' & Hrun & Hlook & Hst & Hatt & _).
  exists db', n'. split; [exact Hrun|]. split; [exact Hlook|]. split; [exact Hst|].
  exact (Hatt 2 eq_refl).
Defined.

(** Passing a notification whose row is already OK deletes the row: the
    [DELETE] of the OK rows of its hook removes it before the [UPDATE], which
    then finds no row to mark. Nor is every delivery counted for a PENDING
    row: [NULL] attempts stay [NULL], and at the largest [INTEGER] the call
    raises and the row stays PENDING. *)
Lemma pass_notification_deletes_delivered_row :
  consistent delivered
  ∧ lookup_id 1 delivered = Some (row 1 1 1 50 (Some 1) OK (Some 50) None)
  ∧ fby_pass_notification 60 1 delivered = Commit (with_rows [] 2)
  ∧ lookup_id 1 (with_rows [] 2) = None
  ∧ consistent uncounted
  ∧ lookup_id 1 uncounted = Some (row 1 1 1 50 None PENDING None None)
  ∧ fby_pass_notification 60 1 uncounted
    = Commit (with_rows [ row 1 1 1 50 None OK (Some 60) None ] 2)
  ∧ consistent exhausted
  ∧ lookup_id 1 exhausted
    = Some (row 1 1 1 50 (Some 2147483647) PENDING (Some 40) (Some "subscriber threw"))
  ∧ fby_pass_notification 60 1 exhausted = Raise numeric_value_out_of_range.
Proof.
  split; [exact delivered_consistent|].
  split; [reflexivity|]. split; [vm_compute; reflexivity|]. split; [reflexivity|].
  split; [exact uncounted_consistent|]. split; [reflexivity|].
  split; [vm_compute; reflexivity|].
  split; [exact exhausted_consistent|]. split; [reflexivity|].
  vm_compute. reflexivity.
Qed.

Lemma get_next_notification_attempts_ordinal_witness :
  fby_get_next_notification 60 3 (λ _, false) failed_twice
  = Some {| next_id := 1; next_hook_id := 1; next_attempts := Some 3 |}
  ∧ ∃ n a, n ∈ fby_notification failed_twice
      ∧ id n = 1 ∧ hook_id n = 1 ∧ status n = PENDING
      ∧ attempts n = Some a ∧ Some 3 = Some (a + 1).
Proof.
  assert (fby_get_next_notification 60 3 (λ _, false) failed_twice
          = Some {| next_id := 1; next_hook_id := 1; next_attempts := Some 3 |}) as Hnext
    by (vm_compute; reflexivity).
  split; [exact Hnext|].
  exact (get_next_notification_attempts_ordinal 60 3 (λ _, false) failed_twice _ Hnext).
Defined.

End notification_scenarios.

(** * Properties of the change-set table *)

Section change_set_facts.
Import ChangeSet.

Lemma length_gen_random_bytes count entropy :
  length (gen_random_bytes count entropy) = count.
Proof. unfold gen_random_bytes. by rewrite length_fmap, length_seq. Qed.

Lemma length_encode_hex bytes :
  String.length (encode_hex bytes) = (2 * length bytes)%nat.
Proof. induction bytes as [|b bytes IH]; simpl; [done|]. rewrite IH. lia. Qed.

Lemma byte_digits_lower_hex (b : byte) :
  lower_hex (hex_digit (Byte.to_N b / 16)) = true
  ∧ lower_hex (hex_digit (Byte.to_N b mod 16)) = true.
Proof. destruct b; split; vm_compute; reflexivity. Qed.

Lemma all_lower_hex_encode_hex bytes : all_lower_hex (encode_hex bytes) = true.
Proof.
  induction bytes as [|b bytes IH]; simpl; [done|].
  destruct (byte_digits_lower_hex b) as [-> ->]. by rewrite IH.
Qed.

Lemma random_tag_matches entropy :
  matches_entity_tag (encode_hex (gen_random_bytes 10 entropy)) = true.
Proof.
  unfold matches_entity_tag.
  rewrite length_encode_hex, length_gen_random_bytes, all_lower_hex_encode_hex.
  done.
Qed.

(** What a committed insert adds to the table. *)
Lemma insert_change_set_Commit now entropy values tbl tbl' :
  insert_change_set now entropy values tbl = Commit tbl' →
  ∃ row, rdf_change_set tbl' = rdf_change_set tbl ++ [row]
    ∧ (id row ∉ id <$> rdf_change_set tbl)
    ∧ last_modified row = now
    ∧ entity_tag row = encode_hex (gen_random_bytes 10 entropy).
Proof.
  unfold insert_change_set.
  destruct (new_id values) as [i|]; simpl;
    (destruct (new_effective values) as [e|]; [|done]);
    case_bool_decide as Hfresh; [done| |done|]; intros [= <-]; simpl; eauto.
Qed.

Lemma insert_change_set_tags now entropy values tbl tbl' :
  tags_match tbl →
  insert_change_set now entropy values tbl = Commit tbl' →
  tags_match tbl'.
Proof.
  intros Htags (row & Hrows & _ & _ & Htag)%insert_change_set_Commit.
  unfold tags_match. rewrite Hrows. apply Forall_app. split; [done|].
  apply Forall_singleton. rewrite Htag. apply random_tag_matches.
Qed.

Lemma insert_all_tags inserts tbl tbl' :
  tags_match tbl → insert_all inserts tbl = Commit tbl' → tags_match tbl'.
Proof.
  revert tbl. induction inserts as [|[[now entropy] values] inserts IH]; simpl;
    intros tbl Htags Hrun.
  - by injection Hrun as <-.
  - destruct (insert_change_set now entropy values tbl) as [tbl1|e] eqn:Hstep; [|done].
    simpl in Hrun. apply (IH tbl1); [|done]. by apply insert_change_set_tags in Hstep.
Qed.

Lemma find_app_Some {A : Type} (f : A → bool) (l k : list A) (x : A) :
  find f l = Some x → find f (l ++ k) = Some x.
Proof.
  induction l as [|y l IH]; simpl; [done|]. by destruct (f y).
Qed.

Lemma insert_all_getChangeSet inserts tbl tbl' p_id cs :
  getChangeSet p_id tbl = Some cs →
  insert_all inserts tbl = Commit tbl' →
  getChangeSet p_id tbl' = Some cs.
Proof.
  revert tbl. induction inserts as [|[[now entropy] values] inserts IH]; simpl;
    intros tbl Hget Hrun.
  - by injection Hrun as <-.
  - destruct (insert_change_set now entropy values tbl) as [tbl1|e] eqn:Hstep; [|done].
    simpl in Hrun. apply (IH tbl1); [|done].
    apply insert_change_set_Commit in Hstep as (row & Hrows & _).
    unfold getChangeSet in *. rewrite Hrows.
    destruct (find _ (rdf_change_set tbl)) as [r|] eqn:Hfind; [|done].
    by rewrite (find_app_Some _ _ _ r).
Qed.

(** C8: every insert into the change-set table stores the insertion time in
    [last_modified] and the hexadecimal encoding of 10 random bytes in
    [entity_tag]; hence the entity tag of every change set read back from a
    table filled by inserts matches [^[0-9a-f]{20}$], and a change set that
    was read once is read unchanged after any further inserts. *)
Theorem change_set_entity_tag :
  (∀ now entropy values tbl tbl',
      insert_change_set now entropy values tbl = Commit tbl' →
      ∃ row, rdf_change_set tbl' = rdf_change_set tbl ++ [row]
        ∧ last_modified row = now
        ∧ entity_tag row = encode_hex (gen_random_bytes 10 entropy)
        ∧ length (gen_random_bytes 10 entropy) = 10%nat)
  ∧ (∀ inserts tbl0 tbl p_id cs,
      rdf_change_set tbl0 = [] →
      insert_all inserts tbl0 = Commit tbl →
      getChangeSet p_id tbl = Some cs →
      matches_entity_tag (entityTag cs) = true)
  ∧ (∀ inserts tbl tbl' p_id cs,
      getChangeSet p_id tbl = Some cs →
      insert_all inserts tbl = Commit tbl' →
      getChangeSet p_id tbl' = Some cs).
Proof.
  split; [|split].
  - intros now entropy values tbl tbl'
      (row & Hrows & _ & Hmod & Htag)%insert_change_set_Commit.
    exists row. by rewrite length_gen_random_bytes.
  - intros inserts tbl0 tbl p_id cs Hempty Hrun Hget.
    assert (tags_match tbl) as Htags.
    { apply (insert_all_tags inserts tbl0); [|done].
      unfold tags_match. rewrite Hempty. constructor. }
    unfold getChangeSet in Hget.
    destruct (find _ (rdf_change_set tbl)) as [row|] eqn:Hfind; [|done].
    injection Hget as <-. apply find_some in Hfind as [Hin _].
    unfold tags_match in Htags. rewrite Forall_forall in Htags.
    by apply Htags, list_elem_of_In.
  - intros inserts tbl tbl' p_id cs. apply insert_all_getChangeSet.
Qed.

Example countries_insert :
  insert_change_set 1700000000 some_bytes countries no_change_sets = Commit countries_inserted.
Proof. vm_compute. reflexivity. Qed.

Lemma change_set_entity_tag_witness :
  rdf_change_set no_change_sets = []
  ∧ insert_all [(1700000000, some_bytes, countries)] no_change_sets = Commit countries_inserted
  ∧ getChangeSet 1 countries_inserted
    = Some {| cs_id := 1; cs_effective := 1586044800; cs_notes := Some "Countries"%string;
              lastModified := 1700000000; entityTag := "009fa0ff3c7e7e7e7e7e" |}
  ∧ matches_entity_tag "009fa0ff3c7e7e7e7e7e" = true.
Proof.
  assert (insert_all [(1700000000, some_bytes, countries)] no_change_sets
          = Commit countries_inserted) as Hrun by (vm_compute; reflexivity).
  split; [reflexivity|]. split; [exact Hrun|]. split; [reflexivity|].
  destruct change_set_entity_tag as (_ & Hmatch & _).
  exact (Hmatch [(1700000000, some_bytes, countries)] no_change_sets countries_inserted 1
           _ eq_refl Hrun eq_refl).
Defined.

End change_set_facts.

(** * Properties of the query API *)

Section query_facts.
Import ChangeSet Query.

(** The rows of the test 'should list projections', ordered by (name,
    version): CGT Rates comes first. *)
Example lists_projections_by_name_version :
  getProjections listed_projections
  = [ projection_row 3 "CGT Rates" 1; projection_row 1 "VAT Rates" 1;
      projection_row 2 "VAT Rates" 2 ].
Proof. vm_compute. reflexivity. Qed.

Example should_list_change_sets :
  getChangeLog (projection_row 1 "VAT Rates" 1) listed_change_sets
  = toChangeSet <$> [ change_set_row 1 1586044800 "Countries";
                      change_set_row 2 1586044800 "2020 VAT Rates";
                      change_set_row 4 1617580800 "2021 VAT Rates" ].
Proof. vm_compute. reflexivity. Qed.

Example should_dedupe_change_sets :
  getChangeLog (projection_row 1 "VAT Rates" 1) one_change_set_many_frames
  = [ toChangeSet (change_set_row 1 1586044800 "Everything") ].
Proof. vm_compute. reflexivity. Qed.

(** ** The change log *)

Lemma change_log_rows_elem p_projection_id s c :
  c ∈ change_log_rows p_projection_id s ↔
    c ∈ rdf_change_set s ∧ has_frame_for p_projection_id s c.
Proof.
  unfold change_log_rows, has_frame_for. rewrite list_elem_of_bind. split.
  - intros (pe & (f & (c' & Hc & Hc')%list_elem_of_bind & Hf)%list_elem_of_bind & Hpe).
    destruct (bool_decide (_ = p_projection_id)) eqn:H1; [|by apply elem_of_nil in Hc].
    destruct (bool_decide (data_frame.entity_id f = _)) eqn:H2; [|by apply elem_of_nil in Hc].
    destruct (bool_decide (id c' = _)) eqn:H3; [|by apply elem_of_nil in Hc].
    apply bool_decide_eq_true in H1, H2, H3. simpl in Hc.
    apply list_elem_of_singleton in Hc as ->. split; [done|]. by exists pe, f.
  - intros (Hc & pe & f & Hpe & Hf & H1 & H2 & H3).
    exists pe. split; [|done]. apply list_elem_of_bind. exists f. split; [|done].
    apply list_elem_of_bind. exists c. split; [|done].
    rewrite !bool_decide_eq_true_2 by done. simpl. by apply list_elem_of_singleton.
Qed.

Lemma distinct_on_id_elem seen rows c :
  c ∈ distinct_on_id seen rows → c ∈ rows ∧ id c ∉ seen.
Proof.
  revert seen. induction rows as [|r rows IH]; simpl; intros seen Hc;
    [by apply elem_of_nil in Hc|].
  case_bool_decide as Hseen.
  - apply IH in Hc as [? ?]. split; [by right|done].
  - apply elem_of_cons in Hc as [->|Hc]; [split; [left|done]|].
    apply IH in Hc as [? Hn]. split; [by right|].
    intros Hin. apply Hn. by right.
Qed.

Lemma distinct_on_id_ids seen rows c :
  c ∈ rows → id c ∉ seen → id c ∈ id <$> distinct_on_id seen rows.
Proof.
  revert seen. induction rows as [|r rows IH]; simpl; intros seen Hc Hseen;
    [by apply elem_of_nil in Hc|].
  apply elem_of_cons in Hc as [<-|Hc].
  - rewrite bool_decide_eq_false_2 by done. rewrite fmap_cons. left.
  - case_bool_decide as Hr; [by apply IH|]. rewrite fmap_cons.
    destruct (decide (id c = id r)) as [->|Hne]; [left|]. right.
    apply IH; [done|]. by intros [?|?]%elem_of_cons.
Qed.

Lemma distinct_on_id_NoDup seen rows : NoDup (id <$> distinct_on_id seen rows).
Proof.
  revert seen. induction rows as [|r rows IH]; simpl; intros seen; [constructor|].
  case_bool_decide as Hr; [apply IH|]. rewrite fmap_cons. constructor; [|apply IH].
  intros (c & Hid & Hc)%list_elem_of_fmap. apply distinct_on_id_elem in Hc as [_ Hn].
  apply Hn. rewrite Hid. left.
Qed.

#[local] Instance effective_id_le_total : Total effective_id_le.
Proof. intros c1 c2. unfold effective_id_le. lia. Qed.

#[local] Instance effective_id_le_trans : Transitive effective_id_le.
Proof. intros c1 c2 c3. unfold effective_id_le. lia. Qed.

Lemma StronglySorted_strict (l : list change_set) :
  StronglySorted effective_id_le l →
  NoDup (id <$> l) →
  StronglySorted (λ c1 c2, before (toChangeSet c1) (toChangeSet c2)) l.
Proof.
  induction 1 as [|c l Hl IH Hall]; [constructor|].
  rewrite fmap_cons. intros [Hc Hnd]%NoDup_cons. constructor; [auto|].
  rewrite Forall_forall in Hall. apply Forall_forall. intros c' Hc'.
  assert (id c ≠ id c') as Hne.
  { intros Heq. apply Hc. rewrite Heq. by apply list_elem_of_fmap_2. }
  specialize (Hall c' Hc'). unfold effective_id_le in Hall. unfold before. simpl. lia.
Qed.

(** C3: the change log of a projection holds only change sets of the table
    that contain a data frame for an entity of the projection, holds every
    such change set, is sorted by (effective ASC, id ASC), and holds every
    change-set id at most once. *)
Theorem getChangeLog_sorted_distinct (projection : Notification.projection.t) (s : store) :
  (∀ c, c ∈ getChangeLog projection s →
      ∃ row, c = toChangeSet row ∧ row ∈ rdf_change_set s
        ∧ has_frame_for (Notification.projection.id projection) s row)
  ∧ (∀ row, row ∈ rdf_change_set s →
      has_frame_for (Notification.projection.id projection) s row →
      id row ∈ cs_id <$> getChangeLog projection s)
  ∧ (NoDup (id <$> rdf_change_set s) →
      ∀ row, row ∈ rdf_change_set s →
        has_frame_for (Notification.projection.id projection) s row →
        toChangeSet row ∈ getChangeLog projection s)
  ∧ StronglySorted before (getChangeLog projection s)
  ∧ NoDup (cs_id <$> getChangeLog projection s).
Proof.
  unfold getChangeLog.
  set (rows := change_log_rows (Notification.projection.id projection) s).
  pose proof (merge_sort_Permutation effective_id_le (distinct_on_id [] rows)) as Hperm.
  assert (∀ c, c ∈ merge_sort effective_id_le (distinct_on_id [] rows) →
            c ∈ rdf_change_set s
            ∧ has_frame_for (Notification.projection.id projection) s c) as Hsound.
  { intros c Hc. rewrite Hperm in Hc. apply distinct_on_id_elem in Hc as [Hc _].
    by apply change_log_rows_elem. }
  assert (∀ row, row ∈ rdf_change_set s →
            has_frame_for (Notification.projection.id projection) s row →
            id row ∈ id <$> merge_sort effective_id_le (distinct_on_id [] rows)) as Hcomplete.
  { intros row Hrow Hframe. rewrite Hperm. apply distinct_on_id_ids.
    - by apply change_log_rows_elem.
    - apply not_elem_of_nil. }
  assert (NoDup (id <$> merge_sort effective_id_le (distinct_on_id [] rows))) as Hnd.
  { rewrite Hperm. apply distinct_on_id_NoDup. }
  split; [|split; [|split; [|split]]].
  - intros c (row & -> & Hrow)%list_elem_of_fmap. exists row.
    split; [done|]. by apply Hsound.
  - intros row Hrow Hframe. rewrite <- list_fmap_compose.
    by apply Hcomplete.
  - intros Hpk row Hrow Hframe.
    pose proof (Hcomplete row Hrow Hframe) as (row' & Hid & Hrow')%list_elem_of_fmap.
    apply list_elem_of_fmap. exists row'. split; [|done]. f_equal.
    apply (NoDup_fmap_inj_on id (rdf_change_set s)); [done..| |done].
    by apply Hsound.
  - apply (StronglySorted_fmap toChangeSet
             (λ c1 c2, before (toChangeSet c1) (toChangeSet c2)) before); [done|].
    apply StronglySorted_strict; [|done].
    apply StronglySorted_merge_sort; apply _.
  - by rewrite <- list_fmap_compose.
Qed.

Lemma getChangeLog_sorted_distinct_witness :
  NoDup (id <$> rdf_change_set listed_change_sets)
  ∧ change_set_row 4 1617580800 "2021 VAT Rates" ∈ rdf_change_set listed_change_sets
  ∧ has_frame_for 1 listed_change_sets (change_set_row 4 1617580800 "2021 VAT Rates")
  ∧ toChangeSet (change_set_row 4 1617580800 "2021 VAT Rates")
    ∈ getChangeLog (projection_row 1 "VAT Rates" 1) listed_change_sets.
Proof.
  assert (NoDup (id <$> rdf_change_set listed_change_sets)) as Hpk
    by (apply (bool_decide_unpack _); vm_compute; exact I).
  assert (change_set_row 4 1617580800 "2021 VAT Rates" ∈ rdf_change_set listed_change_sets)
    as Hrow by (apply (bool_decide_unpack _); vm_compute; exact I).
  assert (has_frame_for 1 listed_change_sets (change_set_row 4 1617580800 "2021 VAT Rates"))
    as Hframe.
  { exists (depends 1 2), (frame 4 4 2 POST).
    split; [apply (bool_decide_unpack _); vm_compute; exact I|].
    split; [apply (bool_decide_unpack _); vm_compute; exact I|].
    repeat split. }
  split; [exact Hpk|]. split; [exact Hrow|]. split; [exact Hframe|].
  destruct (getChangeLog_sorted_distinct (projection_row 1 "VAT Rates" 1) listed_change_sets)
    as (_ & _ & Hin & _).
  exact (Hin Hpk _ Hrow Hframe).
Defined.

(** ** The list of projections *)

Lemma ltb_compare (a b : string) : String.ltb a b = true ↔ String.compare a b = Lt.
Proof. unfold String.ltb. by destruct (String.compare a b). Qed.


Lemma ltb_trans (a b c : string) :
  String.ltb a b = true → String.ltb b c = true → String.ltb a c = true.
Proof.
  rewrite !ltb_compare.
  change String.compare with OrderedTypeEx.String_as_OT.cmp.
  rewrite !OrderedTypeEx.String_as_OT.cmp_lt.
  apply OrderedTypeEx.String_as_OT.lt_trans.
Qed.

#[local] Instance name_version_le_total : Total name_version_le.
Proof.
  intros p q. unfold name_version_le, String.ltb.
  destruct (String.compare (Notification.projection.name p) (Notification.projection.name q))
    eqn:Hcmp.
  - apply String.compare_eq_iff in Hcmp.
    destruct (Z.le_ge_cases (Notification.projection.version p)
                            (Notification.projection.version q)); [left|right]; right.
    + done.
    + split; [done|lia].
  - by left; left.
  - right; left. rewrite String.compare_antisym, Hcmp. done.
Qed.

#[local] Instance name_version_le_trans : Transitive name_version_le.
Proof.
  intros p q r [Hpq|[Hpq Hv]] [Hqr|[Hqr Hv']]; unfold name_version_le.
  - left. by apply (ltb_trans _ (Notification.projection.name q)).
  - left. by rewrite <- Hqr.
  - left. by rewrite Hpq.
  - right. split; [congruence|lia].
Qed.


End query_facts.

(** * Properties of the aggregates *)

Section aggregate_facts.
Import ChangeSet Query Aggregate.
Context {value : Type} `{Countable value}.

Implicit Types (h : list (entry value)) (k : list (option value)).

#[local] Instance entry_le_total : Total (@entry_le value).
Proof. intros e1 e2. unfold entry_le. lia. Qed.

#[local] Instance entry_le_trans : Transitive (@entry_le value).
Proof. intros e1 e2 e3. unfold entry_le. lia. Qed.

(** ** The history *)

Lemma frames_upto_elem E (side : list (side_row value)) C s e :
  e ∈ frames_upto E side C s ↔
    ∃ c f r, c ∈ rdf_change_set s ∧ f ∈ rdf_data_frame s ∧ r ∈ side
      ∧ data_frame.change_set_id f = id c
      ∧ data_frame.entity_id f = entity_id E
      ∧ rdf_frame_id r = data_frame.id f
      ∧ effective_id_le c C
      ∧ e = {| entry_effective := effective c;
               entry_change_set := id c;
               entry_frame := data_frame.id f;
               entry_action := data_frame.action f;
               identifier := identifier_of E r;
               payload := non_identifier_fields E r |}.
Proof.
  unfold frames_upto. rewrite list_elem_of_bind. split.
  - intros (c & (f & (r & He & Hr)%list_elem_of_bind & Hf)%list_elem_of_bind & Hc).
    destruct (bool_decide (data_frame.change_set_id f = _)) eqn:H1;
      [|by apply elem_of_nil in He].
    destruct (bool_decide (data_frame.entity_id f = _)) eqn:H2;
      [|by apply elem_of_nil in He].
    destruct (bool_decide (rdf_frame_id r = _)) eqn:H3; [|by apply elem_of_nil in He].
    destruct (bool_decide (effective_id_le c C)) eqn:H4; [|by apply elem_of_nil in He].
    apply bool_decide_eq_true in H1, H2, H3, H4. simpl in He.
    apply list_elem_of_singleton in He. by exists c, f, r.
  - intros (c & f & r & Hc & Hf & Hr & H1 & H2 & H3 & H4 & ->).
    exists c. split; [|done]. apply list_elem_of_bind. exists f. split; [|done].
    apply list_elem_of_bind. exists r. split; [|done].
    rewrite !bool_decide_eq_true_2 by done. simpl. by apply list_elem_of_singleton.
Qed.

Lemma history_sorted E (side : list (side_row value)) p_change_set_id s :
  StronglySorted entry_le (history E side p_change_set_id s).
Proof.
  unfold history. destruct (find _ (rdf_change_set s)); [|constructor].
  apply StronglySorted_merge_sort; apply _.
Qed.

Lemma history_elem E (side : list (side_row value)) p_change_set_id s C e :
  find (λ c, bool_decide (id c = p_change_set_id)) (rdf_change_set s) = Some C →
  e ∈ history E side p_change_set_id s ↔ e ∈ frames_upto E side C s.
Proof.
  intros HC. unfold history. rewrite HC. by rewrite merge_sort_Permutation.
Qed.

(** ** Replaying a history *)

Lemma last_frame_snoc k h e :
  last_frame k (h ++ [e]) = if decide (identifier e = k) then Some e else last_frame k h.
Proof.
  unfold last_frame. rewrite filter_app, filter_cons, filter_nil.
  case_decide; [by rewrite last_snoc|by rewrite app_nil_r].
Qed.

Lemma last_frame_Some k h e :
  last_frame k h = Some e → e ∈ h ∧ identifier e = k.
Proof.
  unfold last_frame. intros Hlast.
  assert (e ∈ filter (λ e, identifier e = k) h) as Hin.
  { destruct (filter _ h) as [|x l] using rev_ind; [done|].
    rewrite last_snoc in Hlast. injection Hlast as ->.
    apply elem_of_app. right. by apply list_elem_of_singleton. }
  apply list_elem_of_filter in Hin. tauto.
Qed.

Lemma foldl_replay_lookup h k :
  foldl replay ∅ h !! k
  = e ← last_frame k h;
    match entry_action e with POST => Some (payload e) | DELETE => None end.
Proof.
  induction h as [|e h IH] using rev_ind; [simpl; by rewrite lookup_empty|].
  rewrite foldl_snoc, last_frame_snoc. unfold replay at 1.
  case_decide as Hk.
  - subst k. simpl. destruct (entry_action e).
    + by rewrite lookup_insert_eq.
    + by rewrite lookup_delete_eq.
  - destruct (entry_action e).
    + by rewrite lookup_insert_ne.
    + by rewrite lookup_delete_ne.
Qed.

(** ** The rows of the aggregate *)

Lemma get_aggregate_elem E (side : list (side_row value)) p_change_set_id s k v :
  (k, v) ∈ get_aggregate E side p_change_set_id s ↔
    ∃ e, last_frame k (history E side p_change_set_id s) = Some e
      ∧ entry_action e = POST ∧ v = payload e.
Proof.
  unfold get_aggregate. rewrite list_elem_of_omap. split.
  - intros (k' & _ & Hrow).
    destruct (last_frame k' _) as [e|] eqn:Hlast; [|done]. simpl in Hrow.
    destruct (entry_action e) eqn:Hact; [|done].
    injection Hrow as -> <-. by exists e.
  - intros (e & Hlast & Hact & ->). exists k. split.
    + apply elem_of_remove_dups. apply last_frame_Some in Hlast as [He <-].
      by apply list_elem_of_fmap_2.
    + rewrite Hlast. simpl. by rewrite Hact.
Qed.

Lemma omap_keys_NoDup {A B : Type} (f : A → option (A * B)) (l : list A) :
  (∀ x y, f x = Some y → y.1 = x) → NoDup l → NoDup (omap f l).*1.
Proof.
  intros Hf. induction 1 as [|x l Hx Hl IH]; [constructor|]. simpl.
  destruct (f x) as [y|] eqn:Hfx; [|done]. rewrite fmap_cons. constructor; [|done].
  rewrite (Hf x y Hfx).
  intros (z & Hz & (x' & Hx' & Hfx')%list_elem_of_omap)%list_elem_of_fmap.
  apply Hx. by rewrite Hz, (Hf x' z Hfx').
Qed.

Lemma get_aggregate_NoDup E (side : list (side_row value)) p_change_set_id s :
  NoDup (get_aggregate E side p_change_set_id s).*1.
Proof.
  unfold get_aggregate. apply omap_keys_NoDup; [|apply NoDup_remove_dups].
  intros k [k' v] Hrow.
  destruct (last_frame k _) as [e|]; [|done]. simpl in Hrow.
  destruct (entry_action e); [|done]. by injection Hrow as -> _.
Qed.

(** C1: the aggregate of an entity at a change set has one row per identifier
    tuple whose last frame in the history is a POST, holding the
    non-identifier fields of that frame; the history is made of the frames of
    the entity in the change sets up to the given one, in (effective, id)
    order; and the aggregate is the fold of that history, keyed by the
    identifier tuple, DELETE removing. *)
Theorem get_aggregate_is_fold_of_history E (side : list (side_row value))
    p_change_set_id s :
  list_to_map (get_aggregate E side p_change_set_id s)
  = fold_history E side p_change_set_id s
  ∧ NoDup (get_aggregate E side p_change_set_id s).*1
  ∧ (∀ k v, (k, v) ∈ get_aggregate E side p_change_set_id s ↔
        ∃ e, last_frame k (history E side p_change_set_id s) = Some e
          ∧ entry_action e = POST ∧ v = payload e)
  ∧ StronglySorted entry_le (history E side p_change_set_id s)
  ∧ (∀ C e,
        find (λ c, bool_decide (id c = p_change_set_id)) (rdf_change_set s) = Some C →
        e ∈ history E side p_change_set_id s ↔
          ∃ c f r, c ∈ rdf_change_set s ∧ f ∈ rdf_data_frame s ∧ r ∈ side
            ∧ data_frame.change_set_id f = id c
            ∧ data_frame.entity_id f = entity_id E
            ∧ rdf_frame_id r = data_frame.id f
            ∧ effective_id_le c C
            ∧ e = {| entry_effective := effective c;
                     entry_change_set := id c;
                     entry_frame := data_frame.id f;
                     entry_action := data_frame.action f;
                     identifier := identifier_of E r;
                     payload := non_identifier_fields E r |}).
Proof.
  split; [|split; [apply get_aggregate_NoDup|split; [apply get_aggregate_elem|split]]].
  - apply map_eq. intros k. unfold fold_history. rewrite foldl_replay_lookup.
    pose proof (get_aggregate_NoDup E side p_change_set_id s) as Hnd.
    destruct (last_frame k _) as [e|] eqn:Hlast; simpl.
    + destruct (entry_action e) eqn:Hact.
      * apply elem_of_list_to_map; [done|]. apply get_aggregate_elem. by exists e.
      * apply not_elem_of_list_to_map.
        intros ([k' v] & Hk & (e' & Hlast' & Hact' & _)%get_aggregate_elem)%list_elem_of_fmap.
        simpl in Hk. subst k'. congruence.
    + apply not_elem_of_list_to_map.
      intros ([k' v] & Hk & (e' & Hlast' & _)%get_aggregate_elem)%list_elem_of_fmap.
      simpl in Hk. subst k'. congruence.
  - apply history_sorted.
  - intros C e HC. rewrite (history_elem _ _ _ _ C) by done. apply frames_upto_elem.
Qed.

End aggregate_facts.

Section aggregate_scenarios.
Import ChangeSet Query Aggregate.

Example aggregate_at_first_change_set :
  readable (get_aggregate vat_rate_v1 vat_rate_rows 1 vat_rates)
  = [ rate_of "standard" "0.10"; rate_of "reduced" "0.05"; rate_of "zero" "0" ].
Proof. vm_compute. reflexivity. Qed.

Example aggregate_after_delete :
  readable (get_aggregate vat_rate_v1 vat_rate_rows 3 vat_rates)
  = [ rate_of "standard" "0.15"; rate_of "reduced" "0.10" ].
Proof. vm_compute. reflexivity. Qed.

Lemma get_aggregate_is_fold_of_history_witness :
  find (λ c, bool_decide (id c = 3)) (rdf_change_set vat_rates)
  = Some (change_set_row 3 1649116800 "2022 VAT Rates")
  ∧ fold_history vat_rate_v1 vat_rate_rows 3 vat_rates
    = list_to_map (get_aggregate vat_rate_v1 vat_rate_rows 3 vat_rates)
  ∧ readable (get_aggregate vat_rate_v1 vat_rate_rows 3 vat_rates)
    = [ rate_of "standard" "0.15"; rate_of "reduced" "0.10" ].
Proof.
  split; [reflexivity|].
  destruct (get_aggregate_is_fold_of_history vat_rate_v1 vat_rate_rows 3 vat_rates)
    as (Hfold & _).
  split; [exact (eq_sym Hfold)|vm_compute; reflexivity].
Defined.

End aggregate_scenarios.

(** * Properties of the document validator *)

Section dsl_facts.
Import Dsl.

Lemma string_app_assoc (a b c : string) : (a +:+ b) +:+ c = a +:+ (b +:+ c).
Proof.
  induction a as [|x a IH]; [done|].
  change (String x ((a +:+ b) +:+ c) = String x (a +:+ (b +:+ c))). by rewrite IH.
Qed.

(** ** The messages of a validation are those of the violations *)

Lemma each_item_elem check pointer i vs message :
  message ∈ each_item check pointer i vs ↔
    ∃ j v, vs !! j = Some v ∧ message ∈ check (child pointer (pretty (i + j)%nat)) v.
Proof.
  revert i. induction vs as [|x vs IH]; intros i; simpl.
  - split; [by intros ?%elem_of_nil|]. by intros (j & v & Hj & _).
  - rewrite elem_of_app, IH. split.
    + intros [Hx|(j & v & Hj & Hv)].
      * exists 0%nat, x. by rewrite Nat.add_0_r.
      * exists (S j), v. by rewrite Nat.add_succ_r.
    + intros ([|j] & v & Hj & Hv); simpl in Hj.
      * left. injection Hj as ->. by rewrite Nat.add_0_r in Hv.
      * right. exists j, v. by rewrite Nat.add_succ_r in Hv.
Qed.

Lemma missing_required_elem pointer entries required message :
  message ∈ missing_required pointer entries required ↔
    ∃ key shown, (key, shown) ∈ required ∧ property_of key entries = None
      ∧ message = must_have pointer shown.
Proof.
  unfold missing_required. rewrite list_elem_of_bind. split.
  - intros ([key shown] & Hm & Hr). simpl in Hm.
    destruct (property_of key entries) eqn:Hp; [by apply elem_of_nil in Hm|].
    apply list_elem_of_singleton in Hm. by exists key, shown.
  - intros (key & shown & Hr & Hp & ->). exists (key, shown). simpl.
    rewrite Hp. split; [by apply list_elem_of_singleton|done].
Qed.

Lemma missing_dependent_elem pointer entries dependent message :
  message ∈ missing_dependent pointer entries dependent ↔
    ∃ key key', (key, key') ∈ dependent ∧ is_Some (property_of key entries)
      ∧ property_of key' entries = None
      ∧ message = must_have pointer (quoted key').2.
Proof.
  unfold missing_dependent. rewrite list_elem_of_bind. split.
  - intros ([key key'] & Hm & Hd). simpl in Hm.
    destruct (property_of key entries) eqn:Hp; [|by apply elem_of_nil in Hm].
    destruct (property_of key' entries) eqn:Hp'; [by apply elem_of_nil in Hm|].
    apply list_elem_of_singleton in Hm. exists key, key'. by rewrite Hp.
  - intros (key & key' & Hd & [x Hp] & Hp' & ->). exists (key, key'). simpl.
    rewrite Hp, Hp'. split; [by apply list_elem_of_singleton|done].
Qed.

Lemma validate_violation_mutual :
  (∀ s pointer v message,
      message ∈ validate s pointer v ↔ violation s pointer v message)
  ∧ (∀ props pointer entries message,
      message ∈ validate_properties props pointer entries ↔
        ∃ key s x, has_property props key s ∧ property_of key entries = Some x
          ∧ violation s (child pointer key) x message).
Proof.
  assert (∀ s : schema,
    (λ s, ∀ pointer v message,
       message ∈ validate s pointer v ↔ violation s pointer v message) s) as Hschema.
  { apply (schema_properties_ind
      (λ s, ∀ pointer v message,
         message ∈ validate s pointer v ↔ violation s pointer v message)
      (λ props, ∀ pointer entries message,
         message ∈ validate_properties props pointer entries ↔
           ∃ key s x, has_property props key s ∧ property_of key entries = Some x
             ∧ violation s (child pointer key) x message)).
    - intros pointer v message. simpl. split; [by intros ?%elem_of_nil|].
      intros Hv. inversion Hv.
    - intros allowed pointer v message. simpl. split.
      + intros Hm. destruct v as [|text|vs|entries];
          try (apply list_elem_of_singleton in Hm as ->; by constructor).
        case_bool_decide as Hin; [by apply elem_of_nil in Hm|].
        apply list_elem_of_singleton in Hm as ->. constructor. by intros ? [= <-].
      + intros Hv. inversion Hv as [| | |? ? ? Hnot| |]; subst.
        destruct v as [|text|vs|entries]; try by apply list_elem_of_singleton.
        rewrite bool_decide_eq_false_2 by (by apply Hnot).
        by apply list_elem_of_singleton.
    - intros items IH pointer v message. simpl. split.
      + intros Hm. destruct v as [|text|vs|entries];
          try (apply list_elem_of_singleton in Hm as ->; by constructor).
        apply each_item_elem in Hm as (j & x & Hj & Hx). simpl in Hx.
        apply (in_item items pointer vs j x); [done|]. by apply IH.
      + intros Hv. inversion Hv as [| |? ? ? Hnot| |? ? vs j x ? Hj Hx|]; subst.
        * destruct v as [|text|vs|entries]; try by apply list_elem_of_singleton.
          by destruct (Hnot vs).
        * apply each_item_elem. exists j, x. split; [done|]. by apply IH.
    - intros required dependent props IH pointer v message. simpl.
      rewrite !elem_of_app, missing_required_elem, missing_dependent_elem, IH. split.
      + intros [(key & shown & Hr & Hp & ->)|[(key & key' & Hd & Hp & Hp' & ->)
               |(key & s & x & Hk & Hp & Hx)]].
        * by apply (required_missing _ _ _ _ _ key).
        * by apply (dependent_missing _ _ _ _ _ key).
        * by apply (in_property _ _ _ _ _ key s x).
      + intros Hv.
        inversion Hv as [? ? ? ? ? key shown Hr Hp|? ? ? ? ? key key' Hd Hp Hp'| | |
                         |? ? ? ? ? key s x ? Hk Hp Hx]; subst.
        * left. by exists key, shown.
        * right; left. by exists key, key'.
        * right; right. by exists key, s, x.
    - intros pointer entries message. simpl. split; [by intros ?%elem_of_nil|].
      intros (key & s & x & Hk & _). inversion Hk.
    - intros key s IHs rest IHrest pointer entries message. simpl.
      rewrite elem_of_app, IHrest. split.
      + intros [Hm|(key' & s' & x & Hk & Hp & Hx)].
        * destruct (property_of key entries) as [x|] eqn:Hp; [|by apply elem_of_nil in Hm].
          exists key, s, x. split; [constructor|]. split; [done|]. by apply IHs.
        * exists key', s', x. split; [by constructor|done].
      + intros (key' & s' & x & Hk & Hp & Hx).
        inversion Hk as [|? ? ? ? ? Hk']; subst.
        * left. rewrite Hp. by apply IHs.
        * right. by exists key', s', x. }
  split; [exact Hschema|].
  induction props as [|key s rest IH]; intros pointer entries message; simpl.
  - split; [by intros ?%elem_of_nil|]. intros (key & s & x & Hk & _). inversion Hk.
  - rewrite elem_of_app, IH. split.
    + intros [Hm|(key' & s' & x & Hk & Hp & Hx)].
      * destruct (property_of key entries) as [x|] eqn:Hp; [|by apply elem_of_nil in Hm].
        exists key, s, x. split; [constructor|]. split; [done|]. by apply Hschema.
      * exists key', s', x. split; [by constructor|done].
    + intros (key' & s' & x & Hk & Hp & Hx).
      inversion Hk as [|? ? ? ? ? Hk']; subst.
      * left. rewrite Hp. by apply Hschema.
      * right. by exists key', s', x.
Qed.

Lemma validate_violation s pointer v message :
  message ∈ validate s pointer v ↔ violation s pointer v message.
Proof. apply validate_violation_mutual. Qed.

(** ** The form of the messages *)

Lemma violation_message_form s pointer v message :
  violation s pointer v message →
  ∃ path rest, message = pointer +:+ path +:+ " must " +:+ rest
    ∧ (path = EmptyString ∨ ∃ p, path = "/" +:+ p).
Proof.
  induction 1 as [required dependent props pointer v key shown Hr Hp
                 |required dependent props pointer v key key' Hd Hp Hp'
                 |items pointer v Hnot
                 |allowed pointer v Hnot
                 |items pointer vs i v message Hi Hv IH
                 |required dependent props pointer v key s x message Hk Hp Hv IH].
  - exists EmptyString, ("have required property " +:+ shown). split; [done|by left].
  - exists EmptyString, ("have required property " +:+ (quoted key').2).
    split; [done|by left].
  - exists EmptyString, "be an array". split; [done|by left].
  - exists EmptyString,
      ("be equal to one of the allowed values: " +:+ comma_separated allowed).
    split; [done|by left].
  - destruct IH as (path & rest & -> & _).
    exists ("/" +:+ pretty i +:+ path), rest. split; [|right; eauto].
    unfold child. by rewrite !string_app_assoc.
  - destruct IH as (path & rest & -> & _).
    exists ("/" +:+ key +:+ path), rest. split; [|right; eauto].
    unfold child. by rewrite !string_app_assoc.
Qed.

Lemma validate_document_elem doc message :
  message ∈ validate_document doc ↔
    ∃ step index item, step ∈ doc ∧ step.2 !! index = Some item
      ∧ violation (schema_of step.1) (item_pointer step.1 index) item message.
Proof.
  unfold validate_document, validate_instruction. rewrite list_elem_of_bind. split.
  - intros (step & (j & item & Hj & Hm)%each_item_elem & Hstep).
    exists step, j, item. split; [done|]. split; [done|]. by apply validate_violation.
  - intros (step & index & item & Hstep & Hitem & Hv). exists step. split; [|done].
    apply each_item_elem. exists index, item. split; [done|]. by apply validate_violation.
Qed.

Lemma validate_document_well_formed doc :
  Forall well_formed (validate_document doc).
Proof.
  apply Forall_forall. intros message
    (step & index & item & _ & _ & Hv)%validate_document_elem.
  apply violation_message_form in Hv as (path & rest & -> & Hpath).
  exists step.1, index, path, rest. split; [|done].
  unfold item_pointer, child. by rewrite !string_app_assoc.
Qed.

(** ** Rejected documents *)

Section apply_facts.
Context {statement database : Type}.
Context (emit : instruction → yaml → list statement).
Context (execute : statement → database → outcome database).

Lemma apply_document_rejected doc db :
  validate_document doc ≠ [] →
  compile emit doc = inl (validate_document doc)
  ∧ apply_document emit execute doc db = (ValidationError (validate_document doc), db).
Proof.
  intros Hne. unfold apply_document, compile.
  by destruct (validate_document doc).
Qed.

(** C6: a document one of whose items misses a required property, has a
    value that is not an array where an array is required, or has a value
    outside an enumeration, is rejected by the validation, before any SQL is
    emitted: the error holds the message of the violation, every message has
    the form [/<instruction>/<index>[/path] must ...], the messages are those
    of the validation of the document, and the database is left as it was. *)
Theorem invalid_document_is_rejected (doc : document) (db : database)
    (step : instruction * list yaml) (index : nat) (item : yaml) (message : string) :
  step ∈ doc →
  step.2 !! index = Some item →
  violation (schema_of step.1) (item_pointer step.1 index) item message →
  ∃ messages,
    apply_document emit execute doc db = (ValidationError messages, db)
    ∧ compile emit doc = inl messages
    ∧ messages = validate_document doc
    ∧ message ∈ messages
    ∧ Forall well_formed messages.
Proof.
  intros Hstep Hitem Hv.
  assert (message ∈ validate_document doc) as Hin.
  { apply validate_document_elem. by exists step, index, item. }
  assert (validate_document doc ≠ []) as Hne.
  { intros Hnil. rewrite Hnil in Hin. by apply elem_of_nil in Hin. }
  destruct (apply_document_rejected doc db Hne) as [Hcompile Happly].
  exists (validate_document doc). split; [done|]. split; [done|]. split; [done|].
  split; [done|]. apply validate_document_well_formed.
Qed.

End apply_facts.

End dsl_facts.

Section dsl_scenarios.
Import Dsl.

Example change_set_tests_rejected : forallb shows rejected_change_sets = true.
Proof. vm_compute. reflexivity. Qed.

Example projection_tests_rejected : forallb shows rejected_projections = true.
Proof. vm_compute. reflexivity. Qed.

Example entity_tests_rejected : forallb shows rejected_entities = true.
Proof. vm_compute. reflexivity. Qed.

Example hook_tests_rejected : forallb shows rejected_hooks = true.
Proof. vm_compute. reflexivity. Qed.

Example missing_effective_messages :
  validate_document
    [ (add_change_set,
        [ Map [ ("frames", Null) ];
          Map [ field "entity" "VAT Rate"; field "version" "1"; field "action" "POST";
                ("data", standard_rate) ] ]) ]
  = [ "/add_change_set/0 must have required property 'effective'";
      "/add_change_set/0/frames must be an array";
      "/add_change_set/1 must have required property 'effective'";
      "/add_change_set/1 must have required property 'frames'" ].
Proof. vm_compute. reflexivity. Qed.

Example valid_documents :
  validate_document vat_rates_with_hooks = []
  ∧ validate_document vat_rates_change_set = [].
Proof. split; vm_compute; reflexivity. Qed.

(** The document that lacks [effective], applied to a database that logs the
    statements it executes. *)
Lemma invalid_document_is_rejected_witness :
  (add_change_set, [ Map [ ("frames", Null) ] ]) ∈ one_change_set [ ("frames", Null) ]
  ∧ [ Map [ ("frames", Null) ] ] !! 0%nat = Some (Map [ ("frames", Null) ])
  ∧ violation change_set_schema (item_pointer add_change_set 0) (Map [ ("frames", Null) ])
      "/add_change_set/0 must have required property 'effective'"
  ∧ ∃ messages,
      apply_document (λ i _, [instruction_name i]) (λ st db, Commit (db ++ [st]))
        (one_change_set [ ("frames", Null) ]) []
      = (ValidationError messages, [])
      ∧ "/add_change_set/0 must have required property 'effective'" ∈ messages.
Proof.
  assert ((add_change_set, [ Map [ ("frames", Null) ] ])
          ∈ one_change_set [ ("frames", Null) ]) as Hstep by left.
  assert (violation change_set_schema (item_pointer add_change_set 0)
            (Map [ ("frames", Null) ])
            "/add_change_set/0 must have required property 'effective'") as Hv.
  { apply (required_missing _ _ _ (item_pointer add_change_set 0) _ "effective" "'effective'").
    - left.
    - reflexivity. }
  split; [exact Hstep|]. split; [reflexivity|]. split; [exact Hv|].
  destruct (invalid_document_is_rejected
              (λ i _, [instruction_name i]) (λ st (db : list string), Commit (db ++ [st]))
              (one_change_set [ ("frames", Null) ]) []
              (add_change_set, [ Map [ ("frames", Null) ] ]) 0
              (Map [ ("frames", Null) ])
              "/add_change_set/0 must have required property 'effective'"
              Hstep eq_refl Hv)
    as (messages & Happly & _ & _ & Hin & _).
  exists messages. split; [exact Happly|exact Hin].
Defined.

End dsl_scenarios.

(** * More on the notification queue *)

Section queue_facts.
Import Notification Cascade.

Lemma filter_all {A : Type} (P : A → Prop) `{∀ x, Decision (P x)} (l : list A) :
  (∀ x, x ∈ l → P x) → filter P l = l.
Proof.
  induction l as [|x l IH]; intros Hl; [done|].
  rewrite filter_cons_True by (apply Hl; left). f_equal.
  apply IH. intros y Hy. apply Hl. by right.
Qed.

Lemma with_notifications_same db : with_notifications db (fby_notification db) = db.
Proof. by destruct db. Qed.


(** ** An id that names no row *)

Lemma unknown_id_rows now p_id p_scheduled_for p_error (rows : list notification) :
  find (λ m, bool_decide (id m = p_id)) rows = None →
  pass_rows now p_id rows = rows
  ∧ fail_rows now p_id p_scheduled_for p_error rows = rows.
Proof.
  intros Hnone. pose proof (find_id_None _ _ Hnone) as Habs.
  unfold pass_rows, fail_rows, select_hook_id. rewrite Hnone. simpl.
  assert (delete_ok None rows = rows) as ->.
  { apply filter_all. by intros n _ [? _]. }
  split; by apply update_where_id_absent.
Qed.

Lemma unknown_id_commits now p_id p_scheduled_for p_error db :
  consistent db →
  lookup_id p_id db = None →
  fby_pass_notification now p_id db = Commit db
  ∧ fby_fail_notification now p_id p_scheduled_for p_error db = Commit db.
Proof.
  intros Hc Hnone.
  pose proof (find_id_None _ _ Hnone) as Habs.
  destruct (unknown_id_rows now p_id (default 0 p_scheduled_for) p_error _ Hnone)
    as [Hpass Hfail].
  assert (write_notifications db (fby_notification db) = Commit db) as Hsame.
  { rewrite consistent_write; by rewrite with_notifications_same. }
  split.
  - rewrite pass_notification_commits; [|done|by intros n Hn Hid; destruct (Habs n Hn)].
    by rewrite Hpass, with_notifications_same.
  - unfold fby_fail_notification. cbv zeta.
    rewrite (proj2 (in_range_rows p_id _)) by (by intros n Hn Hid; destruct (Habs n Hn)).
    destruct p_scheduled_for as [scheduled|]; simpl in *.
    + by rewrite Hfail.
    + rewrite (proj2 (existsb_false _ _)); [done|].
      intros n Hn. apply bool_decide_eq_false_2. by apply Habs.
Qed.

(** X1: passing or failing an id that names no notification is not an error
    and changes nothing. *)
Theorem unknown_notification_is_ignored now p_id p_scheduled_for p_error db :
  consistent db →
  lookup_id p_id db = None →
  fby_pass_notification now p_id db = Commit db
  ∧ fby_fail_notification now p_id p_scheduled_for p_error db = Commit db.
Proof. apply unknown_id_commits. Qed.

(** ** Failing changes one row *)

Lemma update_where_id_find_ne (p_id i : Z) (f : notification → notification)
    (rows : list notification) :
  i ≠ p_id →
  (∀ n, id (f n) = id n) →
  find (λ m, bool_decide (id m = i)) (update_where_id p_id f rows)
  = find (λ m, bool_decide (id m = i)) rows.
Proof.
  intros Hne Hf. unfold update_where_id.
  induction rows as [|n rows IH]; [done|]. rewrite fmap_cons. simpl.
  destruct (decide (id n = p_id)) as [Hn|Hn].
  - rewrite (bool_decide_eq_true_2 (id n = p_id)) by done.
    rewrite !bool_decide_eq_false_2 by (rewrite ?Hf; congruence). apply IH.
  - rewrite (bool_decide_eq_false_2 (id n = p_id)) by done.
    destruct (bool_decide (id n = i)); [done|apply IH].
Qed.

(** X2: a committed [fby_fail_notification] neither adds nor removes a row,
    changes no row's id, hook, projection or status, and leaves every row
    other than the one with the given id as it was. *)
Theorem fail_notification_touches_one_row now p_id p_scheduled_for p_error db db' :
  fby_fail_notification now p_id p_scheduled_for p_error db = Commit db' →
  length (fby_notification db') = length (fby_notification db)
  ∧ id <$> fby_notification db' = id <$> fby_notification db
  ∧ uniq_key <$> fby_notification db' = uniq_key <$> fby_notification db
  ∧ (∀ i, i ≠ p_id → lookup_id i db' = lookup_id i db)
  ∧ fby_hook db' = fby_hook db
  ∧ fby_notification_id_seq db' = fby_notification_id_seq db.
Proof.
  intros [(-> & _)%write_notifications_Commit _]%fail_notification_Commit.
  unfold lookup_id, fail_rows. simpl. split_and!; [| | | |done..].
  - unfold update_where_id. by rewrite length_fmap.
  - by apply update_where_id_ids.
  - by apply (update_where_id_fmap_same uniq_key).
  - intros i Hi. by apply update_where_id_find_ne.
Qed.

(** ** Scheduling for a hook or a projection that does not exist *)





(** ** Dequeuing *)

Lemma find_None_iff {A : Type} (f : A → bool) (l : list A) :
  find f l = None ↔ ∀ x, x ∈ l → f x = false.
Proof.
  split.
  - intros Hnone x Hx. by apply (find_none f l Hnone), list_elem_of_In.
  - intros Hall. destruct (find f l) as [x|] eqn:Hfind; [|done].
    apply find_some in Hfind as [Hx Hfx]. apply list_elem_of_In in Hx.
    rewrite (Hall x Hx) in Hfx. done.
Qed.

Lemma find_Some_first {A : Type} (f : A → bool) (l : list A) (x : A) :
  find f l = Some x →
  ∃ l1 l2, l = l1 ++ x :: l2 ∧ f x = true ∧ ∀ y, y ∈ l1 → f y = false.
Proof.
  induction l as [|y l IH]; simpl; [done|].
  destruct (f y) eqn:Hy.
  - intros [= ->]. exists [], l. split; [done|]. split; [done|].
    by intros ? ?%elem_of_nil.
  - intros (l1 & l2 & -> & Hx & Hl1)%IH. exists (y :: l1), l2.
    split; [done|]. split; [done|]. intros z [->|Hz]%elem_of_cons; auto.
Qed.

Lemma find_Permutation_None {A : Type} (f : A → bool) (l k : list A) :
  l ≡ₚ k → find f l = None ↔ find f k = None.
Proof.
  intros Hperm. rewrite !find_None_iff. by setoid_rewrite Hperm.
Qed.

(** X4: [fby_get_next_notification] returns no row exactly when every due
    row is locked by another transaction; a row it returns is a due row of
    the table that is not locked. Whether a row is returned does not depend
    on the order of the scan, and when exactly one row is due and not locked,
    that row is returned whatever the order. *)
Theorem get_next_notification_skips_locked_rows now p_max_attempts locked db :
  (fby_get_next_notification now p_max_attempts locked db = None ↔
      ∀ n, n ∈ fby_notification db → due now p_max_attempts n = true →
           locked (id n) = true)
  ∧ (∀ r, fby_get_next_notification now p_max_attempts locked db = Some r →
      ∃ n, n ∈ fby_notification db
        ∧ next_id r = id n ∧ next_hook_id r = hook_id n
        ∧ due now p_max_attempts n = true ∧ locked (id n) = false)
  ∧ (∀ rows, rows ≡ₚ fby_notification db →
      fby_get_next_notification now p_max_attempts locked (with_notifications db rows) = None
      ↔ fby_get_next_notification now p_max_attempts locked db = None)
  ∧ (∀ rows n,
      rows ≡ₚ fby_notification db →
      n ∈ fby_notification db →
      due now p_max_attempts n = true → locked (id n) = false →
      (∀ m, m ∈ fby_notification db → due now p_max_attempts m = true →
            locked (id m) = false → m = n) →
      fby_get_next_notification now p_max_attempts locked (with_notifications db rows)
      = Some {| next_id := id n; next_hook_id := hook_id n;
                next_attempts := sql_succ (attempts n) |}).
Proof.
  unfold fby_get_next_notification. split_and!.
  - rewrite fmap_None, find_None_iff. split.
    + intros Hall n Hn Hdue. specialize (Hall n Hn). rewrite Hdue in Hall.
      simpl in Hall. by apply negb_false_iff in Hall.
    + intros Hall n Hn. destruct (due now p_max_attempts n) eqn:Hdue; [|done].
      simpl. by rewrite (Hall n Hn Hdue).
  - intros r Hr. destruct (find _ (fby_notification db)) as [n|] eqn:Hfind; [|done].
    injection Hr as <-. apply find_some in Hfind as [Hn Hdue].
    apply list_elem_of_In in Hn.
    apply andb_prop in Hdue as [Hdue Hlock]. apply negb_true_iff in Hlock.
    by exists n.
  - intros rows Hperm. simpl. rewrite !fmap_None. by apply find_Permutation_None.
  - intros rows n Hperm Hn Hdue Hlock Honly. simpl.
    destruct (find _ rows) as [m|] eqn:Hfind.
    + apply find_some in Hfind as [Hm Hm']. apply list_elem_of_In in Hm.
      rewrite Hperm in Hm.
      apply andb_prop in Hm' as [Hmdue Hmlock]. apply negb_true_iff in Hmlock.
      by rewrite (Honly m Hm Hmdue Hmlock).
    + rewrite find_None_iff in Hfind. rewrite <- Hperm in Hn.
      specialize (Hfind n Hn). simpl in Hfind. by rewrite Hdue, Hlock in Hfind.
Qed.


(** ** Only the latest success of a hook is kept *)

Lemma filter_singleton_by {A K : Type} (f : A → K) (P : A → Prop) `{∀ x, Decision (P x)}
    (l : list A) (x : A) :
  NoDup (f <$> l) → x ∈ l → P x → (∀ y, y ∈ l → P y → f y = f x) →
  filter P l = [x].
Proof.
  induction l as [|z l IH]; intros Hnd Hx HPx Hall; [by apply elem_of_nil in Hx|].
  rewrite fmap_cons in Hnd. apply NoDup_cons in Hnd as [Hz Hnd].
  apply elem_of_cons in Hx as [<-|Hx].
  - rewrite filter_cons_True by done. f_equal. apply filter_none.
    intros y Hy HPy. apply Hz. rewrite <- (Hall y) by (by right || done).
    by apply list_elem_of_fmap_2.
  - rewrite filter_cons_False.
    + apply IH; [done..|]. intros y Hy. apply Hall. by right.
    + intros HPz. apply Hz. rewrite (Hall z) by (by left || done).
      by apply list_elem_of_fmap_2.
Qed.

Lemma pass_rows_other_hooks now p_id (rows : list notification) (h : Z) :
  (∀ m, m ∈ rows → id m = p_id → hook_id m = h) →
  select_hook_id p_id rows = Some h ∨ select_hook_id p_id rows = None →
  filter (λ m, hook_id m ≠ h) (pass_rows now p_id rows)
  = filter (λ m, hook_id m ≠ h) rows.
Proof.
  intros Hid Hsel. unfold pass_rows.
  generalize dependent (select_hook_id p_id rows). intros v Hv.
  induction rows as [|m rows IH]; [done|].
  assert (∀ m', m' ∈ rows → id m' = p_id → hook_id m' = h) as Hid'.
  { intros m' Hm'. apply Hid. by right. }
  unfold delete_ok in *. rewrite filter_cons. case_decide as Hkeep.
  - unfold update_where_id in *. rewrite fmap_cons. case_bool_decide as Hm.
    + assert (hook_id m = h) as Hh by (apply Hid; [left|done]).
      rewrite !filter_cons_False by (simpl; intros Hne; by apply Hne). by apply IH.
    + destruct (decide (hook_id m ≠ h)).
      * rewrite !filter_cons_True by done. f_equal. by apply IH.
      * rewrite !filter_cons_False by done. by apply IH.
  - rewrite filter_cons_False; [by apply IH|].
    intros Hne. destruct Hkeep as [Heq _]. destruct Hv as [->| ->]; congruence.
Qed.

(** X6: after a PENDING notification whose attempts are below the largest
    [INTEGER] is passed, the OK rows of its hook are that one row, whatever
    projections the earlier successes of the hook were for, and the rows of
    the other hooks are as before. *)
Theorem pass_notification_keeps_latest_success now p_id db n :
  consistent db →
  lookup_id p_id db = Some n →
  status n = PENDING →
  (∀ a, attempts n = Some a → a < int4_max) →
  ∃ db', fby_pass_notification now p_id db = Commit db'
    ∧ filter (λ m, hook_id m = hook_id n ∧ status m = OK) (fby_notification db')
      = [passed now n]
    ∧ filter (λ m, hook_id m ≠ hook_id n) (fby_notification db')
      = filter (λ m, hook_id m ≠ hook_id n) (fby_notification db).
Proof.
  intros Hc Hn Hst Hrange. eexists. split.
  { apply pass_notification_commits; [done|]. intros m Hm Hmid.
    by rewrite (lookup_id_only p_id db n m) by (done || by destruct Hc). }
  pose proof (pass_rows_consistent now p_id db Hc) as (Hids' & _).
  destruct Hc as (Hids & _). simpl in *.
  unfold lookup_id in Hn. pose proof (find_id_Some _ _ _ Hn) as [Hin Hid].
  assert (select_hook_id p_id (fby_notification db) = Some (hook_id n)) as Hsel.
  { unfold select_hook_id. by rewrite Hn. }
  assert (∀ m, m ∈ fby_notification db → id m = p_id → m = n) as Hsame.
  { intros m Hm Hmid. apply (NoDup_fmap_inj_on id (fby_notification db)); congruence. }
  split.
  - apply (filter_singleton_by id); [done| |done|].
    + unfold pass_rows. apply update_where_id_elem. right. exists n.
      split; [|done]. apply delete_ok_elem. split; [done|]. intros [_ Hok]. congruence.
    + intros m Hm [Hhook Hok]. unfold pass_rows in Hm.
      apply update_where_id_elem in Hm as [[Hm _]|(m' & Hm' & Hmid & ->)].
      * apply delete_ok_elem in Hm as [_ Hkeep]. destruct Hkeep.
        by rewrite Hsel, Hhook.
      * simpl. apply delete_ok_elem in Hm' as [Hm' _]. by rewrite (Hsame m' Hm' Hmid).
  - apply pass_rows_other_hooks; [|by left].
    intros m Hm Hmid. by rewrite (Hsame m Hm Hmid).
Qed.

(** X7: a notification that [fby_get_next_notification] returned and that was
    then passed is never returned again; [p_max_attempts] is an [INTEGER]. *)
Theorem passed_notification_is_not_dequeued_again now p_max_attempts locked db r :
  consistent db →
  p_max_attempts ≤ int4_max →
  fby_get_next_notification now p_max_attempts locked db = Some r →
  ∀ now', ∃ db', fby_pass_notification now' (next_id r) db = Commit db'
    ∧ ∀ now'' p_max_attempts' locked' r',
        fby_get_next_notification now'' p_max_attempts' locked' db' = Some r' →
        next_id r' ≠ next_id r.
Proof.
  intros Hc Hmax (n & a & Hn & -> & Hst & _ & Ha & Hlt & _)%get_next_notification_Some now'.
  simpl. eexists. split.
  { apply pass_notification_commits; [done|]. intros m Hm Hmid b Hb.
    assert (m = n) as -> by (apply (NoDup_fmap_inj_on id (fby_notification db));
                             [by destruct Hc|done..]).
    rewrite Ha in Hb. injection Hb as <-. lia. }
  intros now'' p_max_attempts' locked' r'
    (m & b & Hm & -> & Hstm & _)%get_next_notification_Some.
  simpl in *. intros Hid.
  destruct Hc as (Hids & _). unfold pass_rows in Hm.
  apply update_where_id_elem in Hm as [[_ Hne]|(m' & _ & _ & ->)]; [done|].
  simpl in Hstm. done.
Qed.

(** ** Failing again and again *)

Lemma fail_notification_lookup now p_id p_scheduled_for p_error db n :
  lookup_id p_id db = Some n →
  lookup_id p_id (with_notifications db
    (fail_rows now p_id p_scheduled_for p_error (fby_notification db)))
  = Some (failed now p_scheduled_for p_error n).
Proof.
  unfold lookup_id, fail_rows. simpl. intros Hn.
  rewrite update_where_id_find by done. by rewrite Hn.
Qed.

(** X8: failing a notification [k] times in a row, each time with its own
    clock, next schedule and error, adds [k] to its attempts and leaves its
    status, as long as the attempts stay within the [INTEGER]s; once the
    attempts have reached the maximum the row is no longer returned by
    [fby_get_next_notification]. A series that would take the attempts
    beyond the largest [INTEGER] raises. *)
Theorem repeated_failures_poison_the_notification p_id
    (failures : list (Z * Z * option string)) db n a :
  consistent db →
  lookup_id p_id db = Some n →
  attempts n = Some a →
  (a + Z.of_nat (length failures) ≤ int4_max →
    ∃ db' n',
      run ((λ f, fail_notification f.1.1 p_id (Some f.1.2) f.2) <$> failures) db
      = Commit db'
      ∧ lookup_id p_id db' = Some n'
      ∧ attempts n' = Some (a + Z.of_nat (length failures))
      ∧ status n' = status n
      ∧ ∀ now p_max_attempts locked r,
          p_max_attempts ≤ a + Z.of_nat (length failures) →
          fby_get_next_notification now p_max_attempts locked db' = Some r →
          next_id r ≠ p_id)
  ∧ (a ≤ int4_max → int4_max < a + Z.of_nat (length failures) →
      run ((λ f, fail_notification f.1.1 p_id (Some f.1.2) f.2) <$> failures) db
      = Raise numeric_value_out_of_range).
Proof.
  revert db n a. induction failures as [|[[now sched] err] failures IH];
    intros db n a Hc Hn Ha.
  - split; [|simpl; lia]. intros _.
    exists db, n. simpl. split; [done|]. split; [done|].
    split; [by rewrite Z.add_0_r|]. split; [done|].
    intros now p_max_attempts locked r Hmax Hr. simpl in Hmax.
    apply find_id_Some in Hn as [Hin <-].
    apply (get_next_notification_skips_poisoned now p_max_attempts locked db n a r);
      [by destruct Hc|done|done|lia|done].
  - rewrite fmap_cons. cbn [run exec fst snd].
    replace (a + Z.of_nat (length (((now, sched), err) :: failures)))
      with (a + 1 + Z.of_nat (length failures)) by (simpl length; lia).
    destruct (decide (a < int4_max)) as [Hlt|Hge].
    + rewrite fail_notification_commits; [|done|].
      2: { intros m Hm Hmid b Hb.
           rewrite (lookup_id_only p_id db n m) in Hb by (done || by destruct Hc).
           congruence. }
      cbn [outcome_bind].
      destruct (IH _ (failed now sched err n) (a + 1)
                  (fail_rows_consistent now p_id sched err db Hc)
                  (fail_notification_lookup now p_id sched err db n Hn))
        as [Hcommit Hraise].
      { simpl. by rewrite Ha. }
      split; [done|]. intros _ Hover. apply Hraise; lia.
    + split; [lia|]. intros _ _.
      apply find_id_Some in Hn as [Hin Hid]. unfold fby_fail_notification. cbv zeta.
      rewrite (out_of_range_rows p_id _ n a) by (done || lia). done.
Qed.

(** ** What every run keeps *)

Lemma exec_tables c db db' :
  exec c db = Commit db' →
  fby_hook db' = fby_hook db
  ∧ fby_projection db' = fby_projection db
  ∧ fby_entity db' = fby_entity db
  ∧ fby_projection_entity db' = fby_projection_entity db
  ∧ fby_notification_id_seq db ≤ fby_notification_id_seq db'.
Proof.
  assert (∀ now targets db db', schedule_all now targets db = Commit db' →
            fby_hook db' = fby_hook db
            ∧ fby_projection db' = fby_projection db
            ∧ fby_entity db' = fby_entity db
            ∧ fby_projection_entity db' = fby_projection_entity db
            ∧ fby_notification_id_seq db ≤ fby_notification_id_seq db') as Hall.
  { intros now targets. induction targets as [|[h p] targets IH]; simpl; intros d d' Hrun.
    - injection Hrun as <-. split_and!; done || lia.
    - destruct (fby_schedule_notification now h p d) as [d1|e] eqn:Hstep; [|done].
      simpl in Hrun. apply IH in Hrun as (-> & -> & -> & -> & Hle).
      unfold fby_schedule_notification in Hstep.
      apply write_notifications_Commit in Hstep as (-> & _). simpl in *.
      split_and!; done || lia. }
  destruct c as [now h p|now name version|now p_id|now p_id sched err]; simpl.
  - unfold fby_schedule_notification.
    intros (-> & _)%write_notifications_Commit. simpl. split_and!; done || lia.
  - apply Hall.
  - intros (-> & _)%pass_notification_Commit%write_notifications_Commit.
    simpl. split_and!; done || lia.
  - intros [(-> & _)%write_notifications_Commit _]%fail_notification_Commit.
    simpl. split_and!; done || lia.
Qed.

Lemma run_tables cs db0 db :
  run cs db0 = Commit db →
  fby_hook db = fby_hook db0
  ∧ fby_projection db = fby_projection db0
  ∧ fby_entity db = fby_entity db0
  ∧ fby_projection_entity db = fby_projection_entity db0
  ∧ fby_notification_id_seq db0 ≤ fby_notification_id_seq db.
Proof.
  revert db0. induction cs as [|c cs IH]; simpl; intros db0 Hrun.
  - injection Hrun as <-. split_and!; done || lia.
  - destruct (exec c db0) as [db1|e] eqn:Hstep; [|done]. simpl in Hrun.
    apply IH in Hrun as (-> & -> & -> & -> & Hle).
    apply exec_tables in Hstep as (-> & -> & -> & -> & Hle'). split_and!; done || lia.
Qed.

(** X9: every run of schedule, notify, pass and fail from a table that
    satisfies its constraints leaves a table that satisfies them: ids and
    (hook, projection, status) triples are unique, every row refers to an
    existing hook and projection, and the sequence is ahead of every id; no
    row gets a NULL attempts; the sequence never goes back. *)
Theorem run_keeps_the_queue_consistent cs db0 db :
  consistent db0 →
  Forall (λ n, is_Some (attempts n)) (fby_notification db0) →
  run cs db0 = Commit db →
  consistent db
  ∧ Forall (λ n, is_Some (attempts n)) (fby_notification db)
  ∧ fby_notification_id_seq db0 ≤ fby_notification_id_seq db.
Proof.
  intros Hc Hatt Hrun. split; [by apply (run_consistent cs db0)|].
  split; [by apply (run_attempts cs db0)|]. by apply run_tables in Hrun as (_ & _ & _ & _ & ?).
Qed.

(** ** [fby_notify] *)







(** ** Runs that commit *)






(** ** Scheduling again renames the notification *)


(** ** Deleting hooks and projections *)

Lemma filter_rows_consistent (P : notification → Prop) `{∀ n, Decision (P n)} db
    (hooks : list hook.t) (projections : list projection.t) pes :
  consistent db →
  (∀ n, n ∈ fby_notification db → P n → hook_id n ∈ hook.id <$> hooks) →
  (∀ n, n ∈ fby_notification db → P n → projection_id n ∈ projection.id <$> projections) →
  consistent {| fby_projection := projections;
                fby_entity := fby_entity db;
                fby_projection_entity := pes;
                fby_hook := hooks;
                fby_notification := filter P (fby_notification db);
                fby_notification_id_seq := fby_notification_id_seq db |}.
Proof.
  intros (Hids & Hkeys & _ & _ & Hseq) Hhooks Hprojs.
  repeat split; simpl.
  - by apply NoDup_fmap_filter.
  - by apply NoDup_fmap_filter.
  - apply Forall_forall. intros n [HP Hn]%list_elem_of_filter. by apply Hhooks.
  - apply Forall_forall. intros n [HP Hn]%list_elem_of_filter. by apply Hprojs.
  - apply Forall_forall. intros n [HP Hn]%list_elem_of_filter.
    rewrite Forall_forall in Hseq. by apply Hseq.
Qed.

Lemma elem_of_fmap_filter_split {A K : Type} `{EqDecision K} (f : A → K) (P : A → Prop)
    `{∀ x, Decision (P x)} (l : list A) (k : K) :
  k ∈ f <$> l → k ∉ f <$> filter P l → k ∈ f <$> filter (λ x, ¬ P x) l.
Proof.
  intros (x & -> & Hx)%list_elem_of_fmap Hnot.
  apply list_elem_of_fmap. exists x. split; [done|]. apply list_elem_of_filter.
  split; [|done]. intros HP. apply Hnot. apply list_elem_of_fmap_2.
  by apply list_elem_of_filter.
Qed.

(** X13: deleting hooks deletes the notifications whose hook is among the
    deleted ones and no other, and the table that is left satisfies its
    constraints. *)
Theorem delete_hooks_cascades (doomed : hook.t → bool) db :
  consistent db →
  consistent (delete_hooks doomed db)
  ∧ (∀ n, n ∈ fby_notification (delete_hooks doomed db) ↔
        n ∈ fby_notification db
        ∧ ∀ hk, hk ∈ fby_hook db → hook.id hk = hook_id n → doomed hk = false)
  ∧ (∀ hk, hk ∈ fby_hook (delete_hooks doomed db) ↔ hk ∈ fby_hook db ∧ doomed hk = false).
Proof.
  intros Hc. split_and!.
  - unfold delete_hooks. apply filter_rows_consistent; [done| |].
    + intros n Hn Hkeep. destruct Hc as (_ & _ & Hhooks & _).
      rewrite Forall_forall in Hhooks.
      pose proof (elem_of_fmap_filter_split hook.id (λ h, doomed h = true)
                    (fby_hook db) (hook_id n) (Hhooks n Hn) Hkeep) as Hin.
      done.
    + intros n Hn _. destruct Hc as (_ & _ & _ & Hprojs & _).
      rewrite Forall_forall in Hprojs. by apply Hprojs.
  - intros n. unfold delete_hooks. simpl. rewrite list_elem_of_filter. split.
    + intros [Hkeep Hn]. split; [done|]. intros hk Hhk Hid.
      destruct (doomed hk) eqn:Hd; [|done]. destruct Hkeep.
      rewrite <- Hid. apply list_elem_of_fmap_2. by apply list_elem_of_filter.
    + intros [Hn Hall]. split; [|done].
      intros (hk & Hid & [Hd Hhk]%list_elem_of_filter)%list_elem_of_fmap.
      rewrite (Hall hk Hhk (eq_sym Hid)) in Hd. done.
  - intros hk. unfold delete_hooks. simpl. rewrite list_elem_of_filter.
    split.
    + intros [Hd Hhk]. split; [done|]. by destruct (doomed hk).
    + intros [Hhk Hd]. split; [by rewrite Hd|done].
Qed.

(** X14: deleting projections deletes the notifications of the deleted
    projections and of the hooks bound to them, leaves no hook bound to a
    deleted projection and no dependency of one, and the table that is left
    satisfies its constraints. *)
Theorem delete_projections_cascades (doomed : projection.t → bool) db :
  consistent db →
  let gone := projection.id <$> filter (λ p, doomed p = true) (fby_projection db) in
  consistent (delete_projections doomed db)
  ∧ (∀ n, n ∈ fby_notification (delete_projections doomed db) →
        n ∈ fby_notification db ∧ projection_id n ∉ gone)
  ∧ (∀ hk p, hk ∈ fby_hook (delete_projections doomed db) →
        hook.projection_id hk = Some p → p ∉ gone)
  ∧ (∀ pe, pe ∈ fby_projection_entity (delete_projections doomed db) →
        projection_entity.projection_id pe ∉ gone)
  ∧ (∀ n, n ∈ fby_notification db → projection_id n ∉ gone →
        (∀ hk, hk ∈ fby_hook db → hook.id hk = hook_id n → ¬ bound_to gone hk) →
        n ∈ fby_notification (delete_projections doomed db)).
Proof.
  intros Hc gone. split_and!.
  - unfold delete_projections. apply filter_rows_consistent; [done| |].
    + intros n Hn [_ Hkeep]. destruct Hc as (_ & _ & Hhooks & _).
      rewrite Forall_forall in Hhooks.
      exact (elem_of_fmap_filter_split hook.id (bound_to gone)
               (fby_hook db) (hook_id n) (Hhooks n Hn) Hkeep).
    + intros n Hn [Hkeep _]. destruct Hc as (_ & _ & _ & Hprojs & _).
      rewrite Forall_forall in Hprojs.
      exact (elem_of_fmap_filter_split projection.id (λ p, doomed p = true)
               (fby_projection db) (projection_id n) (Hprojs n Hn) Hkeep).
  - intros n. unfold delete_projections. simpl. rewrite list_elem_of_filter.
    by intros [[? _] ?].
  - intros hk p. unfold delete_projections. simpl. rewrite list_elem_of_filter.
    intros [Hfree _] Hp Hin. apply Hfree. unfold bound_to. by rewrite Hp.
  - intros pe. unfold delete_projections. simpl. rewrite list_elem_of_filter.
    by intros [? _].
  - intros n Hn Hp Hhooks. unfold delete_projections. simpl.
    apply list_elem_of_filter. split; [|done]. split; [done|].
    intros (hk & Hid & [Hbound Hhk]%list_elem_of_filter)%list_elem_of_fmap.
    by apply (Hhooks hk Hhk (eq_sym Hid)).
Qed.

End queue_facts.

(** * More on the change-set table *)

Section change_set_more.
Import ChangeSet.

(** The id an insert gives its row: the one of the statement, or the next
    value of the sequence. *)
Lemma insert_change_set_cases now entropy values tbl :
  let row_id := default (rdf_change_set_id_seq tbl) (new_id values) in
  let next := if new_id values is Some _ then rdf_change_set_id_seq tbl
              else rdf_change_set_id_seq tbl + 1 in
  insert_change_set now entropy values tbl =
    match new_effective values with
    | None => Raise (not_null_violation "effective")
    | Some e =>
        if bool_decide (row_id ∈ id <$> rdf_change_set tbl)
        then Raise (unique_violation "rdf_change_set_pkey")
        else Commit {| rdf_change_set :=
                         rdf_change_set tbl
                         ++ [ {| id := row_id; effective := e; notes := new_notes values;
                                 last_modified := now;
                                 entity_tag := encode_hex (gen_random_bytes 10 entropy) |} ];
                       rdf_change_set_id_seq := next |}
    end.
Proof.
  unfold insert_change_set.
  destruct (new_id values); simpl; by destruct (new_effective values).
Qed.

(** X15: the order of the checks of an insert into the change-set table,
    for an id that is an [INTEGER] or is left to a sequence within the
    [INTEGER]s. The trigger runs first: [last_modified] and [entity_tag]
    need not be given, and what is given for them is replaced. A missing
    effective date then raises its not-null violation, also when the id is
    taken; with an effective date, an id that is taken raises the unique
    violation of the primary key. *)
Theorem insert_change_set_checks_effective_before_id now entropy values tbl :
  integer (default (rdf_change_set_id_seq tbl) (new_id values)) →
  (new_effective values = None →
      insert_change_set now entropy values tbl = Raise (not_null_violation "effective"))
  ∧ (is_Some (new_effective values) →
     default (rdf_change_set_id_seq tbl) (new_id values) ∈ id <$> rdf_change_set tbl →
      insert_change_set now entropy values tbl
      = Raise (unique_violation "rdf_change_set_pkey"))
  ∧ (∀ modified tag,
      insert_change_set now entropy
        {| new_id := new_id values; new_effective := new_effective values;
           new_notes := new_notes values; new_last_modified := modified;
           new_entity_tag := tag |} tbl
      = insert_change_set now entropy values tbl).
Proof.
  intros _. split_and!.
  - intros He. by rewrite insert_change_set_cases, He.
  - intros [e He] Hin. rewrite insert_change_set_cases, He. cbv zeta.
    by rewrite bool_decide_eq_true_2.
  - intros modified tag. by rewrite !insert_change_set_cases.
Qed.

(** ** SERIAL ids *)

Lemma insert_default_id now entropy values tbl e :
  new_id values = None →
  new_effective values = Some e →
  Forall (λ row, id row < rdf_change_set_id_seq tbl) (rdf_change_set tbl) →
  ∃ row, insert_change_set now entropy values tbl
         = Commit {| rdf_change_set := rdf_change_set tbl ++ [row];
                     rdf_change_set_id_seq := rdf_change_set_id_seq tbl + 1 |}
    ∧ id row = rdf_change_set_id_seq tbl.
Proof.
  intros Hid He Hseq. rewrite insert_change_set_cases, Hid, He. simpl.
  rewrite bool_decide_eq_false_2; [by eexists|].
  intros (row & Hrow & Hin)%list_elem_of_fmap.
  rewrite Forall_forall in Hseq. specialize (Hseq row Hin). lia.
Qed.

(** X16: when the sequence is ahead of every id of the table and stays
    within the [INTEGER]s, a series of inserts that give an effective date
    and leave the id to the sequence never raises: the new rows get the next
    values of the sequence in order, and the ids stay unique. *)
Theorem serial_ids_never_collide inserts tbl :
  NoDup (id <$> rdf_change_set tbl) →
  Forall (λ row, id row < rdf_change_set_id_seq tbl) (rdf_change_set tbl) →
  Forall (λ i, new_id i.2 = None ∧ is_Some (new_effective i.2)) inserts →
  rdf_change_set_id_seq tbl + Z.of_nat (length inserts) ≤ int4_max + 1 →
  ∃ tbl', insert_all inserts tbl = Commit tbl'
    ∧ id <$> rdf_change_set tbl'
      = (id <$> rdf_change_set tbl)
        ++ seqZ (rdf_change_set_id_seq tbl) (Z.of_nat (length inserts))
    ∧ NoDup (id <$> rdf_change_set tbl')
    ∧ rdf_change_set_id_seq tbl' = rdf_change_set_id_seq tbl + Z.of_nat (length inserts).
Proof.
  intros Hnd Hseq Hall _. revert tbl Hnd Hseq Hall.
  induction inserts as [|[[now entropy] values] inserts IH];
    intros tbl Hnd Hseq Hall.
  - exists tbl. simpl. rewrite seqZ_nil by lia. rewrite app_nil_r. split_and!; done || lia.
  - apply Forall_cons in Hall as [[Hid [e He]] Hall]. simpl in Hid, He.
    destruct (insert_default_id now entropy values tbl e Hid He Hseq)
      as (row & Hstep & Hrow).
    destruct (IH {| rdf_change_set := rdf_change_set tbl ++ [row];
                    rdf_change_set_id_seq := rdf_change_set_id_seq tbl + 1 |})
      as (tbl' & Hrun & Hids & Hnd' & Hnext); simpl.
    + rewrite fmap_app. apply NoDup_app. split_and!; [done| |apply NoDup_singleton].
      intros i (r & -> & Hr)%list_elem_of_fmap [= Hi]%list_elem_of_singleton.
      rewrite Forall_forall in Hseq. specialize (Hseq r Hr). lia.
    + apply Forall_app. split.
      * eapply Forall_impl; [exact Hseq|]. simpl. intros. lia.
      * apply Forall_singleton. lia.
    + done.
    + exists tbl'. simpl. rewrite Hstep. simpl. split; [done|].
      simpl in Hids, Hnext. split_and!; [|done|lia].
      rewrite Hids, fmap_app, <- app_assoc. f_equal. simpl.
      rewrite (seqZ_cons (rdf_change_set_id_seq tbl)) by lia. rewrite Hrow.
      f_equal. f_equal; lia.
Qed.


(** ** The entity tag carries its random bytes *)

Lemma byte_of_digits :
  ∃ g : ascii → ascii → byte,
    ∀ b, g (hex_digit (Byte.to_N b / 16)) (hex_digit (Byte.to_N b mod 16)) = b.
Proof.
  exists (λ c1 c2,
    let value c := (if (N_of_ascii c <? 58)%N then N_of_ascii c - 48
                    else N_of_ascii c - 87)%N in
    default x00 (Byte.of_N (16 * value c1 + value c2))).
  intros b. destruct b; vm_compute; reflexivity.
Qed.

Lemma encode_hex_inj bytes1 bytes2 :
  encode_hex bytes1 = encode_hex bytes2 → bytes1 = bytes2.
Proof.
  destruct byte_of_digits as [g Hg].
  revert bytes2. induction bytes1 as [|b1 bytes1 IH]; intros [|b2 bytes2]; simpl;
    [done|done|done|].
  intros [= H1 H2 Hrest]. f_equal; [|by apply IH].
  by rewrite <- (Hg b1), <- (Hg b2), H1, H2.
Qed.

(** X18: the entity tag that the trigger gives a row carries all of its
    random bytes: the tags of two inserts are equal exactly when their ten
    random bytes are equal, whatever the rows and the times of the inserts. *)
Theorem entity_tags_differ_with_their_bytes now1 now2 (entropy1 entropy2 : nat → byte)
    NEW1 NEW2 :
  new_entity_tag (rdf_on_new_change_set now1 entropy1 NEW1)
  = new_entity_tag (rdf_on_new_change_set now2 entropy2 NEW2)
  ↔ ∀ i, (i < 10)%nat → entropy1 i = entropy2 i.
Proof.
  unfold rdf_on_new_change_set. cbn [new_entity_tag]. split.
  - intros Heq i Hi.
    assert (encode_hex (gen_random_bytes 10 entropy1)
            = encode_hex (gen_random_bytes 10 entropy2)) as Henc by congruence.
    clear Heq. apply encode_hex_inj in Henc as Heq. unfold gen_random_bytes in Heq.
    assert (seq 0 10 !! i = Some i) as Hlook by (by apply lookup_seq).
    pose proof (f_equal (λ l, l !! i) Heq) as Hi'. cbv beta in Hi'.
    rewrite !list_lookup_fmap, Hlook in Hi'. simpl in Hi'. by injection Hi'.
  - intros Hall. do 2 f_equal. unfold gen_random_bytes. apply list_fmap_ext.
    intros j i Hi. apply Hall. apply lookup_seq in Hi. lia.
Qed.

End change_set_more.

(** * The park routes *)

Section park_facts.
Import Park.

(** ** The dictionary as a map *)

Lemma get_set_eq key v d : get key (set key v d) = Some v.
Proof.
  induction d as [|[k v'] d IH]; simpl.
  - by rewrite bool_decide_eq_true_2.
  - case_bool_decide as Hk; simpl.
    + by rewrite bool_decide_eq_true_2.
    + by rewrite bool_decide_eq_false_2.
Qed.

Lemma get_set_ne key key' v d : key ≠ key' → get key' (set key v d) = get key' d.
Proof.
  intros Hne. induction d as [|[k v'] d IH]; simpl.
  - by rewrite bool_decide_eq_false_2.
  - case_bool_decide as Hk; simpl.
    + subst k. by rewrite !bool_decide_eq_false_2.
    + by rewrite IH.
Qed.

Lemma get_None key (d : dictionary) : get key d = None ↔ key ∉ d.*1.
Proof.
  induction d as [|[k v] d IH]; simpl.
  - split; [intros _; apply not_elem_of_nil|done].
  - case_bool_decide as Hk.
    + subst k. split; [done|]. intros Hnot. destruct Hnot. left.
    + rewrite IH, not_elem_of_cons. split; [by intros ?|by intros [_ ?]].
Qed.

Lemma set_keys key v (d : dictionary) :
  (set key v d).*1 = if decide (key ∈ d.*1) then d.*1 else d.*1 ++ [key].
Proof.
  induction d as [|[k v'] d IH].
  - destruct (decide _) as [Hin|_]; [by apply elem_of_nil in Hin|done].
  - cbn [set]. case_bool_decide as Hk.
    + subst k. rewrite !fmap_cons. simpl. rewrite decide_True; [done|left].
    + rewrite !fmap_cons, IH. simpl. destruct (decide (key ∈ d.*1)) as [Hin|Hnot].
      * rewrite decide_True; [done|by right].
      * rewrite decide_False; [done|]. by intros [?|?]%elem_of_cons.
Qed.

Lemma first_occurrences_snoc seen codes c :
  first_occurrences seen (codes ++ [c])
  = first_occurrences seen codes
    ++ (if decide (c ∈ seen ∨ c ∈ first_occurrences seen codes) then [] else [c]).
Proof.
  revert seen. induction codes as [|x codes IH]; intros seen; simpl.
  - case_bool_decide as Hc.
    + rewrite decide_True; [done|by left].
    + rewrite decide_False; [done|]. intros [?|?%elem_of_nil]; done.
  - case_bool_decide as Hx; rewrite IH.
    + done.
    + simpl. f_equal. f_equal.
      destruct (decide (c ∈ x :: seen ∨ c ∈ first_occurrences (x :: seen) codes))
        as [Hin|Hnot].
      * rewrite decide_True; [done|].
        destruct Hin as [[->|?]%elem_of_cons|?]; [right; left|by left|right; by right].
      * rewrite decide_False; [done|].
        intros [?|[->|?]%elem_of_cons]; apply Hnot; [left; by right|left; left|by right].
Qed.

(** ** Grouping the rows *)

Lemma parkDictionary_snoc rows r :
  parkDictionary (rows ++ [r]) = toParkDictionary (parkDictionary rows) r.
Proof. unfold parkDictionary. by rewrite foldl_snoc. Qed.

Lemma parkDictionary_get rows c :
  get c (parkDictionary rows) =
    match filter (λ r, code r = c) rows with
    | [] => None
    | r :: rs =>
        Some {| park_code := c; park_name := name r; seasons := season_of <$> r :: rs |}
    end.
Proof.
  induction rows as [|r rows IH] using rev_ind; [done|].
  rewrite parkDictionary_snoc, filter_app, filter_cons, filter_nil.
  unfold toParkDictionary. destruct (decide (code r = c)) as [Hc|Hc].
  - subst c. rewrite get_set_eq, IH.
    destruct (filter _ rows) as [|r0 rs]; simpl; [done|].
    unfold push. simpl. by rewrite fmap_app.
  - rewrite get_set_ne by done. by rewrite app_nil_r.
Qed.

Lemma parkDictionary_keys rows :
  (parkDictionary rows).*1 = first_occurrences [] (code <$> rows).
Proof.
  induction rows as [|r rows IH] using rev_ind; [done|].
  rewrite parkDictionary_snoc, fmap_app. change (code <$> [r]) with [code r].
  rewrite first_occurrences_snoc.
  unfold toParkDictionary. rewrite set_keys, IH.
  destruct (decide (code r ∈ first_occurrences [] (code <$> rows))) as [Hin|Hnot].
  - rewrite decide_True by (by right). by rewrite app_nil_r.
  - rewrite decide_False; [done|]. intros [?%elem_of_nil|?]; done.
Qed.

Lemma first_occurrences_NoDup seen codes :
  NoDup (first_occurrences seen codes)
  ∧ ∀ c, c ∈ first_occurrences seen codes → c ∉ seen.
Proof.
  revert seen. induction codes as [|x codes IH]; intros seen; simpl.
  - split; [constructor|]. by intros c ?%elem_of_nil.
  - case_bool_decide as Hx; [apply IH|].
    destruct (IH (x :: seen)) as [Hnd Hout]. split.
    + constructor; [|done]. intros Hin. apply (Hout x Hin). left.
    + intros c [->|Hc]%elem_of_cons; [done|].
      intros Hin. apply (Hout c Hc). by right.
Qed.

Lemma get_elem k v (d : dictionary) : NoDup d.*1 → (k, v) ∈ d → get k d = Some v.
Proof.
  induction d as [|[k' v'] d IH]; [by intros _ ?%elem_of_nil|].
  rewrite fmap_cons. intros [Hk' Hnd]%NoDup_cons [[= -> ->]|Hin]%elem_of_cons; simpl.
  - by rewrite bool_decide_eq_true_2.
  - rewrite bool_decide_eq_false_2; [by apply IH|].
    intros ->. apply Hk'. by apply (list_elem_of_fmap_2 fst _ (k, v)).
Qed.

Lemma season_count_set k v (d : dictionary) :
  (sum_list ((λ p, length (seasons p)) <$> (set k v d).*2)
   + from_option (λ p, length (seasons p)) 0 (get k d)
   = sum_list ((λ p, length (seasons p)) <$> d.*2) + length (seasons v))%nat.
Proof.
  induction d as [|[k' v'] d IH]; [simpl; lia|].
  cbn [set get]. case_bool_decide as Hk.
  - rewrite !fmap_cons. simpl. lia.
  - rewrite !fmap_cons. cbn [snd sum_list] in *. lia.
Qed.

Lemma parkDictionary_season_count rows :
  sum_list ((λ p, length (seasons p)) <$> (parkDictionary rows).*2) = length rows.
Proof.
  induction rows as [|r rows IH] using rev_ind; [done|].
  rewrite parkDictionary_snoc, length_app. simpl. unfold toParkDictionary.
  pose proof (season_count_set (code r)
                (push (season_of r)
                   match get (code r) (parkDictionary rows) with
                   | Some park => park
                   | None => {| park_code := code r; park_name := name r; seasons := [] |}
                   end) (parkDictionary rows)) as Hset.
  destruct (get (code r) (parkDictionary rows)) as [park|];
    simpl in Hset; rewrite ?length_app in Hset; simpl in Hset; lia.
Qed.

Lemma parkDictionary_elem rows k v :
  (k, v) ∈ parkDictionary rows →
  park_code v = k
  ∧ seasons v = season_of <$> filter (λ r, code r = k) rows
  ∧ ∃ r, r ∈ rows ∧ code r = k.
Proof.
  intros Hin. apply get_elem in Hin.
  - rewrite parkDictionary_get in Hin.
    destruct (filter _ rows) as [|r rs] eqn:Hrows; [done|]. injection Hin as <-.
    split; [done|]. split; [done|]. exists r.
    assert (r ∈ filter (λ r, code r = k) rows) as Hr by (rewrite Hrows; left).
    by apply list_elem_of_filter in Hr as [? ?].
  - rewrite parkDictionary_keys. apply first_occurrences_NoDup.
Qed.

Lemma parkDictionary_codes rows :
  park_code <$> (parkDictionary rows).*2 = (parkDictionary rows).*1.
Proof.
  assert (∀ d : dictionary, (∀ k v, (k, v) ∈ d → park_code v = k) →
            park_code <$> d.*2 = d.*1) as Hcodes.
  { induction d as [|[k v] d IH]; intros Hd; [done|].
    rewrite !fmap_cons. simpl. f_equal.
    - apply Hd. left.
    - apply IH. intros k' v' Hin. apply Hd. by right. }
  apply Hcodes. intros k v Hin. by apply parkDictionary_elem in Hin as [? _].
Qed.

(** X19: grouping the rows of a query by park: the dictionary has one entry
    per code, in the order in which the codes first occur; the park of a code
    has the name of the first row of that code and one season per row of that
    code, in the order of the rows; and a code that no row has is not in the
    dictionary. *)
Theorem parkDictionary_groups_rows_by_code (rows : list row) :
  (parkDictionary rows).*1 = first_occurrences [] (code <$> rows)
  ∧ NoDup (parkDictionary rows).*1
  ∧ (∀ c, get c (parkDictionary rows) =
        match filter (λ r, code r = c) rows with
        | [] => None
        | r :: rs =>
            Some {| park_code := c; park_name := name r;
                    seasons := season_of <$> r :: rs |}
        end)
  ∧ (∀ c, get c (parkDictionary rows) = None ↔ c ∉ code <$> rows).
Proof.
  split; [apply parkDictionary_keys|]. split.
  { rewrite parkDictionary_keys. apply first_occurrences_NoDup. }
  split; [apply parkDictionary_get|].
  intros c. rewrite parkDictionary_get. split.
  - intros Hnone (r & -> & Hr)%list_elem_of_fmap.
    assert (r ∈ filter (λ r', code r' = code r) rows) as Hin
      by (by apply list_elem_of_filter).
    destruct (filter _ rows); [by apply elem_of_nil in Hin|done].
  - intros Hnot. rewrite filter_none; [done|].
    intros r Hr Hc. apply Hnot. rewrite <- Hc. by apply list_elem_of_fmap_2.
Qed.

Section route_facts.
Context {query number : Type}.
Context (Number : query → number).
Context (toString : number → string).
Context (getChangeSet : number → option ChangeSet.ChangeSet).
Context (getCurrentChangeSet : option ChangeSet.ChangeSet).
Context (projection : Notification.projection.t).
Context (get_park_v1 : Z → list row).
Context (upper toUpperCase : string → string).
Context (toUTCString : Z → string).

Lemma filter_filter_same {A : Type} (P Q : A → Prop) `{∀ x, Decision (P x)}
    `{∀ x, Decision (Q x)} (l : list A) :
  (∀ x, Q x → P x) → filter P (filter Q l) = filter Q l.
Proof.
  intros HQP. apply filter_all. intros x [HQ _]%list_elem_of_filter. auto.
Qed.

Lemma getPark_other_case (changeSet : ChangeSet.ChangeSet) (c : string) :
  upper c ≠ c → getPark get_park_v1 upper changeSet c = None.
Proof.
  intros Hne. unfold getPark. rewrite parkDictionary_get, filter_none; [done|].
  intros r [Hr _]%list_elem_of_filter Hc. congruence.
Qed.

Lemma getPark_same_case (changeSet : ChangeSet.ChangeSet) (c : string) :
  upper c = c →
  getPark get_park_v1 upper changeSet c =
    match filter (λ r, code r = c) (get_park_v1 (ChangeSet.cs_id changeSet)) with
    | [] => None
    | r :: rs =>
        Some {| park_code := c; park_name := name r; seasons := season_of <$> r :: rs |}
    end.
Proof.
  intros Hup. unfold getPark. rewrite parkDictionary_get, Hup.
  by rewrite filter_filter_same.
Qed.

(** X20: [getPark] finds a park only for a code that SQL's [upper] leaves
    as it is: for such a code it returns the park grouped from the rows of
    that code, and for any other code it returns nothing, whatever rows there
    are. *)
Theorem getPark_needs_an_upper_case_code (changeSet : ChangeSet.ChangeSet) (c : string) :
  (upper c ≠ c → getPark get_park_v1 upper changeSet c = None)
  ∧ (upper c = c →
      getPark get_park_v1 upper changeSet c =
        match filter (λ r, code r = c) (get_park_v1 (ChangeSet.cs_id changeSet)) with
        | [] => None
        | r :: rs =>
            Some {| park_code := c; park_name := name r;
                    seasons := season_of <$> r :: rs |}
        end).
Proof.
  split; [apply getPark_other_case|apply getPark_same_case].
Qed.

(** X21: the route of one park replies with data only for a change set that
    [getChangeSet] knows under the number that [Number] makes of the query
    value, and then with the entity tag of that change set as ETag, with its
    modification date and as immutable; a number that names no change set is
    answered by 400 with that number in the message, and a park without rows
    by 404; without a [changeSetId] nothing is sent: the reply is the
    redirect to the current change set, or 404 when there is none. When
    [upper] leaves the upper-cased code as it is, a park is found as soon as
    a row has the upper-cased code. *)
Theorem get_park_replies (path : string) (changeSetId : option query) (c : string) :
  (∀ headers park,
      get_park Number toString getChangeSet getCurrentChangeSet projection get_park_v1
        upper toUpperCase toUTCString path changeSetId c = Send headers park →
      ∃ q changeSet,
        changeSetId = Some q ∧ getChangeSet (Number q) = Some changeSet
        ∧ headers = [ ("Last-Modified", toUTCString (ChangeSet.lastModified changeSet));
                      ("ETag", ChangeSet.entityTag changeSet);
                      ("Cache-Control", "max-age=31536000, immutable");
                      ("Connection", "close") ]
        ∧ park_code park = toUpperCase c
        ∧ seasons park
          = season_of <$> filter (λ r, code r = toUpperCase c)
                                 (get_park_v1 (ChangeSet.cs_id changeSet)))
  ∧ (∀ q, changeSetId = Some q → getChangeSet (Number q) = None →
      get_park Number toString getChangeSet getCurrentChangeSet projection get_park_v1
        upper toUpperCase toUTCString path changeSetId c
      = Throw 400 ("Invalid changeSetId: " +:+ toString (Number q)))
  ∧ (changeSetId = None →
      (∀ current, getCurrentChangeSet = Some current → integer (ChangeSet.cs_id current)) →
      get_park Number toString getChangeSet getCurrentChangeSet projection get_park_v1
        upper toUpperCase toUTCString path changeSetId c
      = match getCurrentChangeSet with
        | Some current =>
            Redirect 307 (path +:+ "?changeSetId=" +:+ pretty (ChangeSet.cs_id current))
        | None =>
            Throw 404 ("No current change set for projection: "
                       +:+ Notification.projection.name projection +:+ " "
                       +:+ pretty (Notification.projection.version projection))
        end)
  ∧ (∀ q changeSet,
      changeSetId = Some q → getChangeSet (Number q) = Some changeSet →
      (∀ r, r ∈ get_park_v1 (ChangeSet.cs_id changeSet) → code r ≠ upper (toUpperCase c)) →
      get_park Number toString getChangeSet getCurrentChangeSet projection get_park_v1
        upper toUpperCase toUTCString path changeSetId c
      = Throw 404 ("Park not found: " +:+ toUpperCase c))
  ∧ (∀ q changeSet r,
      changeSetId = Some q → getChangeSet (Number q) = Some changeSet →
      upper (toUpperCase c) = toUpperCase c →
      r ∈ get_park_v1 (ChangeSet.cs_id changeSet) → code r = toUpperCase c →
      ∃ headers park,
        get_park Number toString getChangeSet getCurrentChangeSet projection get_park_v1
          upper toUpperCase toUTCString path changeSetId c = Send headers park).
Proof.
  split_and!.
  - intros headers park. unfold get_park.
    destruct changeSetId as [q|]; [|unfold redirectToCurrentChangeSet;
                                     by destruct getCurrentChangeSet].
    cbv zeta.
    destruct (getChangeSet (Number q)) as [changeSet|] eqn:Hcs; [|done].
    destruct (getPark _ _ _ _) as [park'|] eqn:Hpark; [|done].
    intros [= <- <-]. exists q, changeSet. split; [done|]. split; [done|]. split; [done|].
    destruct (decide (upper (toUpperCase c) = toUpperCase c)) as [Hup|Hup].
    + apply (getPark_same_case changeSet) in Hup.
      rewrite Hup in Hpark. destruct (filter _ _); [done|]. by injection Hpark as <-.
    + apply (getPark_other_case changeSet) in Hup. congruence.
  - intros q -> Hcs. unfold get_park. cbv zeta. by rewrite Hcs.
  - intros -> _. done.
  - intros q changeSet -> Hcs Hnone. unfold get_park. cbv zeta. rewrite Hcs.
    unfold getPark. rewrite parkDictionary_get, filter_none; [done|].
    intros r [Hc Hr]%list_elem_of_filter _. by apply (Hnone r).
  - intros q changeSet r -> Hcs Hup Hr Hc. unfold get_park. cbv zeta. rewrite Hcs.
    rewrite (getPark_same_case changeSet _ Hup).
    assert (r ∈ filter (λ r', code r' = toUpperCase c)
                  (get_park_v1 (ChangeSet.cs_id changeSet))) as Hin
      by (by apply list_elem_of_filter).
    destruct (filter _ (get_park_v1 _)); [by apply elem_of_nil in Hin|]. by eexists _, _.
Qed.

(** X22: the route of all parks replies to a change set that [getChangeSet]
    knows under the number that [Number] makes of the query value with one
    park per code among the rows of that change set, in the order in which
    the codes first occur; every park has the seasons of the rows of its code
    and at least one, and the parks have as many seasons together as there
    are rows. A number that names no change set is answered by 400 with that
    number in the message. *)
Theorem get_parks_replies (path : string) (q : query) :
  (∀ changeSet, getChangeSet (Number q) = Some changeSet →
    ∃ parks,
      get_parks Number toString getChangeSet getCurrentChangeSet projection get_park_v1
        toUTCString path (Some q)
      = Send (getResponseHeaders toUTCString changeSet) parks
      ∧ park_code <$> parks
        = first_occurrences [] (code <$> get_park_v1 (ChangeSet.cs_id changeSet))
      ∧ NoDup (park_code <$> parks)
      ∧ (∀ p, p ∈ parks →
          seasons p ≠ []
          ∧ seasons p = season_of <$> filter (λ r, code r = park_code p)
                                            (get_park_v1 (ChangeSet.cs_id changeSet)))
      ∧ sum_list ((λ p, length (seasons p)) <$> parks)
        = length (get_park_v1 (ChangeSet.cs_id changeSet)))
  ∧ (getChangeSet (Number q) = None →
      get_parks Number toString getChangeSet getCurrentChangeSet projection get_park_v1
        toUTCString path (Some q)
      = Throw 400 ("Invalid changeSetId: " +:+ toString (Number q))).
Proof.
  split.
  - intros changeSet Hcs. unfold get_parks. cbv zeta. rewrite Hcs.
    eexists. split; [done|].
    unfold getParks. rewrite parkDictionary_codes, parkDictionary_keys.
    split; [done|]. split; [apply first_occurrences_NoDup|].
    split; [|apply parkDictionary_season_count].
    intros p ([k v] & -> & Hin)%list_elem_of_fmap. simpl.
    apply parkDictionary_elem in Hin as (Hcode & Hseasons & r & Hr & Hc).
    rewrite Hcode. split; [|done]. rewrite Hseasons.
    assert (r ∈ filter (λ r, code r = k) (get_park_v1 (ChangeSet.cs_id changeSet)))
      as Hin by (by apply list_elem_of_filter).
    destruct (filter _ _); [by apply elem_of_nil in Hin|done].
  - intros Hcs. unfold get_parks. cbv zeta. by rewrite Hcs.
Qed.

End route_facts.

End park_facts.

(** * The scenarios of the additional properties *)

Section queue_scenarios.
Import Notification NotificationScenario Cascade QueueScenario.

Lemma busy_day_end_consistent : consistent busy_day_end.
Proof. apply (bool_decide_unpack _). vm_compute. exact I. Qed.

Lemma second_delivery_consistent : consistent second_delivery.
Proof. apply (bool_decide_unpack _). vm_compute. exact I. Qed.

Lemma unknown_notification_is_ignored_witness :
  consistent failed_twice
  ∧ lookup_id 9 failed_twice = None
  ∧ fby_pass_notification 60 9 failed_twice = Commit failed_twice
  ∧ fby_fail_notification 60 9 (Some 70) (Some "subscriber threw") failed_twice
    = Commit failed_twice.
Proof.
  split; [exact failed_twice_consistent|]. split; [reflexivity|].
  exact (unknown_notification_is_ignored 60 9 (Some 70) (Some "subscriber threw"%string)
           failed_twice failed_twice_consistent eq_refl).
Defined.

Lemma fail_notification_touches_one_row_witness :
  fby_fail_notification 60 1 (Some 70) (Some "subscriber threw") failed_twice
  = Commit failed_thrice
  ∧ length (fby_notification failed_thrice) = length (fby_notification failed_twice)
  ∧ ∀ i, i ≠ 1 → lookup_id i failed_thrice = lookup_id i failed_twice.
Proof.
  assert (fby_fail_notification 60 1 (Some 70) (Some "subscriber threw"%string) failed_twice
          = Commit failed_thrice) as Hrun by (vm_compute; reflexivity).
  split; [exact Hrun|].
  destruct (fail_notification_touches_one_row 60 1 (Some 70)
              (Some "subscriber threw"%string) failed_twice failed_thrice Hrun) as (Hlen & _ & _ & Hothers & _).
  split; [exact Hlen|exact Hothers].
Defined.


Lemma contended_queue_consistent : consistent contended_queue.
Proof. apply (bool_decide_unpack _). vm_compute. exact I. Qed.

Lemma get_next_notification_skips_locked_rows_witness :
  consistent contended_queue
  ∧ reverse (fby_notification contended_queue) ≡ₚ fby_notification contended_queue
  ∧ waiting ∈ fby_notification contended_queue
  ∧ due 60 3 waiting = true
  ∧ held_by_another_worker (id waiting) = false
  ∧ due 60 3 (row 1 1 1 50 (Some 0) PENDING None None) = true
  ∧ held_by_another_worker 1 = true
  ∧ fby_get_next_notification 60 3 held_by_another_worker contended_queue
    = Some {| next_id := 5; next_hook_id := 4; next_attempts := Some 3 |}
  ∧ fby_get_next_notification 60 3 held_by_another_worker
      (with_notifications contended_queue (reverse (fby_notification contended_queue)))
    = Some {| next_id := 5; next_hook_id := 4; next_attempts := Some 3 |}.
Proof.
  assert (reverse (fby_notification contended_queue) ≡ₚ fby_notification contended_queue)
    as Hperm by apply reverse_Permutation.
  assert (waiting ∈ fby_notification contended_queue) as Hin
    by (apply (bool_decide_unpack _); vm_compute; exact I).
  assert (Forall (λ m, due 60 3 m = true → held_by_another_worker (id m) = false →
                       m = waiting) (fby_notification contended_queue)) as Honly
    by (apply (bool_decide_unpack _); vm_compute; exact I).
  rewrite Forall_forall in Honly.
  destruct (get_next_notification_skips_locked_rows 60 3 held_by_another_worker
              contended_queue) as (_ & _ & _ & Hone).
  split; [exact contended_queue_consistent|]. split; [exact Hperm|]. split; [exact Hin|].
  split; [reflexivity|]. split; [reflexivity|]. split; [reflexivity|].
  split; [reflexivity|]. split; [reflexivity|].
  exact (Hone _ waiting Hperm Hin eq_refl eq_refl Honly).
Defined.


Lemma pass_notification_keeps_latest_success_witness :
  consistent second_delivery
  ∧ lookup_id 2 second_delivery = Some (row 2 1 1 60 (Some 0) PENDING None None)
  ∧ ∃ db', fby_pass_notification 70 2 second_delivery = Commit db'
      ∧ filter (λ m, hook_id m = 1 ∧ status m = OK) (fby_notification db')
        = [row 2 1 1 60 (Some 1) OK (Some 70) None].
Proof.
  split; [exact second_delivery_consistent|]. split; [reflexivity|].
  assert (∀ a : Z, Some 0 = Some a → a < int4_max) as Hrange
    by (intros a [= <-]; vm_compute; reflexivity).
  destruct (pass_notification_keeps_latest_success 70 2 second_delivery
              (row 2 1 1 60 (Some 0) PENDING None None)
              second_delivery_consistent eq_refl eq_refl Hrange) as (db' & Hrun & Hok & _).
  exists db'. split; [exact Hrun|exact Hok].
Defined.

Lemma passed_notification_is_not_dequeued_again_witness :
  consistent failed_twice
  ∧ 3 ≤ int4_max
  ∧ fby_get_next_notification 60 3 (λ _, false) failed_twice
    = Some {| next_id := 1; next_hook_id := 1; next_attempts := Some 3 |}
  ∧ ∃ db', fby_pass_notification 61 1 failed_twice = Commit db'
      ∧ ∀ now p_max_attempts locked r,
          fby_get_next_notification now p_max_attempts locked db' = Some r →
          next_id r ≠ 1.
Proof.
  assert (3 ≤ int4_max) as Hmax by (vm_compute; discriminate).
  split; [exact failed_twice_consistent|]. split; [exact Hmax|]. split; [reflexivity|].
  exact (passed_notification_is_not_dequeued_again 60 3 (λ _, false) failed_twice
           {| next_id := 1; next_hook_id := 1; next_attempts := Some 3 |}
           failed_twice_consistent Hmax eq_refl 61).
Defined.

Lemma repeated_failures_poison_the_notification_witness :
  consistent failed_twice
  ∧ lookup_id 1 failed_twice = Some twice
  ∧ attempts twice = Some 2
  ∧ 2 + 2 ≤ int4_max
  ∧ (∃ db' n',
      run [ fail_notification 60 1 (Some 70) (Some "timeout");
            fail_notification 80 1 (Some 90) None ]
          failed_twice = Commit db'
      ∧ lookup_id 1 db' = Some n'
      ∧ attempts n' = Some 4)
  ∧ consistent exhausted
  ∧ run [ fail_notification 60 1 (Some 70) (Some "timeout") ] exhausted
    = Raise numeric_value_out_of_range.
Proof.
  assert (2 + 2 ≤ int4_max) as Hroom by (vm_compute; discriminate).
  split; [exact failed_twice_consistent|]. split; [reflexivity|]. split; [reflexivity|].
  split; [exact Hroom|]. split.
  - destruct (repeated_failures_poison_the_notification 1
                [ (60, 70, Some "timeout"%string); (80, 90, None) ]
                failed_twice twice 2 failed_twice_consistent eq_refl eq_refl)
      as [Hcommit _].
    destruct (Hcommit Hroom) as (db' & n' & Hrun & Hlook & Hatt & _).
    exists db', n'. split; [exact Hrun|]. split; [exact Hlook|exact Hatt].
  - split; [exact exhausted_consistent|].
    destruct (repeated_failures_poison_the_notification 1
                [ (60, 70, Some "timeout"%string) ] exhausted
                (row 1 1 1 50 (Some 2147483647) PENDING (Some 40)
                     (Some "subscriber threw"%string))
                2147483647 exhausted_consistent eq_refl eq_refl)
      as [_ Hraise].
    apply Hraise; vm_compute; [discriminate|reflexivity].
Defined.

Lemma run_keeps_the_queue_consistent_witness :
  consistent empty_queue
  ∧ Forall (λ n, is_Some (attempts n)) (fby_notification empty_queue)
  ∧ run busy_day empty_queue = Commit busy_day_end
  ∧ consistent busy_day_end.
Proof.
  assert (Forall (λ n, is_Some (attempts n)) (fby_notification empty_queue)) as Hatt
    by constructor.
  assert (run busy_day empty_queue = Commit busy_day_end) as Hrun
    by (vm_compute; reflexivity).
  split; [exact empty_queue_consistent|]. split; [exact Hatt|]. split; [exact Hrun|].
  exact (proj1 (run_keeps_the_queue_consistent busy_day empty_queue busy_day_end
                  empty_queue_consistent Hatt Hrun)).
Defined.




Lemma delete_hooks_cascades_witness :
  consistent busy_day_end
  ∧ consistent (delete_hooks is_any_hook busy_day_end)
  ∧ fby_notification (delete_hooks is_any_hook busy_day_end)
    = [ row 3 1 1 110 (Some 2) OK (Some 111) None ].
Proof.
  split; [exact busy_day_end_consistent|].
  split; [|vm_compute; reflexivity].
  exact (proj1 (delete_hooks_cascades is_any_hook busy_day_end busy_day_end_consistent)).
Defined.

Lemma delete_projections_cascades_witness :
  consistent busy_day_end
  ∧ consistent (delete_projections every_projection busy_day_end)
  ∧ fby_notification (delete_projections every_projection busy_day_end) = []
  ∧ fby_hook (delete_projections every_projection busy_day_end)
    = [ {| hook.id := 2; hook.name := "any"; hook.event := "Any Change";
           hook.projection_id := None |} ].
Proof.
  split; [exact busy_day_end_consistent|].
  split; [|split; vm_compute; reflexivity].
  exact (proj1 (delete_projections_cascades every_projection busy_day_end
                  busy_day_end_consistent)).
Defined.

End queue_scenarios.

Section change_set_scenarios.
Import ChangeSet ChangeSetScenario.

Lemma insert_change_set_checks_effective_before_id_witness :
  integer (default (rdf_change_set_id_seq countries_inserted) (new_id countries))
  ∧ is_Some (new_effective countries)
  ∧ default (rdf_change_set_id_seq countries_inserted) (new_id countries)
    ∈ id <$> rdf_change_set countries_inserted
  ∧ insert_change_set 1700000001 some_bytes countries countries_inserted
    = Raise (unique_violation "rdf_change_set_pkey")
  ∧ insert_change_set 1700000001 some_bytes without_effective countries_inserted
    = Raise (not_null_violation "effective").
Proof.
  assert (integer (default (rdf_change_set_id_seq countries_inserted) (new_id countries)))
    as Hint by (apply (bool_decide_unpack _); vm_compute; exact I).
  assert (is_Some (new_effective countries)) as He by (by eexists).
  assert (default (rdf_change_set_id_seq countries_inserted) (new_id countries)
          ∈ id <$> rdf_change_set countries_inserted) as Hin
    by (apply (bool_decide_unpack _); vm_compute; exact I).
  split; [exact Hint|]. split; [exact He|]. split; [exact Hin|].
  destruct (insert_change_set_checks_effective_before_id
              1700000001 some_bytes countries countries_inserted Hint) as (_ & Htaken & _).
  split; [exact (Htaken He Hin)|].
  destruct (insert_change_set_checks_effective_before_id
              1700000001 some_bytes without_effective countries_inserted Hint)
    as (Hnull & _).
  exact (Hnull eq_refl).
Defined.

Lemma serial_ids_never_collide_witness :
  NoDup (id <$> rdf_change_set no_change_sets)
  ∧ Forall (λ row, id row < rdf_change_set_id_seq no_change_sets)
           (rdf_change_set no_change_sets)
  ∧ Forall (λ i, new_id i.2 = None ∧ is_Some (new_effective i.2)) two_inserts
  ∧ rdf_change_set_id_seq no_change_sets + Z.of_nat (length two_inserts) ≤ int4_max + 1
  ∧ ∃ tbl', insert_all two_inserts no_change_sets = Commit tbl'
      ∧ id <$> rdf_change_set tbl' = [1; 2]
      ∧ rdf_change_set_id_seq tbl' = 3.
Proof.
  assert (NoDup (id <$> rdf_change_set no_change_sets)) as Hnd by constructor.
  assert (Forall (λ row, id row < rdf_change_set_id_seq no_change_sets)
            (rdf_change_set no_change_sets)) as Hseq by constructor.
  assert (Forall (λ i, new_id i.2 = None ∧ is_Some (new_effective i.2)) two_inserts)
    as Hall by (repeat constructor; by eexists).
  assert (rdf_change_set_id_seq no_change_sets + Z.of_nat (length two_inserts)
          ≤ int4_max + 1) as Hroom by (vm_compute; discriminate).
  split; [exact Hnd|]. split; [exact Hseq|]. split; [exact Hall|]. split; [exact Hroom|].
  destruct (serial_ids_never_collide two_inserts no_change_sets Hnd Hseq Hall Hroom)
    as (tbl' & Hrun & Hids & _ & Hnext).
  exists tbl'. split; [exact Hrun|]. split; [exact Hids|exact Hnext].
Defined.


Lemma entity_tags_differ_with_their_bytes_witness :
  some_bytes 9%nat ≠ other_bytes 9%nat
  ∧ new_entity_tag (rdf_on_new_change_set 1700000000 some_bytes countries)
    = Some "009fa0ff3c7e7e7e7e7e"
  ∧ new_entity_tag (rdf_on_new_change_set 1700000001 other_bytes countries)
    = Some "009fa0ff3c7e7e7e7e7f"
  ∧ new_entity_tag (rdf_on_new_change_set 1700000000 some_bytes countries)
    ≠ new_entity_tag (rdf_on_new_change_set 1700000001 other_bytes countries).
Proof.
  assert (some_bytes 9%nat ≠ other_bytes 9%nat) as Hne by (vm_compute; discriminate).
  split; [exact Hne|]. split; [vm_compute; reflexivity|]. split; [vm_compute; reflexivity|].
  intros Heq. apply Hne.
  apply (proj1 (entity_tags_differ_with_their_bytes 1700000000 1700000001
                  some_bytes other_bytes countries countries) Heq 9%nat).
  lia.
Defined.

End change_set_scenarios.

Section park_scenarios.
Import Park ParkScenario.

Example two_parks_grouped :
  parkDictionary two_parks
  = [ ("DC", devon_cliffs);
      ("GA", {| park_code := "GA"; park_name := "Greenacres";
                seasons := [ {| type := "Owners"; start := "2023-03-01";
                                end_ := "2023-11-15" |} ] |}) ].
Proof. vm_compute. reflexivity. Qed.

Lemma parkDictionary_groups_rows_by_code_witness :
  ("XX" ∉ code <$> two_parks)
  ∧ get "XX" (parkDictionary two_parks) = None
  ∧ get "DC" (parkDictionary two_parks) = Some devon_cliffs.
Proof.
  assert ("XX" ∉ code <$> two_parks) as Hnot
    by (apply (bool_decide_unpack _); vm_compute; exact I).
  destruct (parkDictionary_groups_rows_by_code two_parks) as (_ & _ & Hget & Hnone).
  split; [exact Hnot|]. split; [exact (proj2 (Hnone "XX") Hnot)|].
  rewrite (Hget "DC"). reflexivity.
Defined.

Lemma getPark_needs_an_upper_case_code_witness :
  ascii_upper "dc" ≠ "dc"
  ∧ getPark parks_of ascii_upper first_change_set "dc" = None
  ∧ ascii_upper "DC" = "DC"
  ∧ getPark parks_of ascii_upper first_change_set "DC" = Some devon_cliffs.
Proof.
  assert (ascii_upper "dc" ≠ "dc") as Hne
    by (apply (bool_decide_unpack _); vm_compute; exact I).
  destruct (getPark_needs_an_upper_case_code parks_of ascii_upper first_change_set "dc")
    as [Hlower _].
  destruct (getPark_needs_an_upper_case_code parks_of ascii_upper first_change_set "DC")
    as [_ Hupper].
  split; [exact Hne|]. split; [exact (Hlower Hne)|]. split; [reflexivity|].
  rewrite (Hupper eq_refl). vm_compute. reflexivity.
Defined.

Lemma get_park_replies_witness :
  get_park to_double decimal only_first (Some first_change_set) parks_projection parks_of
    ascii_upper ascii_upper decimal "/api/v1/park/code/dc" (Some 1) "dc"
  = Send [ ("Last-Modified", "1700000000"); ("ETag", "009fa0ff3c7e7e7e7e7e");
           ("Cache-Control", "max-age=31536000, immutable"); ("Connection", "close") ]
         devon_cliffs
  ∧ (∃ q changeSet,
       Some 1 = Some q ∧ only_first (to_double q) = Some changeSet
       ∧ ChangeSet.entityTag changeSet = "009fa0ff3c7e7e7e7e7e")
  ∧ only_first (to_double 9007199254740993) = None
  ∧ get_park to_double decimal only_first (Some first_change_set) parks_projection parks_of
      ascii_upper ascii_upper decimal "/api/v1/park/code/dc" (Some 9007199254740993) "dc"
    = Throw 400 "Invalid changeSetId: 9007199254740992"
  ∧ integer (ChangeSet.cs_id first_change_set)
  ∧ get_park to_double decimal only_first (Some first_change_set) parks_projection parks_of
      ascii_upper ascii_upper decimal "/api/v1/park/code/dc" None "dc"
    = Redirect 307 "/api/v1/park/code/dc?changeSetId=1".
Proof.
  assert (get_park to_double decimal only_first (Some first_change_set) parks_projection
            parks_of ascii_upper ascii_upper decimal "/api/v1/park/code/dc" (Some 1) "dc"
          = Send [ ("Last-Modified", "1700000000"); ("ETag", "009fa0ff3c7e7e7e7e7e");
                   ("Cache-Control", "max-age=31536000, immutable");
                   ("Connection", "close") ]
                 devon_cliffs) as Hsend by (vm_compute; reflexivity).
  assert (integer (ChangeSet.cs_id first_change_set)) as Hint
    by (apply (bool_decide_unpack _); vm_compute; exact I).
  destruct (get_park_replies to_double decimal only_first (Some first_change_set)
              parks_projection parks_of ascii_upper ascii_upper decimal
              "/api/v1/park/code/dc" (Some 1) "dc") as (Hsent & _).
  destruct (get_park_replies to_double decimal only_first (Some first_change_set)
              parks_projection parks_of ascii_upper ascii_upper decimal
              "/api/v1/park/code/dc" (Some 9007199254740993) "dc") as (_ & Hinvalid & _).
  destruct (get_park_replies to_double decimal only_first (Some first_change_set)
              parks_projection parks_of ascii_upper ascii_upper decimal
              "/api/v1/park/code/dc" None "dc") as (_ & _ & Hnone & _).
  split; [exact Hsend|]. split.
  - destruct (Hsent _ _ Hsend) as (q & changeSet & Hq & Hcs & Hheaders & _).
    exists q, changeSet. split; [exact Hq|]. split; [exact Hcs|].
    by injection Hheaders as _ <-.
  - split; [reflexivity|]. split; [exact (Hinvalid _ eq_refl eq_refl)|].
    split; [exact Hint|]. apply (Hnone eq_refl). by intros current [= <-].
Defined.

Lemma get_parks_replies_witness :
  only_first (to_double 1) = Some first_change_set
  ∧ (∃ parks,
      get_parks to_double decimal only_first (Some first_change_set) parks_projection
        parks_of decimal "/api/v1/park" (Some 1)
      = Send (getResponseHeaders decimal first_change_set) parks
      ∧ park_code <$> parks = ["DC"; "GA"]
      ∧ sum_list ((λ p, length (seasons p)) <$> parks) = 3%nat)
  ∧ only_first (to_double 9007199254740993) = None
  ∧ get_parks to_double decimal only_first (Some first_change_set) parks_projection
      parks_of decimal "/api/v1/park" (Some 9007199254740993)
    = Throw 400 "Invalid changeSetId: 9007199254740992".
Proof.
  split; [reflexivity|].
  destruct (get_parks_replies to_double decimal only_first (Some first_change_set)
              parks_projection parks_of decimal "/api/v1/park" 1) as [Hknown _].
  destruct (get_parks_replies to_double decimal only_first (Some first_change_set)
              parks_projection parks_of decimal "/api/v1/park" 9007199254740993)
    as [_ Hunknown].
  split.
  - destruct (Hknown first_change_set eq_refl)
      as (parks & Hsend & Hcodes & _ & _ & Hcount).
    exists parks. split; [exact Hsend|]. split; [exact Hcodes|exact Hcount].
  - split; [reflexivity|]. exact (Hunknown eq_refl).
Defined.

End park_scenarios.
